(** * Granola-Clone backend: speech-to-text session engine and WAV validator

    A shallow embedding of
    - [utils/wavValidator.js] (class [WAVValidator]): size limits, RIFF/WAVE
      header parsing, format validation, duration, [validateAndProcess];
    - [ws/sttHandler.js]: the response handling of [transcribeWAVFile], the
      per-connection message handler (rate limiting, single-slot queue,
      consecutive-error cooldown) and the mock-mode handler;
    - of the client, [pages/Home.js] (classes [WAVEncoder] and
      [WebAudioRecorder]: sample conversion, header and data writing,
      [stop]), which produce the buffers the server validates, and
      [pages/LiveMeeting.js] ([stopRecording] with its size guard,
      [handleWebSocketMessage]) and [addTranscript] of
      [context/TranscriptContext.js].

    Conventions.  JavaScript numbers that hold integers (buffer lengths,
    header fields, [Date.now()] stamps, counters) are [Z].  The two places
    where the source divides ([bitsPerSample / 8] and
    [dataSize / bytesPerSecond]) are computed over [Q], with the IEEE-754
    special values of a division by zero made explicit in [number]; the
    rounding of finite doubles is not modelled.  It does not bear on the
    two tests made on such values ([> 1] on the byte-rate difference,
    [> MAX_DURATION] on the duration): header fields are below 2^32 and
    buffer lengths far below 2^53, so a quotient that is rounded is far
    from both thresholds.  Buffers are [list byte].  A string is held as
    the bytes of its UTF-8 encoding.  A [throw] is the [Throw] branch of
    [result].  The samples of a [Float32Array] are
    [number]s; a finite one is the rational it denotes.  Their products
    with 0x8000 and 0x7fff are exact in double precision (24 significant
    bits times 15), so the encoder's arithmetic on them is the
    arithmetic of [Q]. *)

From Stdlib Require Import ZArith QArith Qabs Qround Lqa Lia Bool.
From Stdlib Require Import Strings.String Strings.Ascii Strings.Byte.
From Stdlib Require Import Numbers.DecimalString.
From stdpp Require Import base option list gmap strings.

Local Open Scope Z_scope.

(* ===================================================================== *)
(** * Common: exceptions as results *)
(* ===================================================================== *)

Inductive result (E A : Type) : Type :=
| Ok (a : A)
| Throw (e : E).
Arguments Ok {E A} a.
Arguments Throw {E A} e.

Definition rbind {E A B} (r : result E A) (k : A -> result E B) : result E B :=
  match r with
  | Ok a => k a
  | Throw e => Throw e
  end.

(** [try { r } catch (error) { throw wrap(error) }] *)
Definition rethrow {E A} (wrap : E -> E) (r : result E A) : result E A :=
  match r with
  | Ok a => Ok a
  | Throw e => Throw (wrap e)
  end.

Declare Scope result_scope.
Delimit Scope result_scope with result.
Notation "x <- r ;; k" := (rbind r (fun x => k))
  (at level 100, r at next level, right associativity) : result_scope.
Notation "'check' r ;; k" := (rbind r (fun _ => k))
  (at level 100, r at next level, right associativity) : result_scope.

(* ===================================================================== *)
(** * JavaScript numbers produced by a division *)
(* ===================================================================== *)

Inductive number : Type :=
| Num (q : Q)
| PosInf
| NegInf
| NaN.

Definition Qltb (a b : Q) : bool := negb (Qle_bool b a).

(** [a / b] on finite operands: a zero divisor gives an infinity of the
    sign of [a], and [0 / 0] is [NaN]. *)
Definition js_div (a b : Q) : number :=
  if Qeq_bool b 0 then
    if Qltb 0 a then PosInf
    else if Qltb a 0 then NegInf
    else NaN
  else Num (a / b).

(** [Math.max(a, b)]: [NaN] if either argument is [NaN]. *)
Definition Math_max (a b : number) : number :=
  match a, b with
  | NaN, _ | _, NaN => NaN
  | PosInf, _ | _, PosInf => PosInf
  | NegInf, y => y
  | x, NegInf => x
  | Num x, Num y => if Qle_bool x y then Num y else Num x
  end.

(** [a > b]: false as soon as an operand is [NaN]. *)
Definition js_gt (a b : number) : bool :=
  match a, b with
  | NaN, _ | _, NaN => false
  | PosInf, PosInf => false
  | PosInf, _ => true
  | _, PosInf => false
  | NegInf, _ => false
  | Num _, NegInf => true
  | Num x, Num y => Qltb y x
  end.

(** [a >= b] *)
Definition js_ge (a b : number) : bool :=
  match a, b with
  | NaN, _ | _, NaN => false
  | PosInf, _ => true
  | _, NegInf => true
  | NegInf, _ => false
  | Num _, PosInf => false
  | Num x, Num y => Qle_bool y x
  end.

Definition num (z : Z) : number := Num (inject_Z z).

(* ===================================================================== *)
(** * utils/wavValidator.js *)
(* ===================================================================== *)

Module Wav.

(** ** WAV_VALIDATION_CONFIG *)

Module SARVAM_PREFERRED.
Definition sampleRate : Z := 16000.
Definition channels : Z := 1.
Definition bitDepth : Z := 16.
End SARVAM_PREFERRED.

Module HEADER.
Definition RIFF_SIGNATURE : list byte := [x52; x49; x46; x46].
Definition WAVE_SIGNATURE : list byte := [x57; x41; x56; x45].
Definition FMT_SIGNATURE : list byte := [x66; x6d; x74; x20].
Definition MIN_HEADER_SIZE : Z := 44.
End HEADER.

Module LIMITS.
Definition MAX_FILE_SIZE : Z := 50 * 1024 * 1024.
Definition MIN_FILE_SIZE : Z := 1000.
Definition MAX_DURATION : Z := 600.
End LIMITS.

Inductive VALIDATION_LEVELS : Type := BASIC | STANDARD | STRICT.

Definition is_strict (l : VALIDATION_LEVELS) : bool :=
  match l with STRICT => true | _ => false end.

(** ** Data *)

(** The object returned by [_parseWAVHeader]. *)
Record headerInfo : Type := {
  fileSize : Z;
  audioFormat : Z;
  numChannels : Z;
  sampleRate : Z;
  byteRate : Z;
  blockAlign : Z;
  bitsPerSample : Z;
  fmtSize : Z;
  duration : number
}.

(** The entries pushed on [errors] and [warnings] by [_validateWAVFormat];
    each constructor stands for one message template and carries the
    values interpolated into it. *)
Inductive issue : Type :=
| UnsupportedAudioFormat (audioFormat : Z)
| SampleRateNotOptimal (sampleRate preferred : Z)
| SampleRateNotPreferred (sampleRate preferred : Z)
| ChannelCountNotOptimal (numChannels preferred : Z)
| ChannelCountNotPreferred (numChannels preferred : Z)
| BitDepthNotOptimal (bitsPerSample preferred : Z)
| BitDepthNotPreferred (bitsPerSample preferred : Z)
| AudioTooLong (duration : number) (max : Z)
| ByteRateMismatch (byteRate : Z) (expected : Q).

(** The object returned by [_validateWAVFormat]. *)
Record validationResult : Type := {
  isValid : bool;
  errors : list issue;
  warnings : list issue;
  requiresFix : bool
}.

(** Everything the class throws, one constructor per [throw] site, plus
    the exceptions of the runtime it lets through. *)
Inductive error : Type :=
| FileTooSmall (len : Z)            (* "WAV file too small: .. bytes (minimum: 1000)" *)
| FileTooLarge (len : Z)            (* "WAV file too large: .. bytes (maximum: ..)" *)
| HeaderTooSmall                    (* "WAV file too small to contain valid header" *)
| InvalidRIFF                       (* "Invalid RIFF signature" *)
| InvalidWAVE                       (* "Invalid WAVE signature" *)
| FmtChunkNotFound                  (* "fmt chunk not found" *)
| RangeError (offset len : Z)       (* Buffer.readUInt..LE out of range *)
| HeaderParsingFailed (cause : error)  (* "WAV header parsing failed: " + cause *)
| FormatInvalid (errors : list issue)  (* "WAV validation failed: " + errors.join *)
| NotCorrectable                    (* "WAV format could not be corrected automatically" *)
| External (message : string)       (* rejected by ffmpeg or the file system *)
| ValidationFailed (cause : error). (* "WAV validation failed: " + cause, outer catch *)

(** The object returned by [validateAndProcess]: [pr_isValid] and
    [pr_metadata] are its fields [isValid] and [metadata], and [header]
    stands for the spread [...headerInfo]. *)
Record metadata : Type := {
  header : headerInfo;
  wasProcessed : bool;
  processingTime : Z;
  originalSize : Z;
  finalSize : Z
}.

Record processResult : Type := {
  pr_isValid : bool;
  processedBuffer : list byte;
  pr_metadata : metadata
}.

(** ** Buffer primitives *)

Definition blen (b : list byte) : Z := Z.of_nat (length b).

Definition byteZ (x : byte) : Z := Z.of_N (Byte.to_N x).

(** [buf.subarray(start, end)] for in-range non-negative bounds; an end
    past the buffer is clamped. *)
Definition subarray (buf : list byte) (start stop : Z) : list byte :=
  take (Z.to_nat (stop - start)) (drop (Z.to_nat start) buf).

(** [a.equals(b)] *)
Fixpoint bytes_eqb (a b : list byte) : bool :=
  match a, b with
  | [], [] => true
  | x :: a', y :: b' => Byte.eqb x y && bytes_eqb a' b'
  | _, _ => false
  end.

Definition byteAt (buf : list byte) (off : Z) : Z :=
  match buf !! Z.to_nat off with
  | Some x => byteZ x
  | None => 0
  end.

Definition readUInt16LE (buf : list byte) (off : Z) : result error Z :=
  if (0 <=? off) && (off + 2 <=? blen buf)
  then Ok (byteAt buf off + 256 * byteAt buf (off + 1))
  else Throw (RangeError off (blen buf)).

Definition readUInt32LE (buf : list byte) (off : Z) : result error Z :=
  if (0 <=? off) && (off + 4 <=? blen buf)
  then Ok (byteAt buf off + 256 * byteAt buf (off + 1)
           + 65536 * byteAt buf (off + 2) + 16777216 * byteAt buf (off + 3))
  else Throw (RangeError off (blen buf)).

(** ** Methods of [WAVValidator] *)

Record WAVValidator : Type := {
  validationLevel : VALIDATION_LEVELS;
  autoFix : bool
}.

Definition _validateFileSize (wavBuffer : list byte) : result error unit :=
  if blen wavBuffer <? LIMITS.MIN_FILE_SIZE then Throw (FileTooSmall (blen wavBuffer))
  else if LIMITS.MAX_FILE_SIZE <? blen wavBuffer then Throw (FileTooLarge (blen wavBuffer))
  else Ok tt.

Definition _calculateDuration (fileSize sampleRate channels bitDepth : Z) : number :=
  let headerSize := HEADER.MIN_HEADER_SIZE in
  let dataSize := fileSize - headerSize in
  let bytesPerSecond :=
    (inject_Z sampleRate * inject_Z channels * (inject_Z bitDepth / 8))%Q in
  Math_max (num 0) (js_div (inject_Z dataSize) bytesPerSecond).

(** The [while (fmtOffset < wavBuffer.length - 8)] loop.  [Some (off, size)]
    is the pair [(fmtOffset, fmtSize)] on leaving the loop; [None] means the
    iteration budget [fuel] ran out (it never does when [fuel] is the buffer
    length, see [find_fmt_terminates]). *)
Fixpoint find_fmt (fuel : nat) (wavBuffer : list byte) (fmtOffset : Z)
  : option (result error (Z * Z)) :=
  if fmtOffset <? blen wavBuffer - 8 then
    match fuel with
    | O => None
    | S fuel' =>
        let chunkId := subarray wavBuffer fmtOffset (fmtOffset + 4) in
        match readUInt32LE wavBuffer (fmtOffset + 4) with
        | Throw e => Some (Throw e)
        | Ok chunkSize =>
            if bytes_eqb chunkId HEADER.FMT_SIGNATURE
            then Some (Ok (fmtOffset, chunkSize))
            else find_fmt fuel' wavBuffer (fmtOffset + (8 + chunkSize))
        end
    end
  else Some (Ok (fmtOffset, 0)).

Local Open Scope result_scope.

Definition parse_body (fuel : nat) (wavBuffer : list byte)
  : option (result error headerInfo) :=
  let riffSignature := subarray wavBuffer 0 4 in
  if negb (bytes_eqb riffSignature HEADER.RIFF_SIGNATURE) then Some (Throw InvalidRIFF)
  else
  let waveSignature := subarray wavBuffer 8 12 in
  if negb (bytes_eqb waveSignature HEADER.WAVE_SIGNATURE) then Some (Throw InvalidWAVE)
  else
  match find_fmt fuel wavBuffer 12 with
  | None => None
  | Some found => Some (
      loop <- found ;;
      let '(fmtOffset, fmtSize) := loop in
      if fmtSize =? 0 then Throw FmtChunkNotFound else
      let fmtData := fmtOffset + 8 in
      audioFormat <- readUInt16LE wavBuffer fmtData ;;
      numChannels <- readUInt16LE wavBuffer (fmtData + 2) ;;
      sampleRate <- readUInt32LE wavBuffer (fmtData + 4) ;;
      byteRate <- readUInt32LE wavBuffer (fmtData + 8) ;;
      blockAlign <- readUInt16LE wavBuffer (fmtData + 12) ;;
      bitsPerSample <- readUInt16LE wavBuffer (fmtData + 14) ;;
      riffSize <- readUInt32LE wavBuffer 4 ;;
      let fileSize := riffSize + 8 in
      Ok {| fileSize := fileSize;
            audioFormat := audioFormat;
            numChannels := numChannels;
            sampleRate := sampleRate;
            byteRate := byteRate;
            blockAlign := blockAlign;
            bitsPerSample := bitsPerSample;
            fmtSize := fmtSize;
            duration := _calculateDuration (blen wavBuffer) sampleRate
                          numChannels bitsPerSample |})
  end.

Definition parse_fuel (fuel : nat) (wavBuffer : list byte)
  : option (result error headerInfo) :=
  if blen wavBuffer <? HEADER.MIN_HEADER_SIZE then Some (Throw HeaderTooSmall)
  else option_map (rethrow HeaderParsingFailed) (parse_body fuel wavBuffer).

(** [_parseWAVHeader]: the loop is given the buffer length as budget. *)
Definition _parseWAVHeader (wavBuffer : list byte) : result error headerInfo :=
  match parse_fuel (length wavBuffer) wavBuffer with
  | Some r => r
  | None => Throw (HeaderParsingFailed FmtChunkNotFound)
  end.

Definition expectedByteRate (h : headerInfo) : Q :=
  (inject_Z (sampleRate h) * inject_Z (numChannels h)
   * (inject_Z (bitsPerSample h) / 8))%Q.

(** [Math.abs(headerInfo.byteRate - expectedByteRate) > 1] *)
Definition byteRateMismatch (h : headerInfo) : bool :=
  Qltb 1 (Qabs (inject_Z (byteRate h) - expectedByteRate h)).

(** One of the three mismatch checks against [SARVAM_PREFERRED]: an error
    under [STRICT], a warning otherwise.  The pair is [(errors, warnings)]. *)
Definition push_mismatch (level : VALIDATION_LEVELS) (mismatch : bool)
    (asError asWarning : issue) (ew : list issue * list issue)
  : list issue * list issue :=
  if mismatch then
    if is_strict level then (ew.1 ++ [asError], ew.2)
    else (ew.1, ew.2 ++ [asWarning])
  else ew.

Definition _validateWAVFormat (level : VALIDATION_LEVELS) (h : headerInfo)
  : validationResult :=
  let ew : list issue * list issue := ([], []) in
  (* Audio format validation (must be PCM) *)
  let ew := if negb (audioFormat h =? 1)
            then (ew.1 ++ [UnsupportedAudioFormat (audioFormat h)], ew.2)
            else ew in
  (* Sample rate validation *)
  let preferredSampleRate := SARVAM_PREFERRED.sampleRate in
  let ew := push_mismatch level (negb (sampleRate h =? preferredSampleRate))
              (SampleRateNotOptimal (sampleRate h) preferredSampleRate)
              (SampleRateNotPreferred (sampleRate h) preferredSampleRate) ew in
  (* Channel validation *)
  let preferredChannels := SARVAM_PREFERRED.channels in
  let ew := push_mismatch level (negb (numChannels h =? preferredChannels))
              (ChannelCountNotOptimal (numChannels h) preferredChannels)
              (ChannelCountNotPreferred (numChannels h) preferredChannels) ew in
  (* Bit depth validation *)
  let preferredBitDepth := SARVAM_PREFERRED.bitDepth in
  let ew := push_mismatch level (negb (bitsPerSample h =? preferredBitDepth))
              (BitDepthNotOptimal (bitsPerSample h) preferredBitDepth)
              (BitDepthNotPreferred (bitsPerSample h) preferredBitDepth) ew in
  (* Duration validation *)
  let ew := if js_gt (duration h) (num LIMITS.MAX_DURATION)
            then (ew.1 ++ [AudioTooLong (duration h) LIMITS.MAX_DURATION], ew.2)
            else ew in
  (* Byte rate validation *)
  let ew := if byteRateMismatch h
            then (ew.1, ew.2 ++ [ByteRateMismatch (byteRate h) (expectedByteRate h)])
            else ew in
  let isValid := bool_decide (length ew.1 = 0%nat) in
  {| isValid := isValid;
     errors := ew.1;
     warnings := ew.2;
     requiresFix :=
       negb isValid || (is_strict level && bool_decide (0 < length ew.2)%nat) |}.

Section Processing.

(** [_fixWAVFormat] hands the buffer to ffmpeg through temporary files;
    what comes back (a converted buffer, or a rejection by ffmpeg or by
    the file system) is the environment's choice. *)
Variable _fixWAVFormat : list byte -> result error (list byte).

(** [Date.now() - startTime] at the end of the call. *)
Variable elapsed : Z.

Definition validateAndProcess (this : WAVValidator) (wavBuffer : list byte)
  : result error processResult :=
  rethrow ValidationFailed (
    (* Basic size validation *)
    check _validateFileSize wavBuffer ;;
    (* Parse WAV header and validate *)
    headerInfo <- _parseWAVHeader wavBuffer ;;
    let validationResult := _validateWAVFormat (validationLevel this) headerInfo in
    (* Auto-fix if needed and enabled *)
    fixed <-
      (if negb (isValid validationResult) && autoFix this then
         processedBuffer <- _fixWAVFormat wavBuffer ;;
         (* Re-validate processed buffer *)
         newHeaderInfo <- _parseWAVHeader processedBuffer ;;
         let newValidationResult :=
           _validateWAVFormat (validationLevel this) newHeaderInfo in
         if negb (isValid newValidationResult) then Throw NotCorrectable
         else Ok (processedBuffer, true)
       else if negb (isValid validationResult) then
         Throw (FormatInvalid (errors validationResult))
       else Ok (wavBuffer, false)) ;;
    let '(processedBuffer, wasProcessed) := fixed in
    Ok {| pr_isValid := true;
          processedBuffer := processedBuffer;
          pr_metadata :=
            {| header := headerInfo;
               wasProcessed := wasProcessed;
               processingTime := elapsed;
               originalSize := blen wavBuffer;
               finalSize := blen processedBuffer |} |}).

End Processing.

(** ** Vocabulary of the statements *)

(** [h] with another byte rate. *)
Definition with_byteRate (b : Z) (h : headerInfo) : headerInfo :=
  {| fileSize := fileSize h; audioFormat := audioFormat h;
     numChannels := numChannels h; sampleRate := sampleRate h;
     byteRate := b; blockAlign := blockAlign h;
     bitsPerSample := bitsPerSample h; fmtSize := fmtSize h;
     duration := duration h |}.

(** [static quickValidate(wavBuffer)]; nothing in the body throws, so
    its [catch] is not entered. *)
Definition quickValidate (wavBuffer : list byte) : bool :=
  if blen wavBuffer <? HEADER.MIN_HEADER_SIZE then false
  else
    let riffSignature := subarray wavBuffer 0 4 in
    let waveSignature := subarray wavBuffer 8 12 in
    bytes_eqb riffSignature HEADER.RIFF_SIGNATURE
    && bytes_eqb waveSignature HEADER.WAVE_SIGNATURE.

(** The six checks of [_validateWAVFormat], as tests on the header. *)
Definition notPCM (h : headerInfo) : bool := negb (audioFormat h =? 1).
Definition sampleRateDiffers (h : headerInfo) : bool :=
  negb (sampleRate h =? SARVAM_PREFERRED.sampleRate).
Definition channelsDiffer (h : headerInfo) : bool :=
  negb (numChannels h =? SARVAM_PREFERRED.channels).
Definition bitDepthDiffers (h : headerInfo) : bool :=
  negb (bitsPerSample h =? SARVAM_PREFERRED.bitDepth).
Definition tooLong (h : headerInfo) : bool :=
  js_gt (duration h) (num LIMITS.MAX_DURATION).

(** [h] with another duration. *)
Definition with_duration (d : number) (h : headerInfo) : headerInfo :=
  {| fileSize := fileSize h; audioFormat := audioFormat h;
     numChannels := numChannels h; sampleRate := sampleRate h;
     byteRate := byteRate h; blockAlign := blockAlign h;
     bitsPerSample := bitsPerSample h; fmtSize := fmtSize h;
     duration := d |}.

(** The findings of a check, counted. *)
Definition count (b : bool) : nat := if b then 1%nat else 0%nat.

(** The errors thrown by [_parseWAVHeader] after the two signature
    checks. *)
Definition late_error (e : error) : Prop :=
  e = FmtChunkNotFound \/ exists offset len, e = RangeError offset len.

(** [validateAndProcess] reaches its auto-fix branch: the size is within
    the limits, the header parses, the format is invalid and [autoFix]
    is set. *)
Definition needsCorrection (this : WAVValidator) (wavBuffer : list byte) : bool :=
  match _validateFileSize wavBuffer, _parseWAVHeader wavBuffer with
  | Ok _, Ok headerInfo =>
      negb (isValid (_validateWAVFormat (validationLevel this) headerInfo))
      && autoFix this
  | _, _ => false
  end.

End Wav.

(* ===================================================================== *)
(** * ws/sttHandler.js *)
(* ===================================================================== *)

(** ** CONFIG *)

Module CONFIG.

Module SARVAM_API.
Definition TIMEOUT : Z := 120000.
End SARVAM_API.

Module PROCESSING.
Definition MIN_FILE_SIZE : Z := 1000.
Definition MAX_FILE_SIZE : Z := 50 * 1024 * 1024.
Definition MIN_INTERVAL : Z := 1000.
Definition QUEUE_SIZE : Z := 1.
Definition MAX_ERRORS : Z := 5.
Definition COOLDOWN_TIME : Z := 30000.
End PROCESSING.

Definition MOCK_TRANSCRIPTS : list string :=
    [ "नमस्ते, आज का मीटिंग शुरू हो रहा है।";
      "आज हमें प्रोजेक्ट के बारे में बात करनी है।";
      "क्या सभी तैयार हैं?";
      "धन्यवाद, मीटिंग समाप्त।" ]%string.

End CONFIG.

(** ** String helpers of the runtime *)

(** Template interpolation of an integer. *)
Definition show (z : Z) : string := NilZero.string_of_int (Z.to_int z).

(** [hay.includes(needle)] *)
Definition includes (hay needle : string) : bool :=
  match String.index 0 needle hay with
  | Some _ => true
  | None => false
  end.

(** A string is held as the bytes of its UTF-8 encoding.  The white space
    that [trim] strips is the WhiteSpace and LineTerminator of
    ECMAScript.  Of one byte: TAB, LF, VT, FF, CR and the space. *)
Definition is_space (c : ascii) : bool :=
  let n := nat_of_ascii c in
  (n =? 32)%nat || ((9 <=? n)%nat && (n <=? 13)%nat).

(** Of two bytes: U+00A0 (C2 A0). *)
Definition is_space2 (c1 c2 : ascii) : bool :=
  (nat_of_ascii c1 =? 194)%nat && (nat_of_ascii c2 =? 160)%nat.

(** Of three bytes: U+1680 (E1 9A 80); U+2000 to U+200A, U+2028, U+2029
    and U+202F (E2 80 80 to 8A, A8, A9, AF); U+205F (E2 81 9F); U+3000
    (E3 80 80); U+FEFF (EF BB BF). *)
Definition is_space3 (c1 c2 c3 : ascii) : bool :=
  let n1 := nat_of_ascii c1 in
  let n2 := nat_of_ascii c2 in
  let n3 := nat_of_ascii c3 in
  ((n1 =? 225)%nat && (n2 =? 154)%nat && (n3 =? 128)%nat)
  || ((n1 =? 226)%nat && (n2 =? 128)%nat
      && (((128 <=? n3)%nat && (n3 <=? 138)%nat)
          || (n3 =? 168)%nat || (n3 =? 169)%nat || (n3 =? 175)%nat))
  || ((n1 =? 226)%nat && (n2 =? 129)%nat && (n3 =? 159)%nat)
  || ((n1 =? 227)%nat && (n2 =? 128)%nat && (n3 =? 128)%nat)
  || ((n1 =? 239)%nat && (n2 =? 187)%nat && (n3 =? 191)%nat).

(** The bytes [l] without the white space they start with.  With
    [backwards] the bytes are those of a string read from its end, so
    the bytes of a white space come last byte first. *)
Fixpoint skip_spaces (backwards : bool) (l : list ascii) : list ascii :=
  match l with
  | c1 :: l1 =>
      if is_space c1 then skip_spaces backwards l1
      else
        match l1 with
        | c2 :: l2 =>
            if (if backwards then is_space2 c2 c1 else is_space2 c1 c2)
            then skip_spaces backwards l2
            else
              match l2 with
              | c3 :: l3 =>
                  if (if backwards then is_space3 c3 c2 c1
                      else is_space3 c1 c2 c3)
                  then skip_spaces backwards l3
                  else l
              | [] => l
              end
        | [] => l
        end
  | [] => []
  end.

Definition trim_start (s : string) : string :=
  string_of_list_ascii (skip_spaces false (list_ascii_of_string s)).

Definition trim_end (s : string) : string :=
  string_of_list_ascii
    (rev (skip_spaces true (rev (list_ascii_of_string s)))).

(** [s.trim()] *)
Definition trim (s : string) : string := trim_end (trim_start s).

(** The bytes start with a white space. *)
Definition starts_with_space (backwards : bool) (l : list ascii) : bool :=
  match l with
  | c1 :: l1 =>
      is_space c1
      || match l1 with
         | c2 :: l2 =>
             (if backwards then is_space2 c2 c1 else is_space2 c1 c2)
             || match l2 with
                | c3 :: _ =>
                    if backwards then is_space3 c3 c2 c1
                    else is_space3 c1 c2 c3
                | [] => false
                end
         | [] => false
         end
  | [] => false
  end.

(** [a || b] on an optional string: [undefined] and the empty string are
    falsy. *)
Definition or_else (a : option string) (b : string) : string :=
  match a with
  | Some EmptyString | None => b
  | Some s => s
  end.

(** ** transcribeWAVFile *)

Module Stt.

Local Open Scope string_scope.

(** What [JSON.parse(responseData)] gives: a [SyntaxError], or a value of
    which the handler only looks at
    [result && typeof result.transcript === "string"]. *)
Inductive parsed : Type :=
| SyntaxError (message : string)
| Value (transcript : option string).

Record response : Type := {
  statusCode : Z;
  responseData : string;
  JSON_parse : parsed
}.

(** How the promise returned by [transcribeWAVFile] is settled. *)
Inductive settled : Type :=
| Resolve (transcript : string)
| Reject (message : string).

(** The [errorMessages] table of the [response.on "end"] handler. *)
Definition errorMessages : gmap Z string :=
  <[400 := "Invalid audio format or corrupted file"]> (
  <[401 := "Invalid API key - check SARVAM_API_KEY"]> (
  <[403 := "API access forbidden - check subscription status"]> (
  <[413 := "Audio file too large for API"]> (
  <[429 := "Rate limit exceeded - please try again in a moment"]> (
  <[500 := "SarvamAI server error - please try again later"]> (
  <[503 := "SarvamAI service temporarily unavailable"]> ∅)))))).

(** The [errorMessages] table of the [request.on "error"] handler. *)
Definition networkErrorMessages : gmap string string :=
  <["ECONNRESET" := "Connection reset - API server issue"]> (
  <["ENOTFOUND" := "Cannot reach SarvamAI API - check internet connection"]> (
  <["ETIMEDOUT" := "Connection timeout - check network connectivity"]> (
  <["ECONNREFUSED" := "Connection refused - API server may be down"]> (
  <["CERT_HAS_EXPIRED" := "SSL certificate error - API issue"]> ∅)))).

(** [response.on "end"] *)
Definition on_end (r : response) : settled :=
  if (statusCode r =? 200)%Z then
    match JSON_parse r with
    | SyntaxError message => Reject ("Response parsing failed: " +:+ message)
    | Value (Some transcript) => Resolve (trim transcript)
    | Value None => Resolve EmptyString   (* Empty transcript is acceptable *)
    end
  else
    (* Handle specific HTTP error codes *)
    let errorMessage :=
      or_else (errorMessages !! statusCode r)
        ("API error " +:+ show (statusCode r) +:+ ": "
           +:+ String.substring 0 200 (responseData r)) in
    Reject errorMessage.

(** The first event that settles the promise once the request is under
    way; later events find it settled and change nothing. *)
Inductive exchange : Type :=
| End_ (r : response)                    (* response "end" *)
| ResponseTooLarge                       (* more than 10 MiB of "data" *)
| ResponseTimeout                        (* response "timeout" *)
| RequestError (code : option string) (message : string) (* request "error" *)
| SocketTimeout                          (* request "timeout" *)
| FormError (message : string)           (* form "error" *)
| RequestTimeout                         (* the CONFIG.SARVAM_API.TIMEOUT timer *)
| PreparationFailed (message : string).  (* the catch around the set-up *)

Definition settle (x : exchange) : settled :=
  match x with
  | End_ r => on_end r
  | ResponseTooLarge => Reject "Response too large - possible API error"
  | ResponseTimeout => Reject "Response timeout"
  | RequestError code message =>
      Reject (or_else (code ≫= (fun c => networkErrorMessages !! c))
                ("Network error: " +:+ message))
  | SocketTimeout => Reject "Socket timeout"
  | FormError message => Reject ("Form data error: " +:+ message)
  | RequestTimeout =>
      Reject "API request timeout - server taking too long to respond"
  | PreparationFailed message => Reject ("Request preparation failed: " +:+ message)
  end.

(** The input validation at the head of the promise body: [Some message]
    when the promise is rejected before any request is made. *)
Definition precheck (audioBuffer : list byte) : option string :=
  if (Wav.blen audioBuffer <? CONFIG.PROCESSING.MIN_FILE_SIZE)%Z
  then Some "Audio buffer too small or empty"
  else if (CONFIG.PROCESSING.MAX_FILE_SIZE <? Wav.blen audioBuffer)%Z
  then Some "Audio file too large (max 50MB)"
  else None.

(** [transcribeWAVFile audioBuffer], with [x] what the network does. *)
Definition transcribeWAVFile (audioBuffer : list byte) (x : exchange) : settled :=
  match precheck audioBuffer with
  | Some message => Reject message
  | None => settle x
  end.

End Stt.

(** ** The connection handler *)

(** What [client.send(JSON.stringify(..))] is called with. *)
Inductive outbound : Type :=
| MockTranscript (transcript : option string)
    (* { transcript }, mock mode *)
| Transcript (transcript : string) (timestamp processingTime : Z)
    (* { transcript, timestamp, processingTime } *)
| NoSpeech
    (* { transcript: (empty string), message: "No speech detected in audio" } *)
| ErrorOnly (error : string)
    (* { error } *)
| ErrorDetail (error technical : string).
    (* { error, technical } *)

Module Session.

Local Open Scope string_scope.

Definition message : Type := list byte.

(** The callbacks the handler passes to [setTimeout]. *)
Inductive callback : Type :=
| ResetErrors                          (* consecutiveErrors = 0 *)
| ProcessingTimeout                    (* isProcessing = false *)
| EmitQueued (queuedMessage : message).  (* client.emit("message", queuedMessage) *)

(** An invocation of the async message handler suspended at one of its
    two [await]s, with the locals it still needs. *)
Inductive continuation : Type :=
| AwaitValidation (currentTime : Z)
| AwaitTranscript (currentTime : Z) (processingTimeout : nat).

(** The [let] variables of one connection. *)
Record Vars : Type := {
  isProcessing : bool;
  processingQueue : list message;
  lastProcessTime : Z;
  consecutiveErrors : Z
}.

(** A connection: its variables, its socket, and what the event loop
    holds for it. *)
Record State : Type := {
  vars : Vars;
  isOpen : bool;                     (* client.readyState === WebSocket.OPEN *)
  sent : list outbound;              (* the client.send calls, oldest first *)
  timers : gmap nat (Z * callback);  (* pending timeouts: handle, due time, callback *)
  nextTimer : nat;
  awaiting : gmap nat continuation;  (* suspended handler invocations *)
  nextTask : nat
}.

Definition init : State :=
  {| vars := {| isProcessing := false; processingQueue := [];
                lastProcessTime := 0; consecutiveErrors := 0 |};
     isOpen := true; sent := []; timers := ∅; nextTimer := 0;
     awaiting := ∅; nextTask := 0 |}.

(** *** Assignments and runtime calls *)

Definition with_vars (f : Vars -> Vars) (st : State) : State :=
  {| vars := f (vars st); isOpen := isOpen st; sent := sent st;
     timers := timers st; nextTimer := nextTimer st;
     awaiting := awaiting st; nextTask := nextTask st |}.

Definition set_isProcessing (b : bool) : State -> State :=
  with_vars (fun v =>
    {| isProcessing := b; processingQueue := processingQueue v;
       lastProcessTime := lastProcessTime v;
       consecutiveErrors := consecutiveErrors v |}).

Definition set_processingQueue (q : list message) : State -> State :=
  with_vars (fun v =>
    {| isProcessing := isProcessing v; processingQueue := q;
       lastProcessTime := lastProcessTime v;
       consecutiveErrors := consecutiveErrors v |}).

Definition set_lastProcessTime (t : Z) : State -> State :=
  with_vars (fun v =>
    {| isProcessing := isProcessing v; processingQueue := processingQueue v;
       lastProcessTime := t; consecutiveErrors := consecutiveErrors v |}).

Definition set_consecutiveErrors (n : Z) : State -> State :=
  with_vars (fun v =>
    {| isProcessing := isProcessing v; processingQueue := processingQueue v;
       lastProcessTime := lastProcessTime v; consecutiveErrors := n |}).

Definition send (o : outbound) (st : State) : State :=
  {| vars := vars st; isOpen := isOpen st; sent := sent st ++ [o];
     timers := timers st; nextTimer := nextTimer st;
     awaiting := awaiting st; nextTask := nextTask st |}.

(** [setTimeout(cb, delay)] called at time [now]; the handle is
    [nextTimer st]. *)
Definition setTimeout (cb : callback) (delay now : Z) (st : State) : State :=
  {| vars := vars st; isOpen := isOpen st; sent := sent st;
     timers := <[nextTimer st := (now + delay, cb)]> (timers st);
     nextTimer := S (nextTimer st);
     awaiting := awaiting st; nextTask := nextTask st |}.

Definition clearTimeout (handle : nat) (st : State) : State :=
  {| vars := vars st; isOpen := isOpen st; sent := sent st;
     timers := delete handle (timers st); nextTimer := nextTimer st;
     awaiting := awaiting st; nextTask := nextTask st |}.

(** The handler reaches an [await] and returns to the event loop. *)
Definition suspend (k : continuation) (st : State) : State :=
  {| vars := vars st; isOpen := isOpen st; sent := sent st;
     timers := timers st; nextTimer := nextTimer st;
     awaiting := <[nextTask st := k]> (awaiting st);
     nextTask := S (nextTask st) |}.

Definition resume (task : nat) (st : State) : State :=
  {| vars := vars st; isOpen := isOpen st; sent := sent st;
     timers := timers st; nextTimer := nextTimer st;
     awaiting := delete task (awaiting st); nextTask := nextTask st |}.

Definition set_closed (st : State) : State :=
  {| vars := vars st; isOpen := false; sent := sent st;
     timers := timers st; nextTimer := nextTimer st;
     awaiting := awaiting st; nextTask := nextTask st |}.

(** *** client.on("message")

    The handler is an async function: it runs from an event to its next
    [await] without interruption.  [on_message] is the part up to the
    first [await], [on_validated] and [on_transcribed] are the two
    resumptions.  The outer [catch] of the handler is entered only when a
    call of the runtime made by the handler itself ([client.send],
    [JSON.stringify]) throws; these are total here, so it has no
    counterpart.  The keep-alive ping touches no variable and is left
    out. *)

(** From the top of the handler to the first [await] (or to an early
    [return]); [now] is [Date.now()]. *)
Definition on_message (now : Z) (message : message) (st : State) : State :=
  let currentTime := now in
  (* Basic validation *)
  if (Wav.blen message =? 0)%Z then st
  (* Rate limiting *)
  else if (currentTime - lastProcessTime (vars st)
             <? CONFIG.PROCESSING.MIN_INTERVAL)%Z then st
  (* Memory protection *)
  else if (CONFIG.PROCESSING.MAX_FILE_SIZE <? Wav.blen message)%Z then
    send (ErrorOnly "Audio file too large (max 50MB)") st
  (* Skip if too small *)
  else if (Wav.blen message <? CONFIG.PROCESSING.MIN_FILE_SIZE)%Z then st
  (* Queue management *)
  else if isProcessing (vars st) then
    set_processingQueue [message] st   (* Keep only latest *)
  (* Consecutive error protection *)
  else if (CONFIG.PROCESSING.MAX_ERRORS <=? consecutiveErrors (vars st))%Z then
    let st := send (ErrorOnly "Service temporarily unavailable due to errors") st in
    (* Reset after cooldown *)
    setTimeout ResetErrors CONFIG.PROCESSING.COOLDOWN_TIME now st
  else
    (* Start processing *)
    let st := set_isProcessing true st in
    let st := set_lastProcessTime currentTime st in
    (* .. parse message, then: await wavValidator.validateAndProcess(..) *)
    suspend (AwaitValidation currentTime) st.

(** The user-facing text chosen in the [catch] block. *)
Definition userMessage (message : string) : string :=
  if includes message "timeout" then
    "Processing took too long, please try again"
  else if includes message "network" || includes message "connection" then
    "Network error, please check your connection"
  else if includes message "API key" then
    "Service authentication error"
  else if includes message "rate limit" then
    "Service busy, please try again in a moment"
  else if includes message "audio format" || includes message "corrupted" then
    "Audio format not supported, please try again"
  else if includes message "too large" then
    "Audio file too large"
  else "Transcription failed".

(** The inner [catch (error)] block; [message] is [error.message]. *)
Definition on_catch (message : string) (st : State) : State :=
  let st := set_consecutiveErrors (consecutiveErrors (vars st) + 1) st in
  send (ErrorDetail (userMessage message) (String.substring 0 200 message)) st.

(** After the inner [try]/[catch]: leave processing and hand a queued
    message to a 500 ms timeout. *)
Definition finish (now : Z) (st : State) : State :=
  let st := set_isProcessing false st in
  (* Process queued messages *)
  match last (processingQueue (vars st)) with
  | Some queuedMessage =>
      let st := set_processingQueue [] st in
      setTimeout (EmitQueued queuedMessage) 500 now st
  | None => st
  end.

Definition truthy (s : string) : bool :=
  match s with EmptyString => false | _ => true end.

(** The handler after [transcribeWAVFile] has resolved. *)
Definition on_transcript (now currentTime : Z) (processingTimeout : nat)
    (transcript : string) (st : State) : State :=
  let st := clearTimeout processingTimeout st in
  if truthy transcript && truthy (trim transcript) then
    let st := send (Transcript (trim transcript) now (now - currentTime)) st in
    set_consecutiveErrors 0 st   (* Reset error count on success *)
  else
    send NoSpeech st.

(** Resumption of a handler suspended at
    [await wavValidator.validateAndProcess(..)]: the validator returned
    [Ok validationResult] or threw an error with the given message. *)
Definition on_validated (now : Z) (task : nat)
    (r : result string Wav.processResult) (st : State) : option State :=
  match awaiting st !! task with
  | Some (AwaitValidation currentTime) =>
      let st := resume task st in
      match r with
      | Throw message => Some (finish now (on_catch message st))
      | Ok validationResult =>
          (* Process the audio *)
          let processingTimeout := nextTimer st in
          let st := setTimeout ProcessingTimeout 180000 now st in
          match Stt.precheck (Wav.processedBuffer validationResult) with
          | Some message => Some (finish now (on_catch message st))
          | None => Some (suspend (AwaitTranscript currentTime processingTimeout) st)
          end
      end
  | _ => None
  end.

(** Resumption of a handler suspended at [await transcribeWAVFile(..)]. *)
Definition on_transcribed (now : Z) (task : nat) (x : Stt.exchange)
    (st : State) : option State :=
  match awaiting st !! task with
  | Some (AwaitTranscript currentTime processingTimeout) =>
      let st := resume task st in
      match Stt.settle x with
      | Stt.Resolve transcript =>
          Some (finish now (on_transcript now currentTime processingTimeout transcript st))
      | Stt.Reject message => Some (finish now (on_catch message st))
      end
  | _ => None
  end.

(** A pending timeout runs, at a time [now] not before it is due. *)
Definition on_timer (now : Z) (handle : nat) (st : State) : option State :=
  match timers st !! handle with
  | Some (due, cb) =>
      if (due <=? now)%Z then
        let st := clearTimeout handle st in
        Some match cb with
             | ResetErrors => set_consecutiveErrors 0 st
             | ProcessingTimeout => set_isProcessing false st
             | EmitQueued queuedMessage =>
                 if isOpen st then on_message now queuedMessage st else st
             end
      else None
  | None => None
  end.

(** client.on("close") *)
Definition on_close (st : State) : State :=
  set_closed (set_processingQueue [] (set_isProcessing false st)).

(** client.on("error") *)
Definition on_error (st : State) : State :=
  set_processingQueue [] (set_isProcessing false st).

(** *** The connection as a transition system *)

Inductive event : Type :=
| Message (now : Z) (m : message)
| Validated (now : Z) (task : nat) (r : result string Wav.processResult)
| Transcribed (now : Z) (task : nat) (x : Stt.exchange)
| Timer (now : Z) (handle : nat)
| Close
| SocketError.

(** [None]: the event cannot occur in this state. *)
Definition step (st : State) (e : event) : option State :=
  match e with
  | Message now m => if isOpen st then Some (on_message now m st) else None
  | Validated now task r => on_validated now task r st
  | Transcribed now task x => on_transcribed now task x st
  | Timer now handle => on_timer now handle st
  | Close => if isOpen st then Some (on_close st) else None
  | SocketError => Some (on_error st)
  end.

Fixpoint run (st : State) (es : list event) : option State :=
  match es with
  | [] => Some st
  | e :: es' =>
      match step st e with
      | Some st' => run st' es'
      | None => None
      end
  end.

Inductive reachable : State -> Prop :=
| reachable_init : reachable init
| reachable_step st e st' :
    reachable st -> step st e = Some st' -> reachable st'.

(** *** Vocabulary of the statements *)

(** The message gets past the empty, rate and size checks. *)
Definition admitted (now : Z) (m : message) (st : State) : Prop :=
  Wav.blen m <> 0 /\
  CONFIG.PROCESSING.MIN_INTERVAL <= now - lastProcessTime (vars st) /\
  CONFIG.PROCESSING.MIN_FILE_SIZE <= Wav.blen m <= CONFIG.PROCESSING.MAX_FILE_SIZE.

(** [admitted], as a test. *)
Definition passes_guards (now : Z) (m : message) (st : State) : bool :=
  negb (Wav.blen m =? 0)%Z
  && (CONFIG.PROCESSING.MIN_INTERVAL <=? now - lastProcessTime (vars st))%Z
  && (CONFIG.PROCESSING.MIN_FILE_SIZE <=? Wav.blen m)%Z
  && (Wav.blen m <=? CONFIG.PROCESSING.MAX_FILE_SIZE)%Z.

(** The handler reaches "Start processing": it sets [isProcessing] and
    [lastProcessTime] and is suspended at the call of the validator. *)
Definition begins_processing (now : Z) (m : message) (st : State) : Prop :=
  on_message now m st
  = suspend (AwaitValidation now)
      (set_lastProcessTime now (set_isProcessing true st)).

(** The handler run on a series of messages, each with its arrival time. *)
Fixpoint deliver (ms : list (Z * message)) (st : State) : State :=
  match ms with
  | [] => st
  | (now, m) :: ms' => deliver ms' (on_message now m st)
  end.

(** The last message of the series that passes the guards of [st]. *)
Definition last_admitted (ms : list (Z * message)) (st : State) : option message :=
  snd <$> last (filter (fun p => passes_guards p.1 p.2 st = true) ms).

(** When a resumed handler leaves processing with [m] queued, the queue
    is emptied and [m] is in a timeout due 500 ms later. *)
Definition hands_over (now : Z) (m : message) (st' : State) : Prop :=
  isProcessing (vars st') = false /\
  processingQueue (vars st') = [] /\
  exists handle, timers st' !! handle = Some (now + 500, EmitQueued m).

(** Events other than a message from the client; a timeout among them
    runs at the earliest at [since]. *)
Definition no_message_since (since : Z) (e : event) : Prop :=
  match e with
  | Message _ _ => False
  | Timer now _ => since <= now
  | _ => True
  end.

(** The queue holds at most one message. *)
Definition queue_bounded (st : State) : Prop :=
  (length (processingQueue (vars st)) <= 1)%nat.

(** Every handle a suspended handler holds was handed out before. *)
Definition handles_known (st : State) : Prop :=
  forall task currentTime processingTimeout,
    awaiting st !! task = Some (AwaitTranscript currentTime processingTimeout) ->
    (processingTimeout < nextTimer st)%nat.

(** The validations awaited in [st'] were already awaited in [st]. *)
Definition no_new_validation (st st' : State) : Prop :=
  forall task currentTime,
    awaiting st' !! task = Some (AwaitValidation currentTime) ->
    awaiting st !! task = Some (AwaitValidation currentTime).

(** The event sets [isProcessing] to false without a handler having
    finished: the 3-minute timeout runs, or the socket signals an
    error. *)
Definition releases (st : State) (e : event) : bool :=
  match e with
  | Timer _ handle =>
      match timers st !! handle with
      | Some (_, ProcessingTimeout) => true
      | _ => false
      end
  | SocketError => true
  | _ => false
  end.

(** A run in which no event [releases]. *)
Fixpoint run_unreleased (st : State) (es : list event) : option State :=
  match es with
  | [] => Some st
  | e :: es' =>
      if releases st e then None
      else match step st e with
           | Some st' => run_unreleased st' es'
           | None => None
           end
  end.

(** At most one handler is suspended, and while the socket is open
    [isProcessing] is set as long as one is. *)
Definition serialized (st : State) : Prop :=
  (forall task1 task2 k1 k2,
     awaiting st !! task1 = Some k1 -> awaiting st !! task2 = Some k2 ->
     task1 = task2) /\
  (forall task k,
     awaiting st !! task = Some k -> isOpen st = true ->
     isProcessing (vars st) = true).

End Session.

(** ** Mock mode (no SARVAM_API_KEY) *)

Module Mock.

(** All timeouts of the mock handler have the same delay and the same
    callback, so the pending ones form a queue, oldest first, of due
    times.  [sent] records each [client.send] with the time of the call. *)
Record State : Type := {
  mockIndex : nat;
  isOpen : bool;
  timers : list Z;
  sent : list (Z * outbound)
}.

Definition init : State :=
  {| mockIndex := 0; isOpen := true; timers := []; sent := [] |}.

(** client.on("message"): no check of any kind, only the timeout. *)
Definition on_message (now : Z) (message : list byte) (st : State) : State :=
  {| mockIndex := mockIndex st; isOpen := isOpen st;
     timers := timers st ++ [now + 1500]; sent := sent st |}.

(** The callback of the oldest pending timeout, run at time [now]. *)
Definition on_timer (now : Z) (st : State) : State :=
  if isOpen st then
    let transcript :=
      CONFIG.MOCK_TRANSCRIPTS
        !! (mockIndex st mod length CONFIG.MOCK_TRANSCRIPTS)%nat in
    {| mockIndex := S (mockIndex st); isOpen := isOpen st;
       timers := tail (timers st);
       sent := sent st ++ [(now, MockTranscript transcript)] |}
  else
    {| mockIndex := mockIndex st; isOpen := isOpen st;
       timers := tail (timers st); sent := sent st |}.

(** client.on("close") only logs; the socket is no longer open. *)
Definition on_close (st : State) : State :=
  {| mockIndex := mockIndex st; isOpen := false;
     timers := timers st; sent := sent st |}.

Inductive event : Type :=
| Message (now : Z) (m : list byte)
| Timer (now : Z)
| Close.

(** [None]: the event cannot occur in this state.  A timeout runs only
    when it is the oldest pending one and is due. *)
Definition step (st : State) (e : event) : option State :=
  match e with
  | Message now m => if isOpen st then Some (on_message now m st) else None
  | Timer now =>
      match timers st with
      | due :: _ => if (due <=? now)%Z then Some (on_timer now st) else None
      | [] => None
      end
  | Close => if isOpen st then Some (on_close st) else None
  end.

Fixpoint run (st : State) (es : list event) : option State :=
  match es with
  | [] => Some st
  | e :: es' =>
      match step st e with
      | Some st' => run st' es'
      | None => None
      end
  end.

(** The arrival times of the messages of a trace, in order. *)
Fixpoint arrivals (es : list event) : list Z :=
  match es with
  | [] => []
  | Message now _ :: es' => now :: arrivals es'
  | _ :: es' => arrivals es'
  end.

Definition is_close (e : event) : bool :=
  match e with Close => true | _ => false end.

(** Phrase [i] of the canned list, as the reply carries it. *)
Definition phrase (i : nat) : outbound :=
  MockTranscript (CONFIG.MOCK_TRANSCRIPTS !! i).

(** *** Vocabulary of the statements *)

(** When the timeout of a message that arrived at [t] is due. *)
Definition delay (t : Z) : Z := t + 1500.

(** What holds of a connection that has received the messages that
    arrived at [arr] and was never closed: the first [mockIndex] of them
    are answered, in order, each with its phrase and not before 1500 ms
    after its arrival; the others have their timeout pending. *)
Record answered (arr : list Z) (st : State) : Prop := {
  a_open : isOpen st = true;
  a_index : (mockIndex st <= length arr)%nat;
  a_timers : timers st = delay <$> drop (mockIndex st) arr;
  a_length : length (sent st) = mockIndex st;
  a_sent : forall n, (n < mockIndex st)%nat ->
           exists t at_, arr !! n = Some t /\
                         sent st !! n = Some (at_, phrase (n mod 4)) /\
                         t + 1500 <= at_
}.

End Mock.

(** ** wss.on("connection"): mock mode or not *)

Module Connection.

(** [!API_KEY || API_KEY === "YOUR_API_KEY_HERE" || API_KEY.trim() === ""],
    with [API_KEY] the value of [process.env.SARVAM_API_KEY], [None] when
    the variable is not set. *)
Definition mockMode (API_KEY : option string) : bool :=
  match API_KEY with
  | None => true
  | Some key =>
      negb (Session.truthy key)
      || String.eqb key "YOUR_API_KEY_HERE"
      || String.eqb (trim key) EmptyString
  end.

(** A new connection: with the handlers of mock mode, or with those of a
    session (the first [return] of the connection handler). *)
Inductive State : Type :=
| Mocked (st : Mock.State)
| Served (st : Session.State).

Definition on_connection (API_KEY : option string) : State :=
  if mockMode API_KEY then Mocked Mock.init else Served Session.init.

(** *** Vocabulary of the statements *)

(** No credential is configured: the variable is not set, is blank, or
    holds the placeholder. *)
Definition no_credential (API_KEY : option string) : Prop :=
  API_KEY = None \/
  exists key, API_KEY = Some key /\
              (trim key = EmptyString \/ key = "YOUR_API_KEY_HERE"%string).

End Connection.

(* ===================================================================== *)
(** * pages/Home.js: the client's WAV encoder and recorder *)
(* ===================================================================== *)

(** ** Float32 samples and typed-array stores *)

(** [Math.min(a, b)]: [NaN] if either argument is [NaN]. *)
Definition Math_min (a b : number) : number :=
  match a, b with
  | NaN, _ | _, NaN => NaN
  | NegInf, _ | _, NegInf => NegInf
  | PosInf, y => y
  | x, PosInf => x
  | Num x, Num y => if Qle_bool x y then Num x else Num y
  end.

(** [a < b] *)
Definition js_lt (a b : number) : bool := js_gt b a.

(** [a * k] for a positive integer constant [k]. *)
Definition js_scale (a : number) (k : Z) : number :=
  match a with
  | Num q => Num (q * inject_Z k)
  | other => other
  end.

(** Truncation toward zero. *)
Definition Qtrunc (q : Q) : Z := Z.quot (Qnum q) (Zpos (Qden q)).

(** What a store into an [Int16Array] keeps of a number: [NaN] and the
    infinities become 0, a finite value is truncated and reduced modulo
    2^16 into the signed range. *)
Definition ToInt16 (x : number) : Z :=
  match x with
  | Num q => (Qtrunc q + 32768) mod 65536 - 32768
  | _ => 0
  end.

Module Encoder.

Local Open Scope result_scope.

Module AUDIO_CONFIG.
Definition SAMPLE_RATE : Z := 16000.
Definition CHANNELS : Z := 1.
Definition BIT_DEPTH : Z := 16.
Definition BUFFER_SIZE : Z := 4096.
Definition WAV_HEADER_SIZE : Z := 44.
End AUDIO_CONFIG.

Inductive error : Type :=
| InvalidSampleRate (sampleRate : Z)
    (* "Invalid sample rate: ..  Must be between 1 and 192000 Hz" *)
| InvalidChannelCount (numChannels : Z)
    (* "Invalid channel count: ..  Must be 1 (mono) or 2 (stereo)" *)
| InvalidBitDepth (bitDepth : Z)
    (* "Invalid bit depth: ..  Must be 8, 16, 24, or 32" *)
| NoAudioBuffers
    (* "No audio buffers provided for encoding" *)
| NoAudioData
    (* "Audio buffers contain no data" *)
| OffsetOutOfBounds
    (* the RangeError of a [DataView] setter *)
| EncodingFailed (cause : error)
    (* "WAV encoding failed: .." *)
| NotRecording
    (* "Not currently recording" *)
| NoAudioRecorded
    (* "No audio data recorded" *)
| GenerationFailed (cause : error).
    (* "WAV generation failed: .." *)

(** ** DataView *)

(** The low byte of an integer. *)
Definition byte_of (value : Z) : byte :=
  default x00 (Byte.of_N (Z.to_N (value mod 256))).

(** A setter of [DataView] writing [bytes] at [byteOffset]: it throws a
    [RangeError] when the bytes do not fit inside the view. *)
Definition set_bytes (view : list byte) (byteOffset : Z) (bytes : list byte)
  : result error (list byte) :=
  if (0 <=? byteOffset) && (byteOffset + Wav.blen bytes <=? Wav.blen view)
  then Ok (take (Z.to_nat byteOffset) view ++ bytes
           ++ drop (Z.to_nat byteOffset + length bytes) view)
  else Throw OffsetOutOfBounds.

Definition setUint8 (view : list byte) (byteOffset value : Z) :=
  set_bytes view byteOffset [byte_of value].

(** [view.setUint16(byteOffset, value, true)]: little-endian. *)
Definition setUint16 (view : list byte) (byteOffset value : Z) :=
  set_bytes view byteOffset [byte_of value; byte_of (value / 256)].

(** [view.setInt16(byteOffset, value, true)]: two's complement, so the
    same bytes as [setUint16]. *)
Definition setInt16 (view : list byte) (byteOffset value : Z) :=
  set_bytes view byteOffset [byte_of value; byte_of (value / 256)].

(** [view.setUint32(byteOffset, value, true)] *)
Definition setUint32 (view : list byte) (byteOffset value : Z) :=
  set_bytes view byteOffset
    [byte_of value; byte_of (value / 256); byte_of (value / 65536);
     byte_of (value / 16777216)].

(** ** class WAVEncoder *)

Record Options : Type := {
  o_sampleRate : option Z;
  o_numChannels : option Z;
  o_bitDepth : option Z
}.

Record WAVEncoder : Type := {
  sampleRate : Z;
  numChannels : Z;
  bitDepth : Z;
  bytesPerSample : Z;
  blockAlign : Z;
  byteRate : Z
}.

(** [option || fallback]: an absent option and 0 are falsy. *)
Definition or_default (option : option Z) (fallback : Z) : Z :=
  match option with
  | Some value => if value =? 0 then fallback else value
  | None => fallback
  end.

Definition _validateConfiguration (this : WAVEncoder) : result error unit :=
  if (sampleRate this <=? 0) || (192000 <? sampleRate this)
  then Throw (InvalidSampleRate (sampleRate this))
  else if (numChannels this <? 1) || (2 <? numChannels this)
  then Throw (InvalidChannelCount (numChannels this))
  else if negb (bool_decide (bitDepth this ∈ [8; 16; 24; 32]))
  then Throw (InvalidBitDepth (bitDepth this))
  else Ok tt.

(** The constructor.  [this.bitDepth / 8] is exact for the four depths
    that [_validateConfiguration] lets through; for any other depth the
    constructor throws and no encoder exists. *)
Definition new (options : Options) : result error WAVEncoder :=
  (* Audio format configuration *)
  let sampleRate := or_default (o_sampleRate options) AUDIO_CONFIG.SAMPLE_RATE in
  let numChannels := or_default (o_numChannels options) AUDIO_CONFIG.CHANNELS in
  let bitDepth := or_default (o_bitDepth options) AUDIO_CONFIG.BIT_DEPTH in
  (* Calculated properties for WAV format *)
  let bytesPerSample := bitDepth / 8 in
  let blockAlign := numChannels * bytesPerSample in
  let byteRate := sampleRate * blockAlign in
  let this :=
    {| sampleRate := sampleRate; numChannels := numChannels;
       bitDepth := bitDepth; bytesPerSample := bytesPerSample;
       blockAlign := blockAlign; byteRate := byteRate |} in
  (* Validation *)
  check _validateConfiguration this ;;
  Ok this.

(** [for (let i = 0; i < string.length; i++)
       view.setUint8(offset + i, string.charCodeAt(i))] *)
Fixpoint _writeString (view : list byte) (offset : Z) (string : string)
  : result error (list byte) :=
  match string with
  | EmptyString => Ok view
  | String c rest =>
      view <- setUint8 view offset (Z.of_N (N_of_ascii c)) ;;
      _writeString view (offset + 1) rest
  end.

Definition _writeWAVHeader (this : WAVEncoder) (view : list byte)
    (fileSize dataSize : Z) : result error (list byte) :=
  let offset := 0 in
  (* RIFF chunk descriptor *)
  view <- _writeString view offset "RIFF" ;;
  let offset := offset + 4 in
  view <- setUint32 view offset fileSize ;;
  let offset := offset + 4 in
  view <- _writeString view offset "WAVE" ;;
  let offset := offset + 4 in
  (* fmt sub-chunk *)
  view <- _writeString view offset "fmt " ;;
  let offset := offset + 4 in
  view <- setUint32 view offset 16 ;;
  let offset := offset + 4 in
  view <- setUint16 view offset 1 ;;
  let offset := offset + 2 in
  view <- setUint16 view offset (numChannels this) ;;
  let offset := offset + 2 in
  view <- setUint32 view offset (sampleRate this) ;;
  let offset := offset + 4 in
  view <- setUint32 view offset (byteRate this) ;;
  let offset := offset + 4 in
  view <- setUint16 view offset (blockAlign this) ;;
  let offset := offset + 2 in
  view <- setUint16 view offset (bitDepth this) ;;
  let offset := offset + 2 in
  (* data sub-chunk *)
  view <- _writeString view offset "data" ;;
  let offset := offset + 4 in
  setUint32 view offset dataSize.

(** The loop of [_writeAudioData]: one [setInt16] per sample, [offset]
    advancing by 2 whatever the bit depth. *)
Fixpoint write_samples (view : list byte) (offset : Z) (int16Data : list Z)
  : result error (list byte) :=
  match int16Data with
  | [] => Ok view
  | sample :: rest =>
      view <- setInt16 view offset sample ;;
      write_samples view (offset + 2) rest
  end.

Definition _writeAudioData (view : list byte) (int16Data : list Z)
  : result error (list byte) :=
  write_samples view AUDIO_CONFIG.WAV_HEADER_SIZE int16Data.

(** One sample: clamp to [-1, 1], scale, store into the [Int16Array]. *)
Definition convert_sample (x : number) : Z :=
  let sample := Math_max (num (-1)) (Math_min (num 1) x) in
  ToInt16 (if js_lt sample (num 0) then js_scale sample 32768
           else js_scale sample 32767).

(** The inner loop of [_convertFloat32ToInt16] from index [i] on.  A
    store past the end of a typed array is ignored, as is an insertion
    past the end of a list. *)
Fixpoint convert_buffer (buffer : list number) (i offset : nat)
    (int16Data : list Z) : list Z :=
  match buffer with
  | [] => int16Data
  | x :: rest =>
      convert_buffer rest (S i) offset
        (<[(offset + i)%nat := convert_sample x]> int16Data)
  end.

Definition _convertFloat32ToInt16 (audioBuffers : list (list number))
    (totalLength : Z) : list Z :=
  let int16Data := replicate (Z.to_nat totalLength) 0 in
  (foldl (fun '(int16Data, offset) buffer =>
            (convert_buffer buffer 0 offset int16Data,
             (offset + length buffer)%nat))
         (int16Data, 0%nat) audioBuffers).1.

(** [audioBuffers.reduce((sum, buffer) => sum + buffer.length, 0)] *)
Definition totalSamples (audioBuffers : list (list number)) : Z :=
  foldl (fun sum buffer => sum + Z.of_nat (length buffer)) 0 audioBuffers.

(** [encodeWAV]; the result is the content of the [Blob].  The buffers
    are [Float32Array]s by their type. *)
Definition encodeWAV (this : WAVEncoder) (audioBuffers : list (list number))
  : result error (list byte) :=
  (* Input validation *)
  if (length audioBuffers =? 0)%nat then Throw NoAudioBuffers else
  (* Calculate total length of audio data *)
  let totalSamples := totalSamples audioBuffers in
  if totalSamples =? 0 then Throw NoAudioData else
  rethrow EncodingFailed (
    (* Convert Float32 PCM data to Int16 *)
    let int16Data := _convertFloat32ToInt16 audioBuffers totalSamples in
    (* Calculate file sizes *)
    let dataSize := Z.of_nat (length int16Data) * bytesPerSample this in
    let fileSize := AUDIO_CONFIG.WAV_HEADER_SIZE - 8 + dataSize in
    (* Create WAV file buffer *)
    let view :=
      replicate (Z.to_nat (AUDIO_CONFIG.WAV_HEADER_SIZE + dataSize)) x00 in
    (* Write WAV header and audio data *)
    view <- _writeWAVHeader this view fileSize dataSize ;;
    view <- _writeAudioData view int16Data ;;
    Ok view).

(** [static createWAV(audioBuffers, sampleRate = AUDIO_CONFIG.SAMPLE_RATE)] *)
Definition createWAV (audioBuffers : list (list number)) (sampleRate : option Z)
  : result error (list byte) :=
  let sampleRate := default AUDIO_CONFIG.SAMPLE_RATE sampleRate in
  encoder <- new {| o_sampleRate := Some sampleRate;
                    o_numChannels := None; o_bitDepth := None |} ;;
  encodeWAV encoder audioBuffers.

(** ** class WebAudioRecorder: what [stop] and [getDuration] use of it *)

Record WebAudioRecorder : Type := {
  r_sampleRate : Z;
  audioBuffers : list (list number);
  isRecording : bool
}.

Definition getDuration (this : WebAudioRecorder) : number :=
  js_div (inject_Z (totalSamples (audioBuffers this)))
    (inject_Z (r_sampleRate this)).

(** [stop()]: the WAV file or the error thrown, and the recorder after
    the call. *)
Definition stop (this : WebAudioRecorder)
  : result error (list byte) * WebAudioRecorder :=
  if negb (isRecording this) then (Throw NotRecording, this) else
  let this := {| r_sampleRate := r_sampleRate this;
                 audioBuffers := audioBuffers this;
                 isRecording := false |} in
  if (length (audioBuffers this) =? 0)%nat then (Throw NoAudioRecorded, this)
  else
    (* Create WAV file from recorded audio buffers *)
    (rethrow GenerationFailed
       (createWAV (audioBuffers this) (Some (r_sampleRate this))),
     this).

(** ** Vocabulary of the statements *)

(** The 44 bytes [_writeWAVHeader] leaves at the head of the view. *)
Definition header_bytes (this : WAVEncoder) (fileSize dataSize : Z) : list byte :=
  [ x52; x49; x46; x46;
    byte_of fileSize; byte_of (fileSize / 256); byte_of (fileSize / 65536);
    byte_of (fileSize / 16777216);
    x57; x41; x56; x45;
    x66; x6d; x74; x20;
    byte_of 16; byte_of (16 / 256); byte_of (16 / 65536);
    byte_of (16 / 16777216);
    byte_of 1; byte_of (1 / 256);
    byte_of (numChannels this); byte_of (numChannels this / 256);
    byte_of (sampleRate this); byte_of (sampleRate this / 256);
    byte_of (sampleRate this / 65536); byte_of (sampleRate this / 16777216);
    byte_of (byteRate this); byte_of (byteRate this / 256);
    byte_of (byteRate this / 65536); byte_of (byteRate this / 16777216);
    byte_of (blockAlign this); byte_of (blockAlign this / 256);
    byte_of (bitDepth this); byte_of (bitDepth this / 256);
    x64; x61; x74; x61;
    byte_of dataSize; byte_of (dataSize / 256); byte_of (dataSize / 65536);
    byte_of (dataSize / 16777216) ].

(** The two bytes of each sample, in order. *)
Definition sample_bytes (int16Data : list Z) : list byte :=
  int16Data ≫= (fun sample => [byte_of sample; byte_of (sample / 256)]).

(** All samples of the buffers, converted, in order. *)
Definition converted (audioBuffers : list (list number)) : list Z :=
  convert_sample <$> concat audioBuffers.

End Encoder.

(* ===================================================================== *)
(** * pages/LiveMeeting.js: sending the recording, reading the replies *)
(* ===================================================================== *)

Module LiveMeeting.

Import Encoder.

(** ** stopRecording *)

(** What [stopRecording] reports through [setError]. *)
Inductive failure : Type :=
| NoActiveRecording
    (* "No active recording found" *)
| RECORDING_TOO_SHORT
| RECORDING_TOO_LARGE
| CONNECTION_LOST
| AudioProcessingError (cause : error).
    (* "Audio processing error: .." *)

(** [Sent wavBlob]: the content of the blob went to the socket, as the
    base64 text of the [audio] field of a JSON message. *)
Inductive outcome : Type :=
| Sent (wavBlob : list byte)
| Failed (f : failure).

(** [stopRecording], from the recorder in [webAudioRecorderRef.current]
    and the state of the socket to what is sent. *)
Definition stopRecording (recorder : option WebAudioRecorder) (wsOpen : bool)
  : outcome :=
  match recorder with
  | None => Failed NoActiveRecording
  | Some recorder =>
      (* Generate WAV file from recording *)
      match (stop recorder).1 with
      | Throw e => Failed (AudioProcessingError e)
      | Ok wavBlob =>
          (* Validate audio size *)
          if Wav.blen wavBlob <? 1000 then Failed RECORDING_TOO_SHORT
          else if 50 * 1024 * 1024 <? Wav.blen wavBlob
          then Failed RECORDING_TOO_LARGE
          (* Send for transcription *)
          else if wsOpen then Sent wavBlob
          else Failed CONNECTION_LOST
      end
  end.

(** ** handleWebSocketMessage *)

(** The fields [error], [transcript] and [message] of the object the
    server sent, as [JSON.parse] returns it; an absent field is [None]. *)
Definition data_error (data : outbound) : option string :=
  match data with
  | ErrorOnly error | ErrorDetail error _ => Some error
  | _ => None
  end.

Definition data_transcript (data : outbound) : option string :=
  match data with
  | MockTranscript transcript => transcript
  | Transcript transcript _ _ => Some transcript
  | NoSpeech => Some EmptyString
  | _ => None
  end.

Definition data_message (data : outbound) : option string :=
  match data with
  | NoSpeech => Some "No speech detected in audio"%string
  | _ => None
  end.

(** An optional string used as a condition. *)
Definition present (field : option string) : bool :=
  match field with
  | Some s => Session.truthy s
  | None => false
  end.

(** What [setStatus] was last called with by the handler. *)
Inductive status_text : Type :=
| StatusError (error : string)       (* "Error: " followed by the error *)
| TranscriptionCompleted
| StatusMessage (message : string).

(** The page, as far as [handleWebSocketMessage] changes it: the React
    state, the transcripts handed to [addTranscript], and whether
    [cleanupAfterRecording] closed the socket and the page is about to
    navigate away. *)
Record Page : Type := {
  error : option string;
  status : option status_text;
  transcript : string;
  added : list string;
  cleanedUp : bool
}.

Definition handleWebSocketMessage (data : outbound) (page : Page) : Page :=
  if present (data_error data) then
    {| error := data_error data;
       status := StatusError <$> data_error data;
       transcript := transcript page; added := added page;
       cleanedUp := cleanedUp page |}
  else
    let page :=
      if present (data_transcript data) then
        let completeTranscript :=
          trim (default EmptyString (data_transcript data)) in
        {| error := error page;
           status := Some TranscriptionCompleted;
           transcript := completeTranscript;
           (* Save transcript to context *)
           added := if Session.truthy completeTranscript
                    then added page ++ [completeTranscript]
                    else added page;
           (* Cleanup and navigate *)
           cleanedUp := true |}
      else page in
    if present (data_message data) then
      {| error := error page;
         status := StatusMessage <$> data_message data;
         transcript := transcript page; added := added page;
         cleanedUp := cleanedUp page |}
    else page.

(** ** Vocabulary of the statements *)

(** A reply of the kinds the handler of a real session sends: a
    transcript that is trimmed and not empty, the no-speech message, or
    an error with a text. *)
Definition well_formed_reply (data : outbound) : Prop :=
  match data with
  | Transcript transcript _ _ =>
      Session.truthy transcript = true /\ trim transcript = transcript
  | NoSpeech => True
  | ErrorOnly error | ErrorDetail error _ => Session.truthy error = true
  | MockTranscript _ => False
  end.

End LiveMeeting.

(* ===================================================================== *)
(** * context/TranscriptContext.js: saving a transcript *)
(* ===================================================================== *)

Module TranscriptContext.

Local Open Scope string_scope.

(** A transcript as the list holds it. *)
Record Transcript : Type := {
  id : Z;
  title : string;
  date : string;
  content : string;
  duration : string
}.

(** The argument of [addTranscript]; an absent field is [None]. *)
Record NewTranscript : Type := {
  new_title : option string;
  new_date : option string;
  new_content : option string;
  new_duration : option string
}.

(** How the POST request failed, as far as the handler looks. *)
Inductive saveError : Type :=
| Status (status : Z)          (* saveError.response.status *)
| ECONNREFUSED                 (* saveError.code *)
| OtherFailure.

(** The state of the provider that [addTranscript] touches. *)
Record State : Type := {
  transcripts : list Transcript;
  error : option string
}.

Definition setTranscripts (f : list Transcript -> list Transcript)
    (st : State) : State :=
  {| transcripts := f (transcripts st); error := error st |}.

Definition setError (message : string) (st : State) : State :=
  {| transcripts := transcripts st; error := Some message |}.

(** [addTranscript newTranscript], with [today] the date part of
    [new Date().toISOString()], [tempId] the value of [Date.now()] and
    [response] what [axios.post] does: the record in [response.data], or
    a rejection.  The result is what the call returns ([null] as
    [None]). *)
Definition addTranscript (newTranscript : NewTranscript) (today : string)
    (tempId : Z) (response : result saveError Transcript) (st : State)
  : option Transcript * State :=
  if negb (Session.truthy (trim (default EmptyString (new_content newTranscript))))
  then (None, setError "Cannot save empty transcript" st)
  else
    (* Validate required fields *)
    let title := or_else (new_title newTranscript) "Untitled Meeting" in
    let date := or_else (new_date newTranscript) today in
    let content := trim (default EmptyString (new_content newTranscript)) in
    let duration := or_else (new_duration newTranscript) "Unknown" in
    (* Optimistic update - add to UI immediately *)
    let optimisticTranscript :=
      {| id := tempId; title := title; date := date; content := content;
         duration := duration |} in
    let st := setTranscripts (fun prev => (prev ++ [optimisticTranscript])%list) st in
    match response with
    | Ok data =>
        (* Replace optimistic update with real data *)
        let st :=
          setTranscripts
            (fun prev => (fun t => if (id t =? tempId)%Z then data else t) <$> prev)
            st in
        (Some data, st)
    | Throw saveError =>
        (* Revert optimistic update *)
        let st :=
          setTranscripts (filter (fun t => id t <> tempId)) st in
        let errorMessage :=
          match saveError with
          | Status 413 => "Transcript too large to save"
          | ECONNREFUSED => "Cannot connect to server to save transcript"
          | _ => "Failed to save transcript"
          end in
        (None, setError errorMessage st)
    end.

(** The argument [handleWebSocketMessage] passes for a transcript. *)
Definition from_meeting (title today completeTranscript : string)
  : NewTranscript :=
  {| new_title := Some title; new_date := Some today;
     new_content := Some completeTranscript;
     new_duration := Some "Unknown" |}.

End TranscriptContext.

(* ===================================================================== *)
(** * The specification's error kinds *)
(* ===================================================================== *)

Module Spec.

Import Stt.
Local Open Scope string_scope.

(** The error kinds the specification attaches to the HTTP status codes,
    and its mapping, in its words: 400 bad audio, 401/403 authentication
    or authorization failure, 413 payload too large, 429 rate-limited,
    5xx upstream unavailable. *)
Inductive ErrorKind : Type :=
| BadAudio | AuthFailure | PayloadTooLarge | RateLimited | UpstreamUnavailable.

Definition spec_kind_of_status (status : Z) : option ErrorKind :=
  if (status =? 400)%Z then Some BadAudio
  else if (status =? 401)%Z || (status =? 403)%Z then Some AuthFailure
  else if (status =? 413)%Z then Some PayloadTooLarge
  else if (status =? 429)%Z then Some RateLimited
  else if (500 <=? status)%Z && (status <=? 599)%Z then Some UpstreamUnavailable
  else None.

(** The kind a rejection message of the code stands for: each entry of
    [errorMessages] names one; the generic "API error .." text names none. *)
Definition kind_of_message (message : string) : option ErrorKind :=
  if (message =? "Invalid audio format or corrupted file") then Some BadAudio
  else if (message =? "Invalid API key - check SARVAM_API_KEY")
          || (message =? "API access forbidden - check subscription status")
  then Some AuthFailure
  else if (message =? "Audio file too large for API") then Some PayloadTooLarge
  else if (message =? "Rate limit exceeded - please try again in a moment")
  then Some RateLimited
  else if (message =? "SarvamAI server error - please try again later")
          || (message =? "SarvamAI service temporarily unavailable")
  then Some UpstreamUnavailable
  else None.

(** The status codes [errorMessages] has an entry for. *)
Definition listed : list Z := [400; 401; 403; 413; 429; 500; 503]%Z.

(** The text for a status code without entry. *)
Definition generic_message (r : response) : string :=
  "API error " +:+ show (statusCode r) +:+ ": "
    +:+ String.substring 0 200 (responseData r).

End Spec.

(* ===================================================================== *)
(** * Sample inputs *)
(* ===================================================================== *)

Module Samples.

Import Wav Session.

(** ** Headers and buffers *)

(** A stereo ADPCM header, as a client may send it. *)
Definition adpcm_header : headerInfo :=
  {| fileSize := 2048; audioFormat := 2; numChannels := 2; sampleRate := 22050;
     byteRate := 22311; blockAlign := 1024; bitsPerSample := 4; fmtSize := 20;
     duration := Num (2004 # 22050) |}.

(** A PCM header at the preferred 16 kHz / mono / 16 bit whose byte-rate
    field is 0 instead of 32000. *)
Definition zero_byteRate_header : headerInfo :=
  {| fileSize := 2048; audioFormat := 1; numChannels := 1; sampleRate := 16000;
     byteRate := 0; blockAlign := 2; bitsPerSample := 16; fmtSize := 16;
     duration := Num (2004 # 32000) |}.

(** A 44-byte RIFF/WAVE file: a 16-byte PCM [fmt ] chunk whose sample-rate
    and byte-rate fields are 0, then an empty [data] chunk. *)
Definition header_rate0 : list byte :=
  [ x52; x49; x46; x46;  x24; x00; x00; x00;  x57; x41; x56; x45;
    x66; x6d; x74; x20;  x10; x00; x00; x00;
    x01; x00;  x01; x00;  x00; x00; x00; x00;  x00; x00; x00; x00;
    x02; x00;  x10; x00;
    x64; x61; x74; x61;  x00; x00; x00; x00 ].

(** The same header followed by 956 bytes of samples: 1000 bytes, the
    smallest size [validateAndProcess] lets through. *)
Definition clip_rate0 : list byte := header_rate0 ++ replicate 956 x00.

(** A 1000-byte clip in the preferred format: PCM, mono, 16 kHz, 16 bit,
    byte rate 32000, and 956 bytes of samples. *)
Definition header_16k : list byte :=
  [ x52; x49; x46; x46;  xe0; x03; x00; x00;  x57; x41; x56; x45;
    x66; x6d; x74; x20;  x10; x00; x00; x00;
    x01; x00;  x01; x00;  x80; x3e; x00; x00;  x00; x7d; x00; x00;
    x02; x00;  x10; x00;
    x64; x61; x74; x61;  xbc; x03; x00; x00 ].

Definition clip_16k : list byte := header_16k ++ replicate 956 x00.

(** The validator of the connection handler: standard level, auto-fix. *)
Definition handler_validator : WAVValidator :=
  {| validationLevel := STANDARD; autoFix := true |}.

(** An ffmpeg that is never there. *)
Definition no_ffmpeg (_ : list byte) : result error (list byte) :=
  Throw (External "Cannot find ffmpeg").

(** What [validateAndProcess] returns for [clip_16k] in 3 ms. *)
Definition validated_clip : Wav.processResult :=
  {| Wav.pr_isValid := true;
     Wav.processedBuffer := clip_16k;
     Wav.pr_metadata :=
       {| Wav.header :=
            {| Wav.fileSize := 1000; Wav.audioFormat := 1; Wav.numChannels := 1;
               Wav.sampleRate := 16000; Wav.byteRate := 32000;
               Wav.blockAlign := 2; Wav.bitsPerSample := 16; Wav.fmtSize := 16;
               Wav.duration :=
                 Math_max (num 0)
                   (js_div (inject_Z 956)
                      (inject_Z 16000 * inject_Z 1 * (inject_Z 16 / 8))) |};
          Wav.wasProcessed := false; Wav.processingTime := 3;
          Wav.originalSize := 1000; Wav.finalSize := 1000 |} |}.

(** [clip_16k] with format code 2 (ADPCM) in place of 1. *)
Definition clip_adpcm : list byte :=
  take 20 clip_16k ++ [x02; x00] ++ drop 22 clip_16k.

(** A [LIST] chunk with a body of four bytes. *)
Definition list_chunk : list byte :=
  [ x4c; x49; x53; x54;  x04; x00; x00; x00;  x49; x4e; x46; x4f ].

(** An ffmpeg that answers every input with [clip_16k]. *)
Definition ffmpeg_to_16k (_ : list byte) : result error (list byte) :=
  Ok clip_16k.

(** ** Recordings *)

(** Two buffers of samples, some of them out of range or not numbers. *)
Definition loud_buffers : list (list number) :=
  [ [Num (1 # 2); Num (- (1 # 2)); NaN]; [PosInf; Num (3 # 1); NegInf] ].

(** The encoder of [createWAV] at 16 kHz. *)
Definition encoder_16k : Encoder.WAVEncoder :=
  {| Encoder.sampleRate := 16000; Encoder.numChannels := 1;
     Encoder.bitDepth := 16; Encoder.bytesPerSample := 2;
     Encoder.blockAlign := 2; Encoder.byteRate := 32000 |}.

(** Options asking for 8-bit and for 24-bit stereo encoders. *)
Definition options_8bit : Encoder.Options :=
  {| Encoder.o_sampleRate := None; Encoder.o_numChannels := None;
     Encoder.o_bitDepth := Some 8 |}.

Definition options_24bit : Encoder.Options :=
  {| Encoder.o_sampleRate := Some 48000; Encoder.o_numChannels := Some 2;
     Encoder.o_bitDepth := Some 24 |}.

(** A recorder at 16 kHz holding one buffer of 512 samples of silence. *)
Definition short_recording : Encoder.WebAudioRecorder :=
  {| Encoder.r_sampleRate := 16000;
     Encoder.audioBuffers := [replicate 512 (Num 0)];
     Encoder.isRecording := true |}.

(** ** Responses of the speech service *)

(** A 502 answer of the service. *)
Definition bad_gateway : Stt.response :=
  {| Stt.statusCode := 502; Stt.responseData := "Bad Gateway";
     Stt.JSON_parse := Stt.SyntaxError "Unexpected token B in JSON at position 0" |}.

(** A 503 answer of the service. *)
Definition service_unavailable : Stt.response :=
  {| Stt.statusCode := 503; Stt.responseData := "Service Unavailable";
     Stt.JSON_parse := Stt.SyntaxError "Unexpected token S in JSON at position 0" |}.

(** HTTP 200 with a JSON body that has no [transcript] string. *)
Definition silent_response : Stt.response :=
  {| Stt.statusCode := 200; Stt.responseData := "{}";
     Stt.JSON_parse := Stt.Value None |}.

(** HTTP 200 with a transcript. *)
Definition spoken_response : Stt.response :=
  {| Stt.statusCode := 200; Stt.responseData := "{..}";
     Stt.JSON_parse := Stt.Value (Some " Namaste "%string) |}.

(** HTTP 200 with a transcript of white space only: a no-break space
    (U+00A0), a space, an ideographic space (U+3000) and a line feed. *)
Definition blank_transcript : string :=
  String "194" (String "160" (String " " (String "227" (String "128"
    (String "128" (String "010" EmptyString)))))).

Definition blank_response : Stt.response :=
  {| Stt.statusCode := 200; Stt.responseData := "{..}";
     Stt.JSON_parse := Stt.Value (Some blank_transcript) |}.

(** ** Messages and event traces *)

(** A text message of 2000 bytes (the letter A), and one of 3000 (B). *)
Definition message_A : message := replicate 2000 x41.
Definition message_B : message := replicate 3000 x42.

(** A third text message, 1500 bytes of the letter C. *)
Definition message_C : message := replicate 1500 x43.

(** Three messages during the processing of [message_A], which began at
    5000. *)
Definition three_messages : list (Z * message) :=
  [(6100, message_A); (6200, message_B); (6300, message_C)].

(** One processing cycle that fails in the validator: the message begins
    processing at [t] as task [task], and 50 ms later
    [validateAndProcess] throws. *)
Definition failed_cycle (t : Z) (task : nat) : list event :=
  [ Message t message_A;
    Validated (t + 50) task
      (Throw "WAV validation failed: WAV header parsing failed: Invalid RIFF signature"%string) ].

Definition five_failures : list event :=
  failed_cycle 10000 0 ++ failed_cycle 12000 1 ++ failed_cycle 14000 2
    ++ failed_cycle 16000 3 ++ failed_cycle 18000 4.

(** The session after five failed cycles in a row. *)
Definition after_five_failures : State := default init (run init five_failures).

(** Two failed cycles, then a third message that validates and is sent
    to the service, which answers [r] at 14900. *)
Definition third_cycle (r : Stt.response) : list event :=
  failed_cycle 10000 0 ++ failed_cycle 12000 1
    ++ [ Message 14000 message_A;
         Validated 14050 2 (Ok validated_clip);
         Transcribed 14900 3 (Stt.End_ r) ].

(** An empty message, a second one 100 ms later, their two timeouts with
    a third message in between, and its timeout. *)
Definition mock_trace : list Mock.event :=
  [ Mock.Message 1000 []; Mock.Message 1100 (replicate 2000 x41); Mock.Timer 2500;
    Mock.Message 2550 [x7b; x7d]; Mock.Timer 2600; Mock.Timer 4050 ].

(** A message, the close of the connection, and the timeout of the
    message running after it. *)
Definition mock_closed_trace : list Mock.event :=
  [ Mock.Message 1000 (replicate 2000 x41); Mock.Close; Mock.Timer 2500 ].

(** ** States of a session *)

(** A session whose first message was validated at 10050 and is now with
    the speech service: task 1 is suspended at the request, timeout 0 is
    due at 190050. *)
Definition awaiting_transcript : State :=
  default init (run init [Message 10000 message_A;
                          Validated 10050 0 (Ok validated_clip)]).

(** A session closed by the client while its first message is with the
    validator. *)
Definition closed_session : State :=
  default init (run init [Message 10000 message_A; Close]).

(** A 429 answer of the service. *)
Definition too_many_requests : Stt.response :=
  {| Stt.statusCode := 429; Stt.responseData := "Too Many Requests";
     Stt.JSON_parse := Stt.SyntaxError "Unexpected token T in JSON at position 0" |}.

(** A transcription rejected with 503 leaves its timeout pending; it
    runs at 190050, during the processing of a second message, and a
    third message then begins processing as well. *)
Definition stale_timeout_trace : list event :=
  [ Message 10000 message_A;
    Validated 10050 0 (Ok validated_clip);
    Transcribed 10900 1 (Stt.End_ service_unavailable);
    Message 189000 message_A;
    Timer 190050 0;
    Message 190100 message_B ].

(** ** Transcripts of the client *)

(** The record the server returns for a saved meeting. *)
Definition saved_meeting : TranscriptContext.Transcript :=
  {| TranscriptContext.id := 7;
     TranscriptContext.title := "Hindi Meeting - 9/27/2025";
     TranscriptContext.date := "2025-09-27";
     TranscriptContext.content := "Namaste";
     TranscriptContext.duration := "Unknown" |}.

End Samples.

(* ===================================================================== *)
(** * Properties of the WAV validator *)
(* ===================================================================== *)

Module WavProofs.

Import Wav Samples.

Lemma Qltb_lt (a b : Q) : Qltb a b = true <-> (a < b)%Q.
Proof.
  unfold Qltb. rewrite negb_true_iff. split.
  - intros H. apply Qnot_le_lt. intros Hle.
    apply Qle_bool_iff in Hle. congruence.
  - intros H. destruct (Qle_bool b a) eqn:E; [|reflexivity].
    apply Qle_bool_iff in E. exfalso. exact (Qlt_not_le _ _ H E).
Qed.

Lemma byteAt_nonneg (buf : list byte) (off : Z) : 0 <= byteAt buf off.
Proof.
  unfold byteAt, byteZ. destruct (buf !! Z.to_nat off); lia.
Qed.

Lemma readUInt32LE_nonneg (buf : list byte) (off v : Z) :
  readUInt32LE buf off = Ok v -> 0 <= v.
Proof.
  unfold readUInt32LE. destruct (_ && _); [|discriminate].
  intros [= <-].
  pose proof (byteAt_nonneg buf off). pose proof (byteAt_nonneg buf (off + 1)).
  pose proof (byteAt_nonneg buf (off + 2)). pose proof (byteAt_nonneg buf (off + 3)).
  lia.
Qed.

(** The scan leaves the loop within as many iterations as the buffer has
    bytes: every iteration moves [fmtOffset] forward by at least 8. *)
Lemma find_fmt_fuel (fuel : nat) (buf : list byte) (off : Z) :
  blen buf - 8 - off <= Z.of_nat fuel -> find_fmt fuel buf off <> None.
Proof.
  revert off. induction fuel as [|fuel IH]; intros off Hfuel; simpl.
  - destruct (off <? blen buf - 8) eqn:E; [|discriminate].
    apply Z.ltb_lt in E. lia.
  - destruct (off <? blen buf - 8) eqn:E; [|discriminate].
    destruct (readUInt32LE buf (off + 4)) as [chunkSize|e] eqn:R; [|discriminate].
    destruct (bytes_eqb _ _); [discriminate|].
    apply IH. apply readUInt32LE_nonneg in R. lia.
Qed.

Lemma find_fmt_terminates (buf : list byte) :
  find_fmt (length buf) buf 12 <> None.
Proof. apply find_fmt_fuel. unfold blen. lia. Qed.

(** [_parseWAVHeader] never takes its out-of-budget branch. *)
Lemma parse_fuel_total (buf : list byte) :
  exists r, parse_fuel (length buf) buf = Some r /\ _parseWAVHeader buf = r.
Proof.
  unfold _parseWAVHeader, parse_fuel.
  destruct (blen buf <? HEADER.MIN_HEADER_SIZE); [eauto|].
  unfold parse_body.
  destruct (negb _); [simpl; eauto|].
  destruct (negb _); [simpl; eauto|].
  destruct (find_fmt (length buf) buf 12) eqn:E.
  - simpl. eauto.
  - exfalso. exact (find_fmt_terminates buf E).
Qed.

(** ** Format code and byte rate in [_validateWAVFormat] *)

(** The three mismatch checks only ever append. *)
Lemma push_mismatch_errors_prefix level mismatch e w ew :
  exists more, (push_mismatch level mismatch e w ew).1 = ew.1 ++ more.
Proof.
  unfold push_mismatch. destruct mismatch, (is_strict level); simpl;
    eauto using app_nil_r.
  all: exists []; by rewrite app_nil_r.
Qed.

(** The error list starts with the outcome of the format-code check. *)
Lemma errors_start_with_format_check level h :
  exists more,
    errors (_validateWAVFormat level h)
    = (if negb (audioFormat h =? 1)
       then [UnsupportedAudioFormat (audioFormat h)] else []) ++ more.
Proof.
  unfold _validateWAVFormat. cbn [errors].
  set (ew0 := if negb (audioFormat h =? 1) then _ else _).
  assert (H0 : ew0.1 = if negb (audioFormat h =? 1)
                       then [UnsupportedAudioFormat (audioFormat h)] else [])
    by (subst ew0; destruct (negb _); reflexivity).
  match goal with
  | |- context [push_mismatch level ?m1 ?e1 ?w1 ew0] =>
      destruct (push_mismatch_errors_prefix level m1 e1 w1 ew0) as [x1 E1];
      set (ew1 := push_mismatch level m1 e1 w1 ew0) in *
  end.
  match goal with
  | |- context [push_mismatch level ?m ?e ?w ew1] =>
      destruct (push_mismatch_errors_prefix level m e w ew1) as [x2 E2];
      set (ew2 := push_mismatch level m e w ew1) in *
  end.
  match goal with
  | |- context [push_mismatch level ?m ?e ?w ew2] =>
      destruct (push_mismatch_errors_prefix level m e w ew2) as [x3 E3];
      set (ew3 := push_mismatch level m e w ew2) in *
  end.
  destruct (js_gt _ _), (byteRateMismatch h); cbn [fst snd];
    rewrite E3, E2, E1, H0, <- ?app_assoc; eauto.
  all: eexists; by rewrite <- ?app_assoc.
Qed.

(** C7.  A format code other than 1 (PCM) makes [_validateWAVFormat]
    report [isValid = false] with an "unsupported audio format" error, at
    each of the three validation levels. *)
Theorem non_pcm_is_invalid_at_every_level
    (level : VALIDATION_LEVELS) (h : headerInfo) :
  audioFormat h <> 1 ->
  isValid (_validateWAVFormat level h) = false /\
  In (UnsupportedAudioFormat (audioFormat h))
     (errors (_validateWAVFormat level h)).
Proof.
  intros Hfmt.
  destruct (errors_start_with_format_check level h) as [more E].
  assert (Hneq : negb (audioFormat h =? 1) = true)
    by (apply negb_true_iff, Z.eqb_neq; exact Hfmt).
  rewrite Hneq in E. split.
  - assert (Hv : isValid (_validateWAVFormat level h)
                 = bool_decide (length (errors (_validateWAVFormat level h)) = 0%nat))
      by reflexivity.
    rewrite Hv, E. reflexivity.
  - rewrite E. left. reflexivity.
Qed.

Lemma non_pcm_is_invalid_witness :
  audioFormat adpcm_header <> 1 /\
  isValid (_validateWAVFormat STANDARD adpcm_header) = false /\
  In (UnsupportedAudioFormat 2) (errors (_validateWAVFormat STANDARD adpcm_header)).
Proof.
  split; [discriminate|].
  apply (non_pcm_is_invalid_at_every_level STANDARD adpcm_header). discriminate.
Defined.

(** The byte rate is read by the last check only, and that check touches
    the warnings only. *)
Lemma errors_ignore_byteRate level h b :
  errors (_validateWAVFormat level (with_byteRate b h))
  = errors (_validateWAVFormat level h).
Proof.
  unfold _validateWAVFormat. cbn [errors].
  change (audioFormat (with_byteRate b h)) with (audioFormat h).
  change (sampleRate (with_byteRate b h)) with (sampleRate h).
  change (numChannels (with_byteRate b h)) with (numChannels h).
  change (bitsPerSample (with_byteRate b h)) with (bitsPerSample h).
  change (duration (with_byteRate b h)) with (duration h).
  destruct (byteRateMismatch (with_byteRate b h)), (byteRateMismatch h);
    reflexivity.
Qed.

Lemma isValid_from_errors level h :
  isValid (_validateWAVFormat level h)
  = bool_decide (length (errors (_validateWAVFormat level h)) = 0%nat).
Proof. reflexivity. Qed.

Lemma warnings_end_with_byteRate_check level h :
  byteRateMismatch h = true ->
  exists before,
    warnings (_validateWAVFormat level h)
    = before ++ [ByteRateMismatch (byteRate h) (expectedByteRate h)].
Proof.
  intros Hm. unfold _validateWAVFormat. cbn [warnings]. rewrite Hm.
  cbn [snd]. eauto.
Qed.

(** C6, as stated, fails: under [STRICT] a byte-rate mismatch is not
    fatal.  The header below has byte rate 0 where 32000 is expected; the
    verdict is valid, with no error and the mismatch as only warning. *)
Lemma strict_byte_rate_mismatch_is_not_fatal :
  ~ (inject_Z (byteRate zero_byteRate_header)
     == expectedByteRate zero_byteRate_header)%Q /\
  isValid (_validateWAVFormat STRICT zero_byteRate_header) = true /\
  errors (_validateWAVFormat STRICT zero_byteRate_header) = [] /\
  warnings (_validateWAVFormat STRICT zero_byteRate_header)
  = [ByteRateMismatch 0 (expectedByteRate zero_byteRate_header)].
Proof.
  split; [|split; [|split]]; try reflexivity.
  vm_compute. discriminate.
Qed.

(** C6, amended.  When the byte rate differs from
    [sampleRate * numChannels * bitsPerSample / 8] by more than 1,
    [_validateWAVFormat] records the mismatch as a warning at every
    validation level, and never as an error: the error list and the
    verdict are the ones the same header gets with any other byte rate.
    Under [STRICT] the warning sets [requiresFix]. *)
Theorem byte_rate_mismatch_is_a_warning_at_every_level
    (level : VALIDATION_LEVELS) (h : headerInfo) :
  (1 < Qabs (inject_Z (byteRate h) - expectedByteRate h))%Q ->
  In (ByteRateMismatch (byteRate h) (expectedByteRate h))
     (warnings (_validateWAVFormat level h)) /\
  (forall b,
     errors (_validateWAVFormat level (with_byteRate b h))
     = errors (_validateWAVFormat level h) /\
     isValid (_validateWAVFormat level (with_byteRate b h))
     = isValid (_validateWAVFormat level h)) /\
  (level = STRICT -> requiresFix (_validateWAVFormat level h) = true).
Proof.
  intros Hgt.
  assert (Hm : byteRateMismatch h = true) by (apply Qltb_lt; exact Hgt).
  destruct (warnings_end_with_byteRate_check level h Hm) as [before Hw].
  split; [|split].
  - rewrite Hw. apply in_or_app. right. left. reflexivity.
  - intros b. split.
    + apply errors_ignore_byteRate.
    + rewrite !isValid_from_errors, errors_ignore_byteRate. reflexivity.
  - intros ->.
    assert (Hr : requiresFix (_validateWAVFormat STRICT h)
                 = negb (isValid (_validateWAVFormat STRICT h))
                   || (true && bool_decide
                         (0 < length (warnings (_validateWAVFormat STRICT h)))%nat))
      by reflexivity.
    rewrite Hr, Hw, length_app. cbn [length andb].
    rewrite bool_decide_eq_true_2 by lia. apply orb_true_r.
Qed.

Lemma byte_rate_mismatch_is_a_warning_witness :
  (1 < Qabs (inject_Z (byteRate zero_byteRate_header)
             - expectedByteRate zero_byteRate_header))%Q /\
  In (ByteRateMismatch 0 (expectedByteRate zero_byteRate_header))
     (warnings (_validateWAVFormat STRICT zero_byteRate_header)) /\
  requiresFix (_validateWAVFormat STRICT zero_byteRate_header) = true.
Proof.
  assert (Hgt : (1 < Qabs (inject_Z (byteRate zero_byteRate_header)
                           - expectedByteRate zero_byteRate_header))%Q)
    by (vm_compute; reflexivity).
  split; [exact Hgt|].
  destruct (byte_rate_mismatch_is_a_warning_at_every_level
              STRICT zero_byteRate_header Hgt) as (Hin & _ & Hfix).
  split; [exact Hin | exact (Hfix eq_refl)].
Defined.

(** ** Duration *)

(** A header that parses carries the duration computed from the buffer
    length and its own three fields, and the buffer has at least 44
    bytes. *)
Lemma parse_duration (buf : list byte) (h : headerInfo) :
  _parseWAVHeader buf = Ok h ->
  HEADER.MIN_HEADER_SIZE <= blen buf /\
  duration h
  = _calculateDuration (blen buf) (sampleRate h) (numChannels h) (bitsPerSample h).
Proof.
  destruct (parse_fuel_total buf) as (r & Hfuel & ->). intros ->.
  unfold parse_fuel in Hfuel.
  destruct (blen buf <? HEADER.MIN_HEADER_SIZE) eqn:Hlen; [discriminate|].
  apply Z.ltb_ge in Hlen. split; [exact Hlen|].
  unfold parse_body in Hfuel.
  destruct (negb _); [discriminate|].
  destruct (negb _); [discriminate|].
  destruct (find_fmt _ _ _) as [[[fmtOffset fmtSize]|e]|]; try discriminate.
  cbn [rbind option_map] in Hfuel.
  destruct (fmtSize =? 0); [discriminate|].
  repeat match type of Hfuel with
         | context [rbind ?r _] => destruct r; cbn [rbind] in Hfuel; [|discriminate]
         end.
  cbn [rethrow] in Hfuel. injection Hfuel as <-. reflexivity.
Qed.

(** With a non-zero byte-per-second product the duration is the quotient,
    a non-negative rational. *)
Lemma duration_of_positive_rate (len sr ch bits : Z) :
  HEADER.MIN_HEADER_SIZE <= len -> 0 < sr -> 0 < ch -> 0 < bits ->
  let bytesPerSecond := (inject_Z sr * inject_Z ch * (inject_Z bits / 8))%Q in
  _calculateDuration len sr ch bits
  = Num (inject_Z (len - HEADER.MIN_HEADER_SIZE) / bytesPerSecond) /\
  (0 <= inject_Z (len - HEADER.MIN_HEADER_SIZE) / bytesPerSecond)%Q.
Proof.
  intros Hlen Hsr Hch Hbits bps.
  assert (Hpos : (0 < bps)%Q).
  { subst bps. apply Qmult_lt_0_compat; [apply Qmult_lt_0_compat|].
    - change 0%Q with (inject_Z 0). rewrite <- Zlt_Qlt. exact Hsr.
    - change 0%Q with (inject_Z 0). rewrite <- Zlt_Qlt. exact Hch.
    - apply Qlt_shift_div_l; [reflexivity|]. rewrite Qmult_0_l.
      change 0%Q with (inject_Z 0). rewrite <- Zlt_Qlt. exact Hbits. }
  assert (Hnum : (0 <= inject_Z (len - HEADER.MIN_HEADER_SIZE))%Q).
  { change 0%Q with (inject_Z 0). rewrite <- Zle_Qle. lia. }
  assert (Hq : (0 <= inject_Z (len - HEADER.MIN_HEADER_SIZE) / bps)%Q).
  { apply Qle_shift_div_l; [exact Hpos|]. rewrite Qmult_0_l. exact Hnum. }
  split; [|exact Hq].
  unfold _calculateDuration, js_div. fold bps.
  destruct (Qeq_bool bps 0) eqn:E.
  - apply Qeq_bool_iff in E. rewrite E in Hpos. discriminate Hpos.
  - unfold Math_max, num.
    assert (Hle : Qle_bool (inject_Z 0) (inject_Z (len - HEADER.MIN_HEADER_SIZE) / bps) = true)
      by (apply Qle_bool_iff; exact Hq).
    rewrite Hle. reflexivity.
Qed.

(** C8.  With a sample rate of 0 the duration is not a number [>= 0]:
    [_parseWAVHeader] accepts the 44-byte header and returns
    [duration = NaN] (0 / 0, which [Math.max(0, _)] keeps), and it accepts
    the 1000-byte clip and returns [duration = Infinity]. *)
Theorem duration_of_zero_rate_header :
  (exists h, _parseWAVHeader header_rate0 = Ok h /\
             sampleRate h = 0 /\ duration h = NaN /\
             js_ge (duration h) (num 0) = false) /\
  (exists h, _parseWAVHeader clip_rate0 = Ok h /\
             sampleRate h = 0 /\ duration h = PosInf).
Proof.
  split; eexists; (split; [vm_compute; reflexivity|]); cbn; auto.
Qed.

(** ** validateAndProcess *)

Section ProcessingFacts.

Variable fixWAV : list byte -> result error (list byte).
Variable elapsed : Z.

(** Whatever is thrown inside comes out wrapped by the outer [catch]. *)
Lemma validateAndProcess_throws_wrapped this buf e :
  validateAndProcess fixWAV elapsed this buf = Throw e ->
  exists cause, e = ValidationFailed cause.
Proof.
  unfold validateAndProcess, rethrow.
  destruct (rbind _ _); [discriminate|]. intros [= <-]. eauto.
Qed.

(** What a normal return means. *)
Lemma validateAndProcess_returns this buf r :
  validateAndProcess fixWAV elapsed this buf = Ok r ->
  pr_isValid r = true /\
  _validateFileSize buf = Ok tt /\
  exists h,
    _parseWAVHeader buf = Ok h /\
    header (pr_metadata r) = h /\
    let verdict := _validateWAVFormat (validationLevel this) h in
    (isValid verdict = true /\ processedBuffer r = buf /\
     wasProcessed (pr_metadata r) = false)
    \/
    (isValid verdict = false /\ autoFix this = true /\
     fixWAV buf = Ok (processedBuffer r) /\
     wasProcessed (pr_metadata r) = true /\
     exists h', _parseWAVHeader (processedBuffer r) = Ok h' /\
                isValid (_validateWAVFormat (validationLevel this) h') = true).
Proof.
  unfold validateAndProcess, rethrow.
  destruct (_validateFileSize buf) as [[]|e] eqn:Hsize; cbn [rbind]; [|discriminate].
  destruct (_parseWAVHeader buf) as [h|e] eqn:Hparse; cbn [rbind]; [|discriminate].
  destruct (isValid (_validateWAVFormat (validationLevel this) h)) eqn:Hvalid;
    cbn [negb andb].
  - cbn [rbind]. intros [= <-]. cbn. split; [reflexivity|]. split; [reflexivity|].
    exists h. split; [reflexivity|]. split; [reflexivity|]. left. auto.
  - destruct (autoFix this) eqn:Hauto.
    + destruct (fixWAV buf) as [fixed|e] eqn:Hfix; cbn [rbind]; [|discriminate].
      destruct (_parseWAVHeader fixed) as [h'|e] eqn:Hparse'; cbn [rbind];
        [|discriminate].
      destruct (isValid (_validateWAVFormat (validationLevel this) h')) eqn:Hvalid';
        cbn [negb rbind]; [|discriminate].
      intros [= <-]. cbn. split; [reflexivity|]. split; [reflexivity|].
      exists h. split; [reflexivity|]. split; [reflexivity|]. right.
      repeat split; eauto.
    + cbn [rbind]. discriminate.
Qed.

End ProcessingFacts.

(** C10.  When [validateAndProcess] returns, the [isValid] field of the
    result is [true]: the size limits held, the header parsed, and the
    format was valid, or was made valid by the auto-fix and validated
    again.  Every other case is a throw (see
    [validateAndProcess_throws_wrapped]), never a result with
    [isValid = false]. *)
Theorem validateAndProcess_returns_only_valid
    (fixWAV : list byte -> result error (list byte)) (elapsed : Z)
    (this : WAVValidator) (buf : list byte) (r : processResult) :
  validateAndProcess fixWAV elapsed this buf = Ok r ->
  pr_isValid r = true /\
  _validateFileSize buf = Ok tt /\
  exists h,
    _parseWAVHeader buf = Ok h /\
    (isValid (_validateWAVFormat (validationLevel this) h) = true \/
     (autoFix this = true /\
      fixWAV buf = Ok (processedBuffer r) /\
      exists h', _parseWAVHeader (processedBuffer r) = Ok h' /\
                 isValid (_validateWAVFormat (validationLevel this) h') = true)).
Proof.
  intros Hret.
  destruct (validateAndProcess_returns fixWAV elapsed this buf r Hret)
    as (Hv & Hsize & h & Hparse & _ & Hcases).
  split; [exact Hv|]. split; [exact Hsize|].
  exists h. split; [exact Hparse|].
  destruct Hcases as [(Hvalid & _)|(_ & Hauto & Hfix & _ & Hre)].
  - left. exact Hvalid.
  - right. auto.
Qed.

Lemma validateAndProcess_returns_only_valid_witness :
  exists r,
    validateAndProcess no_ffmpeg 3 handler_validator clip_16k = Ok r /\
    pr_isValid r = true.
Proof.
  eexists. split.
  - vm_compute. reflexivity.
  - eapply (validateAndProcess_returns_only_valid
              no_ffmpeg 3 handler_validator clip_16k).
    vm_compute. reflexivity.
Defined.

(** ** Further properties of the header parser *)

(** X1.  The chunk scan of [_parseWAVHeader] terminates on every buffer:
    given as many iterations as the buffer has bytes, the loop is left
    (with the [fmt ] chunk found, or at the end of the buffer). *)
Theorem header_scan_terminates (buf : list byte) :
  exists loop, find_fmt (length buf) buf 12 = Some loop.
Proof.
  destruct (find_fmt (length buf) buf 12) as [loop|] eqn:E; [eauto|].
  exfalso. exact (find_fmt_terminates buf E).
Qed.

(** X2.  A buffer of fewer than 44 bytes is refused by [_parseWAVHeader]
    as too small to hold a header, and a buffer of fewer than 1000 bytes
    is refused by [validateAndProcess] as too small, before any parsing. *)
Theorem short_buffers_are_too_small
    (fixWAV : list byte -> result error (list byte)) (elapsed : Z)
    (this : WAVValidator) (buf : list byte) :
  blen buf < LIMITS.MIN_FILE_SIZE ->
  validateAndProcess fixWAV elapsed this buf
  = Throw (ValidationFailed (FileTooSmall (blen buf))) /\
  (blen buf < HEADER.MIN_HEADER_SIZE -> _parseWAVHeader buf = Throw HeaderTooSmall).
Proof.
  intros Hsmall. split.
  - unfold validateAndProcess, _validateFileSize.
    rewrite (proj2 (Z.ltb_lt _ _) Hsmall). reflexivity.
  - intros Hheader. unfold _parseWAVHeader, parse_fuel.
    rewrite (proj2 (Z.ltb_lt _ _) Hheader). reflexivity.
Qed.

Lemma short_buffers_are_too_small_witness :
  blen header_16k < LIMITS.MIN_FILE_SIZE /\
  validateAndProcess no_ffmpeg 0 handler_validator header_16k
  = Throw (ValidationFailed (FileTooSmall 44)).
Proof.
  assert (H : blen header_16k < LIMITS.MIN_FILE_SIZE) by (vm_compute; reflexivity).
  split; [exact H|].
  exact (proj1 (short_buffers_are_too_small no_ffmpeg 0 handler_validator
                  header_16k H)).
Defined.

(** X3.  For a buffer that [_parseWAVHeader] accepts with a positive
    sample rate, channel count and bit depth, the duration is the
    rational [(length - 44) / (sampleRate * numChannels * bitsPerSample/8)],
    which is not negative. *)
Theorem duration_of_parsed_header (buf : list byte) (h : headerInfo) :
  _parseWAVHeader buf = Ok h ->
  0 < sampleRate h -> 0 < numChannels h -> 0 < bitsPerSample h ->
  let bytesPerSecond :=
    (inject_Z (sampleRate h) * inject_Z (numChannels h)
     * (inject_Z (bitsPerSample h) / 8))%Q in
  duration h = Num (inject_Z (blen buf - 44) / bytesPerSecond) /\
  (0 <= inject_Z (blen buf - 44) / bytesPerSecond)%Q.
Proof.
  intros Hparse Hsr Hch Hbits.
  destruct (parse_duration buf h Hparse) as [Hlen ->].
  exact (duration_of_positive_rate (blen buf) _ _ _ Hlen Hsr Hch Hbits).
Qed.

Lemma duration_of_parsed_header_witness :
  exists h,
    _parseWAVHeader clip_16k = Ok h /\
    duration h = Num (inject_Z 956 / (inject_Z 16000 * inject_Z 1 * (inject_Z 16 / 8))).
Proof.
  eexists. split; [vm_compute; reflexivity|].
  eapply (duration_of_parsed_header clip_16k);
    [vm_compute; reflexivity | reflexivity..].
Defined.

End WavProofs.

(* ===================================================================== *)
(** * Properties of the transcription client *)
(* ===================================================================== *)

Module SttProofs.

Import Stt Spec Samples.
Local Open Scope string_scope.

Lemma errorMessages_listed (status : Z) :
  In status listed ->
  exists m, errorMessages !! status = Some m /\ m <> EmptyString /\
            kind_of_message m = spec_kind_of_status status.
Proof.
  intros Hin. repeat (destruct Hin as [<-|Hin]); try contradiction;
    eexists; (split; [vm_compute; reflexivity|]); split;
      solve [discriminate | reflexivity].
Qed.

Lemma errorMessages_unlisted (status : Z) :
  ~ In status listed -> errorMessages !! status = None.
Proof.
  intros Hnot. unfold errorMessages.
  rewrite !lookup_insert_ne; [apply lookup_empty|..];
    intros <-; apply Hnot; cbn; tauto.
Qed.

Lemma or_else_some (m d : string) :
  m <> EmptyString -> or_else (Some m) d = m.
Proof. destruct m; [congruence|reflexivity]. Qed.

(** C5, as stated, fails for 502: a 5xx code, but the rejection is the
    generic text that any unlisted code gets, not an upstream-unavailable
    error. *)
Lemma status_502_gets_the_generic_error :
  spec_kind_of_status 502 = Some UpstreamUnavailable /\
  transcribeWAVFile clip_16k (End_ bad_gateway)
  = Reject "API error 502: Bad Gateway" /\
  kind_of_message "API error 502: Bad Gateway" = None.
Proof. repeat split; vm_compute; reflexivity. Qed.

(** C5, amended.  For a buffer that passes the size check and a response
    with a status code other than 200, [transcribeWAVFile] rejects.  For
    400, 401, 403, 413, 429, 500 and 503 the message is the table entry,
    of the kind the specification assigns (500 and 503: upstream
    unavailable).  For every other code, the other 5xx included, the
    message is "API error <code>: <first 200 characters of the body>". *)
Theorem status_codes_map_to_errors (audioBuffer : list byte) (r : response) :
  precheck audioBuffer = None ->
  statusCode r <> 200%Z ->
  exists message,
    transcribeWAVFile audioBuffer (End_ r) = Reject message /\
    (In (statusCode r) listed ->
       errorMessages !! statusCode r = Some message /\
       kind_of_message message = spec_kind_of_status (statusCode r)) /\
    (~ In (statusCode r) listed -> message = generic_message r).
Proof.
  intros Hpre Hstatus.
  unfold transcribeWAVFile. rewrite Hpre. cbn [settle]. unfold on_end.
  apply Z.eqb_neq in Hstatus. rewrite Hstatus.
  destruct (decide (In (statusCode r) listed)) as [Hin|Hnot].
  - destruct (errorMessages_listed _ Hin) as (m & Hm & Hne & Hkind).
    exists m. rewrite Hm, (or_else_some _ _ Hne).
    split; [reflexivity|]. split; [auto|contradiction].
  - eexists. rewrite (errorMessages_unlisted _ Hnot). cbn [or_else].
    split; [reflexivity|]. split; [contradiction|reflexivity].
Qed.

Lemma status_codes_map_to_errors_witness :
  precheck clip_16k = None /\
  statusCode service_unavailable <> 200%Z /\
  exists message,
    transcribeWAVFile clip_16k (End_ service_unavailable)
    = Reject message /\
    kind_of_message message = Some UpstreamUnavailable.
Proof.
  assert (Hpre : precheck clip_16k = None) by (vm_compute; reflexivity).
  assert (Hst : statusCode service_unavailable <> 200%Z) by discriminate.
  split; [exact Hpre|]. split; [exact Hst|].
  destruct (status_codes_map_to_errors clip_16k service_unavailable
              Hpre Hst) as (message & Hrej & Hlisted & _).
  exists message. split; [exact Hrej|].
  destruct Hlisted as [_ Hkind]; [cbn; tauto|]. exact Hkind.
Defined.

End SttProofs.

(* ===================================================================== *)
(** * Properties of the connection handler *)
(* ===================================================================== *)

Module SessionProofs.

Import Session Samples.

(** ** The guards of the message handler *)

(** After the guards the handler is a three-way decision. *)
Lemma on_message_admitted now m st :
  admitted now m st ->
  on_message now m st =
    if isProcessing (vars st) then set_processingQueue [m] st
    else if (CONFIG.PROCESSING.MAX_ERRORS <=? consecutiveErrors (vars st))%Z then
      setTimeout ResetErrors CONFIG.PROCESSING.COOLDOWN_TIME now
        (send (ErrorOnly "Service temporarily unavailable due to errors"%string) st)
    else suspend (AwaitValidation now)
           (set_lastProcessTime now (set_isProcessing true st)).
Proof.
  intros (Hne & Hrate & Hmin & Hmax). unfold on_message.
  rewrite (proj2 (Z.eqb_neq _ _) Hne).
  rewrite (proj2 (Z.ltb_ge _ _) Hrate).
  rewrite (proj2 (Z.ltb_ge _ _) Hmax).
  rewrite (proj2 (Z.ltb_ge _ _) Hmin).
  reflexivity.
Qed.

(** A message stopped by a guard changes nothing but, when it is too
    large, the list of sent messages. *)
Lemma on_message_not_admitted now m st :
  ~ admitted now m st ->
  on_message now m st = st \/
  on_message now m st = send (ErrorOnly "Audio file too large (max 50MB)"%string) st.
Proof.
  intros Hnot. unfold on_message.
  destruct (Wav.blen m =? 0)%Z eqn:E0; [auto|].
  destruct (_ <? CONFIG.PROCESSING.MIN_INTERVAL)%Z eqn:E1; [auto|].
  destruct (CONFIG.PROCESSING.MAX_FILE_SIZE <? _)%Z eqn:E2; [auto|].
  destruct (_ <? CONFIG.PROCESSING.MIN_FILE_SIZE)%Z eqn:E3; [auto|].
  exfalso. apply Hnot. unfold admitted.
  apply Z.eqb_neq in E0. apply Z.ltb_ge in E1, E2, E3. auto.
Qed.

(** ** What each handler does to the four variables *)

Lemma vars_on_message now m st :
  vars (on_message now m st) = vars st \/
  vars (on_message now m st) = vars (set_processingQueue [m] st) \/
  vars (on_message now m st)
  = vars (set_lastProcessTime now (set_isProcessing true st)).
Proof.
  unfold on_message. repeat case_match; auto.
Qed.

Lemma vars_finish now st :
  vars (finish now st) = vars (set_isProcessing false st) \/
  vars (finish now st) = vars (set_processingQueue [] (set_isProcessing false st)).
Proof. unfold finish. case_match; auto. Qed.

Lemma queue_on_catch message st :
  processingQueue (vars (on_catch message st)) = processingQueue (vars st).
Proof. reflexivity. Qed.

Lemma queue_on_transcript now t0 h transcript st :
  processingQueue (vars (on_transcript now t0 h transcript st))
  = processingQueue (vars st).
Proof. unfold on_transcript. case_match; reflexivity. Qed.

Lemma last_on_transcript now t0 h transcript st :
  lastProcessTime (vars (on_transcript now t0 h transcript st))
  = lastProcessTime (vars st).
Proof. unfold on_transcript. case_match; reflexivity. Qed.

Lemma queue_finish now st :
  processingQueue (vars (finish now st)) = processingQueue (vars st) \/
  processingQueue (vars (finish now st)) = [].
Proof. destruct (vars_finish now st) as [-> | ->]; auto. Qed.

Lemma last_finish now st :
  lastProcessTime (vars (finish now st)) = lastProcessTime (vars st).
Proof. destruct (vars_finish now st) as [-> | ->]; reflexivity. Qed.

(** ** The queue holds at most one message *)

Lemma queue_bounded_on_message now m st :
  queue_bounded st -> queue_bounded (on_message now m st).
Proof.
  unfold queue_bounded. intros H.
  destruct (vars_on_message now m st) as [-> | [-> | ->]]; cbn; auto.
Qed.

Lemma queue_bounded_finish now st :
  queue_bounded st -> queue_bounded (finish now st).
Proof.
  unfold queue_bounded. intros H.
  destruct (queue_finish now st) as [-> | ->]; cbn; auto.
Qed.

Lemma queue_bounded_step st e st' :
  step st e = Some st' -> queue_bounded st -> queue_bounded st'.
Proof.
  destruct e as [now m|now task r|now task x|now handle| |]; cbn [step].
  - destruct (isOpen st); [|discriminate]. intros [= <-].
    apply queue_bounded_on_message.
  - unfold on_validated.
    destruct (awaiting st !! task) as [[t0|t0 h]|]; try discriminate.
    destruct r as [v|message].
    + destruct (Stt.precheck _); intros [= <-] H; [|exact H].
      apply queue_bounded_finish. exact H.
    + intros [= <-] H. apply queue_bounded_finish. exact H.
  - unfold on_transcribed.
    destruct (awaiting st !! task) as [[t0|t0 h]|]; try discriminate.
    destruct (Stt.settle x); intros [= <-] H; apply queue_bounded_finish.
    + unfold queue_bounded. rewrite queue_on_transcript. exact H.
    + exact H.
  - unfold on_timer.
    destruct (timers st !! handle) as [[due cb]|]; [|discriminate].
    destruct (due <=? now)%Z; [|discriminate].
    intros [= <-] H. destruct cb; try exact H.
    destruct (isOpen _); [|exact H].
    apply queue_bounded_on_message. exact H.
  - destruct (isOpen st); [|discriminate]. intros [= <-] _.
    unfold queue_bounded. cbn. lia.
  - intros [= <-] _. unfold queue_bounded. cbn. lia.
Qed.

Lemma queue_bounded_reachable st : reachable st -> queue_bounded st.
Proof.
  induction 1 as [|st e st' _ IH Hstep].
  - unfold queue_bounded. cbn. lia.
  - exact (queue_bounded_step st e st' Hstep IH).
Qed.

(** ** Rate limiting *)

Lemma last_on_message now m st :
  lastProcessTime (vars (on_message now m st)) = lastProcessTime (vars st) \/
  lastProcessTime (vars (on_message now m st)) = now.
Proof.
  destruct (vars_on_message now m st) as [-> | [-> | ->]]; cbn; auto.
Qed.

Lemma last_step_lower_bound since st e st' :
  step st e = Some st' -> no_message_since since e ->
  since <= lastProcessTime (vars st) -> since <= lastProcessTime (vars st').
Proof.
  destruct e as [now m|now task r|now task x|now handle| |]; cbn [step];
    intros Hstep Hev Hlast.
  - contradiction.
  - unfold on_validated in Hstep.
    destruct (awaiting st !! task) as [[t0|t0 h]|]; try discriminate.
    destruct r as [v|message]; [destruct (Stt.precheck _)|];
      injection Hstep as <-; rewrite ?last_finish; exact Hlast.
  - unfold on_transcribed in Hstep.
    destruct (awaiting st !! task) as [[t0|t0 h]|]; try discriminate.
    destruct (Stt.settle x); injection Hstep as <-;
      rewrite last_finish, ?last_on_transcript; exact Hlast.
  - unfold on_timer in Hstep.
    destruct (timers st !! handle) as [[due cb]|]; [|discriminate].
    destruct (due <=? now)%Z; [|discriminate].
    injection Hstep as <-. destruct cb; try exact Hlast.
    destruct (isOpen _); [|exact Hlast].
    destruct (last_on_message now queuedMessage (clearTimeout handle st))
      as [-> | ->]; [exact Hlast | exact Hev].
  - destruct (isOpen st); [|discriminate]. injection Hstep as <-. exact Hlast.
  - injection Hstep as <-. exact Hlast.
Qed.

Lemma last_run_lower_bound since es st st' :
  run st es = Some st' -> Forall (no_message_since since) es ->
  since <= lastProcessTime (vars st) -> since <= lastProcessTime (vars st').
Proof.
  revert st. induction es as [|e es IH]; intros st Hrun Hall Hlast.
  - injection Hrun as <-. exact Hlast.
  - cbn [run] in Hrun. destruct (step st e) as [st1|] eqn:Hstep; [|discriminate].
    apply Forall_cons in Hall as [He Hes].
    apply (IH st1 Hrun Hes). exact (last_step_lower_bound since st e st1 Hstep He Hlast).
Qed.

Lemma on_message_begins now m st :
  admitted now m st -> isProcessing (vars st) = false ->
  consecutiveErrors (vars st) < CONFIG.PROCESSING.MAX_ERRORS ->
  begins_processing now m st.
Proof.
  intros Hadm Hidle Herr. unfold begins_processing.
  rewrite (on_message_admitted now m st Hadm), Hidle.
  rewrite (proj2 (Z.leb_gt _ _) Herr). reflexivity.
Qed.

Lemma on_message_rate_limited now m st :
  now - lastProcessTime (vars st) < CONFIG.PROCESSING.MIN_INTERVAL ->
  on_message now m st = st.
Proof.
  intros H. unfold on_message.
  destruct (Wav.blen m =? 0)%Z; [reflexivity|].
  rewrite (proj2 (Z.ltb_lt _ _) H). reflexivity.
Qed.

(** C4.  A message received less than 1000 ms after the last message
    began processing is dropped: the handler returns the state it got,
    so no processing starts, nothing is sent and no variable changes.
    Hence when a message begins processing at [now1], a second message
    at [now2 < now1 + 1000] is dropped, whatever the session did in
    between (validation or transcription settling, timeouts running, the
    socket closing): of the two, one is processed. *)
Theorem rate_limited_message_is_dropped :
  (forall st now m,
     now - lastProcessTime (vars st) < CONFIG.PROCESSING.MIN_INTERVAL ->
     on_message now m st = st) /\
  (forall st now1 m1 es st' now2 m2,
     begins_processing now1 m1 st ->
     run (on_message now1 m1 st) es = Some st' ->
     Forall (no_message_since now1) es ->
     now2 - now1 < CONFIG.PROCESSING.MIN_INTERVAL ->
     on_message now2 m2 st' = st').
Proof.
  split; [intros st now m; apply on_message_rate_limited|].
  intros st now1 m1 es st' now2 m2 Hbegin Hrun Hall Hnow2.
  apply on_message_rate_limited.
  assert (Hlast : now1 <= lastProcessTime (vars (on_message now1 m1 st)))
    by (rewrite Hbegin; cbn; lia).
  pose proof (last_run_lower_bound now1 es _ st' Hrun Hall Hlast). lia.
Qed.

Lemma rate_limited_message_is_dropped_witness :
  5400 - lastProcessTime (vars (on_message 5000 message_A init))
    < CONFIG.PROCESSING.MIN_INTERVAL /\
  on_message 5400 message_B (on_message 5000 message_A init)
  = on_message 5000 message_A init /\
  exists st',
    run (on_message 5000 message_A init)
      [Validated 5050 0 (Throw "WAV validation failed: fmt chunk not found"%string)]
    = Some st' /\
    isProcessing (vars st') = false /\
    on_message 5400 message_B st' = st'.
Proof.
  assert (H : 5400 - lastProcessTime (vars (on_message 5000 message_A init))
              < CONFIG.PROCESSING.MIN_INTERVAL) by (vm_compute; reflexivity).
  split; [exact H|]. split.
  - exact (proj1 rate_limited_message_is_dropped
             (on_message 5000 message_A init) 5400 message_B H).
  - eexists. split; [vm_compute; reflexivity|]. split; [reflexivity|].
    eapply (proj2 rate_limited_message_is_dropped init 5000 message_A
              [Validated 5050 0 (Throw "WAV validation failed: fmt chunk not found"%string)]
              _ 5400 message_B).
    + vm_compute. reflexivity.
    + vm_compute. reflexivity.
    + repeat constructor.
    + vm_compute. reflexivity.
Defined.

(** ** Cooldown *)

Lemma on_timer_ResetErrors st handle due now :
  timers st !! handle = Some (due, ResetErrors) ->
  on_timer now handle st
  = if (due <=? now)%Z
    then Some (set_consecutiveErrors 0 (clearTimeout handle st))
    else None.
Proof. intros H. unfold on_timer. rewrite H. reflexivity. Qed.

(** C2.  A message that reaches the decision point (past the empty, rate
    and size checks, with no processing under way) while
    [consecutiveErrors >= 5] is rejected at once: the handler sends the
    service-unavailable error, sets the timeout that resets the counter
    30000 ms later, and returns.  No handler invocation is suspended, so
    neither the validator nor the transcription client is called, and no
    variable changes.  The timeout cannot run before it is due; when it
    runs the counter is 0, and a message that then reaches the decision
    point on the idle session begins processing. *)
Theorem cooldown_rejects_then_recovers
    (st : State) (now : Z) (m : message) :
  admitted now m st ->
  isProcessing (vars st) = false ->
  CONFIG.PROCESSING.MAX_ERRORS <= consecutiveErrors (vars st) ->
  let st1 := on_message now m st in
  let cooldown := nextTimer st in
  let due := now + CONFIG.PROCESSING.COOLDOWN_TIME in
  sent st1
  = sent st ++ [ErrorOnly "Service temporarily unavailable due to errors"%string] /\
  awaiting st1 = awaiting st /\
  nextTask st1 = nextTask st /\
  vars st1 = vars st /\
  timers st1 = <[cooldown := (due, ResetErrors)]> (timers st) /\
  (forall now2, now2 < due -> on_timer now2 cooldown st1 = None) /\
  (forall st2 now2 now3 m3,
     timers st2 !! cooldown = Some (due, ResetErrors) ->
     due <= now2 ->
     exists st3,
       on_timer now2 cooldown st2 = Some st3 /\
       consecutiveErrors (vars st3) = 0 /\
       (isProcessing (vars st3) = false -> admitted now3 m3 st3 ->
        begins_processing now3 m3 st3)).
Proof.
  intros Hadm Hidle Herr st1 cooldown due.
  assert (Hst1 : st1 = setTimeout ResetErrors CONFIG.PROCESSING.COOLDOWN_TIME now
                         (send (ErrorOnly "Service temporarily unavailable due to errors"%string) st)).
  { subst st1. rewrite (on_message_admitted now m st Hadm), Hidle.
    rewrite (proj2 (Z.leb_le _ _) Herr). reflexivity. }
  rewrite Hst1. cbn [sent awaiting nextTask vars timers setTimeout send nextTimer].
  repeat (split; [reflexivity|]). split.
  - intros now2 Hearly.
    erewrite on_timer_ResetErrors by (cbn [timers]; apply lookup_insert_eq).
    fold due. rewrite (proj2 (Z.leb_gt _ _) Hearly). reflexivity.
  - intros st2 now2 now3 m3 Htimer Hdue.
    rewrite (on_timer_ResetErrors st2 cooldown due now2 Htimer).
    rewrite (proj2 (Z.leb_le _ _) Hdue).
    eexists. split; [reflexivity|]. split; [reflexivity|].
    intros Hidle3 Hadm3. apply on_message_begins; [exact Hadm3|exact Hidle3|].
    cbn. reflexivity.
Qed.

Lemma cooldown_rejects_then_recovers_witness :
  run init five_failures = Some after_five_failures /\
  consecutiveErrors (vars after_five_failures) = 5 /\
  sent (on_message 20000 message_B after_five_failures)
  = sent after_five_failures
      ++ [ErrorOnly "Service temporarily unavailable due to errors"%string] /\
  awaiting (on_message 20000 message_B after_five_failures)
  = awaiting after_five_failures /\
  exists st3,
    on_timer 50000 (nextTimer after_five_failures)
      (on_message 20000 message_B after_five_failures) = Some st3 /\
    consecutiveErrors (vars st3) = 0.
Proof.
  split; [vm_compute; reflexivity|]. split; [vm_compute; reflexivity|].
  assert (Hadm : admitted 20000 message_B after_five_failures)
    by (repeat split; vm_compute; congruence).
  assert (Hidle : isProcessing (vars after_five_failures) = false)
    by (vm_compute; reflexivity).
  assert (Herr : CONFIG.PROCESSING.MAX_ERRORS
                 <= consecutiveErrors (vars after_five_failures))
    by (vm_compute; congruence).
  destruct (cooldown_rejects_then_recovers
              after_five_failures 20000 message_B Hadm Hidle Herr)
    as (Hsent & Hawait & _ & _ & Htimers & _ & Hreset).
  split; [exact Hsent|]. split; [exact Hawait|].
  destruct (Hreset (on_message 20000 message_B after_five_failures)
              50000 60000 message_A) as (st3 & Hfire & Hzero & _).
  - rewrite Htimers. apply lookup_insert_eq.
  - vm_compute. congruence.
  - exists st3. split; [exact Hfire | exact Hzero].
Defined.

(** ** The single-slot queue *)

Lemma passes_guards_admitted now m st :
  passes_guards now m st = true <-> admitted now m st.
Proof.
  unfold passes_guards, admitted.
  rewrite !andb_true_iff, negb_true_iff, Z.eqb_neq, !Z.leb_le. tauto.
Qed.

Lemma queue_on_message_processing now m st :
  isProcessing (vars st) = true ->
  vars (on_message now m st)
  = if passes_guards now m st then vars (set_processingQueue [m] st) else vars st.
Proof.
  intros Hproc. destruct (passes_guards now m st) eqn:Hg.
  - apply passes_guards_admitted in Hg.
    rewrite (on_message_admitted now m st Hg), Hproc. reflexivity.
  - assert (Hnot : ~ admitted now m st)
      by (rewrite <- passes_guards_admitted; congruence).
    destruct (on_message_not_admitted now m st Hnot) as [-> | ->]; reflexivity.
Qed.

Lemma deliver_processing ms st :
  isProcessing (vars st) = true ->
  isProcessing (vars (deliver ms st)) = true /\
  lastProcessTime (vars (deliver ms st)) = lastProcessTime (vars st) /\
  processingQueue (vars (deliver ms st))
  = match last_admitted ms st with
    | Some m => [m]
    | None => processingQueue (vars st)
    end.
Proof.
  revert st. induction ms as [|[now m] ms IH]; intros st Hproc.
  - cbn. auto.
  - cbn [deliver].
    pose proof (queue_on_message_processing now m st Hproc) as Hv.
    assert (Hproc1 : isProcessing (vars (on_message now m st)) = true)
      by (rewrite Hv; destruct (passes_guards now m st); exact Hproc).
    assert (Hlast1 : lastProcessTime (vars (on_message now m st))
                     = lastProcessTime (vars st))
      by (rewrite Hv; destruct (passes_guards now m st); reflexivity).
    destruct (IH _ Hproc1) as (Hp & Hl & Hq).
    split; [exact Hp|]. split; [congruence|].
    rewrite Hq.
    assert (Hsame : forall p, passes_guards p.1 p.2 (on_message now m st)
                              = passes_guards p.1 p.2 st)
      by (intros p; unfold passes_guards; rewrite Hlast1; reflexivity).
    assert (Hla : last_admitted ms (on_message now m st) = last_admitted ms st).
    { unfold last_admitted. f_equal. f_equal.
      apply list_filter_iff. intros p. rewrite Hsame. reflexivity. }
    rewrite Hla. unfold last_admitted at 2. rewrite filter_cons. cbn [fst snd].
    destruct (decide (passes_guards now m st = true)) as [Hg|Hg].
    + fold (last_admitted ms st).
      destruct (filter _ ms) as [|q qs] eqn:Hf.
      * unfold last_admitted. rewrite Hf. cbn. rewrite Hv, Hg. reflexivity.
      * unfold last_admitted. rewrite Hf. rewrite last_cons_cons.
        destruct (last (q :: qs)) eqn:Hlq; [reflexivity|].
        apply last_None in Hlq. discriminate.
    + fold (last_admitted ms st).
      destruct (last_admitted ms st); [reflexivity|].
      rewrite Hv. apply not_true_is_false in Hg. rewrite Hg. reflexivity.
Qed.

Lemma finish_with_queued now st m :
  processingQueue (vars st) = [m] ->
  finish now st
  = setTimeout (EmitQueued m) 500 now
      (set_processingQueue [] (set_isProcessing false st)).
Proof.
  intros Hq. unfold finish. cbn [vars set_isProcessing with_vars processingQueue].
  rewrite Hq. reflexivity.
Qed.

Lemma on_timer_EmitQueued st handle due now m :
  timers st !! handle = Some (due, EmitQueued m) -> due <= now ->
  on_timer now handle st
  = Some (if isOpen st then on_message now m (clearTimeout handle st)
          else clearTimeout handle st).
Proof.
  intros H Hdue. unfold on_timer.
  rewrite H, (proj2 (Z.leb_le _ _) Hdue). reflexivity.
Qed.

Lemma finish_hands_over now st m :
  processingQueue (vars st) = [m] -> hands_over now m (finish now st).
Proof.
  intros Hq. rewrite (finish_with_queued now st m Hq).
  split; [reflexivity|]. split; [reflexivity|].
  eexists. cbn [timers setTimeout]. apply lookup_insert_eq.
Qed.

(** C3, as stated, fails: a message that arrives while the session is
    processing does not always replace the queue.  [message_B] arrives
    400 ms after [message_A] began processing; the rate check drops it,
    the queue stays empty, and when the cycle ends nothing is scheduled. *)
Lemma early_message_is_not_queued :
  exists st1 st2,
    step init (Message 5000 message_A) = Some st1 /\
    isProcessing (vars st1) = true /\
    step st1 (Message 5400 message_B) = Some st1 /\
    processingQueue (vars st1) = [] /\
    step st1 (Validated 5600 0 (Throw "WAV validation failed: fmt chunk not found"%string))
    = Some st2 /\
    isProcessing (vars st2) = false /\
    timers st2 = ∅.
Proof.
  do 2 eexists. split; [vm_compute; reflexivity|].
  repeat split; vm_compute; reflexivity.
Qed.

(** C3, amended.  In every reachable state the queue holds at most one
    message.  While the session is processing, each message that passes
    the empty, rate and size checks replaces the queue and every other
    message leaves it as it is, so after a series of messages the queue
    holds the last one that passed the checks (or what it held, if none
    did).  When a resumed handler leaves processing with a message
    queued, the queue is emptied and the message is handed to a timeout
    due 500 ms later, whose callback, on an open socket, runs the message
    handler on it. *)
Theorem queue_keeps_last_admitted_message :
  (forall st, reachable st -> (length (processingQueue (vars st)) <= 1)%nat) /\
  (forall st ms,
     isProcessing (vars st) = true ->
     processingQueue (vars (deliver ms st))
     = match last_admitted ms st with
       | Some m => [m]
       | None => processingQueue (vars st)
       end) /\
  (forall st now task x st' m,
     processingQueue (vars st) = [m] ->
     on_transcribed now task x st = Some st' ->
     hands_over now m st') /\
  (forall st now task r st' m,
     processingQueue (vars st) = [m] ->
     on_validated now task r st = Some st' ->
     hands_over now m st' \/
     (vars st' = vars st /\ exists t0 h,
        awaiting st' !! nextTask st = Some (AwaitTranscript t0 h))) /\
  (forall st handle due now m,
     timers st !! handle = Some (due, EmitQueued m) ->
     due <= now -> isOpen st = true ->
     on_timer now handle st = Some (on_message now m (clearTimeout handle st))).
Proof.
  split; [exact queue_bounded_reachable|].
  split; [intros st ms Hproc; apply (deliver_processing ms st Hproc)|].
  split; [|split].
  - intros st now task x st' m Hq. unfold on_transcribed.
    destruct (awaiting st !! task) as [[t0|t0 h]|]; try discriminate.
    destruct (Stt.settle x); intros [= <-]; apply finish_hands_over.
    + rewrite queue_on_transcript. exact Hq.
    + exact Hq.
  - intros st now task r st' m Hq. unfold on_validated.
    destruct (awaiting st !! task) as [[t0|t0 h]|]; try discriminate.
    destruct r as [v|message]; [destruct (Stt.precheck _)|]; intros [= <-].
    + left. apply finish_hands_over. exact Hq.
    + right. split; [reflexivity|]. do 2 eexists.
      cbn [awaiting suspend nextTask setTimeout resume]. apply lookup_insert_eq.
    + left. apply finish_hands_over. exact Hq.
  - intros st handle due now m Htimer Hdue Hopen.
    rewrite (on_timer_EmitQueued st handle due now m Htimer Hdue), Hopen.
    reflexivity.
Qed.

Lemma queue_keeps_last_admitted_message_witness :
  isProcessing (vars (on_message 5000 message_A init)) = true /\
  processingQueue (vars (deliver three_messages (on_message 5000 message_A init)))
  = [message_C].
Proof.
  assert (Hproc : isProcessing (vars (on_message 5000 message_A init)) = true)
    by (vm_compute; reflexivity).
  split; [exact Hproc|].
  rewrite (proj1 (proj2 queue_keeps_last_admitted_message)
             (on_message 5000 message_A init) three_messages Hproc).
  vm_compute. reflexivity.
Defined.

(** ** Success and the error counter *)

(** A transcript with something left after trimming is sent and resets
    the counter. *)
Lemma on_transcript_spoken now t0 h transcript st :
  truthy transcript = true -> truthy (trim transcript) = true ->
  let st' := on_transcript now t0 h transcript st in
  consecutiveErrors (vars st') = 0 /\
  sent st' = sent st ++ [Transcript (trim transcript) now (now - t0)].
Proof.
  intros H1 H2. unfold on_transcript. rewrite H1, H2. cbn. auto.
Qed.

(** An empty transcript is answered with the no-speech message, and the
    counter keeps its value. *)
Lemma on_transcript_empty now t0 h st :
  let st' := on_transcript now t0 h EmptyString st in
  consecutiveErrors (vars st') = consecutiveErrors (vars st) /\
  sent st' = sent st ++ [NoSpeech].
Proof. cbn. auto. Qed.

Lemma validated_clip_is_validated :
  Wav.validateAndProcess no_ffmpeg 3 handler_validator
    clip_16k = Ok validated_clip.
Proof. vm_compute. reflexivity. Qed.

(** C1.  A cycle that completes with an empty transcript sends the
    no-speech result but does not reset [consecutiveErrors]: after two
    failed cycles and a third that the service answers with no
    transcript, the counter is still 2.  The same cycle answered with a
    transcript resets it to 0. *)
Theorem empty_transcript_keeps_error_count :
  (exists st,
     run init (third_cycle silent_response) = Some st /\
     sent st = [ ErrorDetail "Transcription failed"
                   "WAV validation failed: WAV header parsing failed: Invalid RIFF signature";
                 ErrorDetail "Transcription failed"
                   "WAV validation failed: WAV header parsing failed: Invalid RIFF signature";
                 NoSpeech ] /\
     isProcessing (vars st) = false /\
     consecutiveErrors (vars st) = 2) /\
  (exists st,
     run init (third_cycle spoken_response) = Some st /\
     last (sent st) = Some (Transcript "Namaste" 14900 900) /\
     consecutiveErrors (vars st) = 0).
Proof.
  split; eexists; (split; [vm_compute; reflexivity|]);
    repeat split; vm_compute; reflexivity.
Qed.

End SessionProofs.

(* ===================================================================== *)
(** * Properties of mock mode *)
(* ===================================================================== *)

Module MockProofs.

Import Mock Samples.

Lemma answered_init : answered [] init.
Proof. constructor; cbn; try reflexivity; lia. Qed.

Lemma answered_on_message arr st now m :
  answered arr st -> answered (arr ++ [now]) (on_message now m st).
Proof.
  intros [Hopen Hidx Htim Hlen Hsent]. constructor; cbn.
  - exact Hopen.
  - rewrite length_app. cbn. lia.
  - rewrite Htim, drop_app_le by exact Hidx. rewrite fmap_app. reflexivity.
  - exact Hlen.
  - intros n Hn. destruct (Hsent n Hn) as (t & at_ & Harr & Hs & Hle).
    exists t, at_. split; [|auto].
    apply lookup_app_l_Some. exact Harr.
Qed.

Lemma answered_on_timer arr st now due rest :
  answered arr st -> timers st = due :: rest -> due <= now ->
  answered arr (on_timer now st).
Proof.
  intros [Hopen Hidx Htim Hlen Hsent] Hhead Hdue.
  rewrite Hhead in Htim.
  destruct (drop (mockIndex st) arr) as [|t later] eqn:Hdrop; [discriminate|].
  cbn in Htim. injection Htim as Hdue_t Hrest.
  assert (Hk : arr !! mockIndex st = Some t).
  { pose proof (take_drop (mockIndex st) arr) as Htd. rewrite Hdrop in Htd.
    rewrite <- Htd. apply list_lookup_middle. rewrite length_take. lia. }
  assert (Hlt : (mockIndex st < length arr)%nat)
    by (apply lookup_lt_is_Some; eauto).
  assert (Hdrop' : drop (S (mockIndex st)) arr = later).
  { replace (S (mockIndex st)) with (mockIndex st + 1)%nat by lia.
    rewrite <- drop_drop, Hdrop. reflexivity. }
  unfold on_timer. rewrite Hopen. constructor; cbn.
  - reflexivity.
  - lia.
  - rewrite Hhead, Hdrop'. cbn. exact Hrest.
  - rewrite length_app. cbn. lia.
  - intros n Hn. destruct (decide (n = mockIndex st)) as [->|Hne].
    + exists t, now. split; [exact Hk|]. split.
      * rewrite lookup_app_r by lia. rewrite Hlen, Nat.sub_diag. reflexivity.
      * unfold delay in Hdue_t. lia.
    + destruct (Hsent n) as (t' & at_ & Harr & Hs & Hle); [lia|].
      exists t', at_. split; [exact Harr|]. split; [|exact Hle].
      apply lookup_app_l_Some. exact Hs.
Qed.

Lemma answered_run es : forall arr st st',
  answered arr st -> run st es = Some st' ->
  existsb is_close es = false ->
  answered (arr ++ arrivals es) st'.
Proof.
  induction es as [|e es IH]; intros arr st st' Hinv Hrun Hclose.
  - injection Hrun as <-. cbn. rewrite app_nil_r. exact Hinv.
  - cbn [run] in Hrun. destruct (step st e) as [st1|] eqn:Hstep; [|discriminate].
    cbn [existsb] in Hclose. apply orb_false_iff in Hclose as [He Hes].
    destruct e as [now m|now|]; cbn [step arrivals] in *.
    + destruct (isOpen st); [|discriminate]. injection Hstep as <-.
      replace (arr ++ now :: arrivals es) with ((arr ++ [now]) ++ arrivals es)
        by (rewrite <- app_assoc; reflexivity).
      apply (IH _ _ _ (answered_on_message arr st now m Hinv) Hrun Hes).
    + destruct (timers st) as [|due rest] eqn:Hhead; [discriminate|].
      destruct (due <=? now)%Z eqn:Hdue; [|discriminate].
      injection Hstep as <-. apply Z.leb_le in Hdue.
      apply (IH _ _ _ (answered_on_timer arr st now due rest Hinv Hhead Hdue) Hrun Hes).
    + discriminate.
Qed.

Lemma successive_phrases_differ n : phrase (n mod 4) <> phrase (S n mod 4).
Proof.
  replace (S n) with (n + 1)%nat by lia.
  rewrite (Nat.Div0.add_mod n 1 4).
  pose proof (Nat.mod_upper_bound n 4 ltac:(lia)) as Hlt.
  destruct (n mod 4)%nat as [|[|[|[|k]]]]; try lia; vm_compute; discriminate.
Qed.

Lemma phrase_defined n : (n < 4)%nat -> exists text, phrase n = MockTranscript (Some text).
Proof.
  intros Hn. destruct n as [|[|[|[|k]]]]; try lia; eexists; reflexivity.
Qed.

(** C9, as stated, fails: the answer is sent only if the socket is still
    open when the timeout runs.  With no credential configured, a
    message followed by the close of the connection is received and
    never answered. *)
Lemma closed_mock_connection_leaves_message_unanswered :
  Connection.on_connection None = Connection.Mocked init /\
  arrivals mock_closed_trace = [1000] /\
  (sent <$> run init mock_closed_trace) = Some [].
Proof. repeat split; vm_compute; reflexivity. Qed.

(** C9, amended.  With no credential configured (the variable unset,
    blank, or holding the placeholder) a connection gets the handlers of
    mock mode.  On such a connection, as long as it has not been closed,
    after any sequence of messages and timeouts: message number [n]
    (counted from 0; any size, any arrival time, no check applied) is
    answered with phrase [n mod 4] of the four canned phrases, by the
    timeout set 1500 ms after its arrival; answers go out in order of
    arrival; successive phrases differ.  A further message is always
    accepted and only sets its timeout, and a due timeout always runs
    and sends the next phrase.  The mock handler has no other action: it
    validates nothing and calls no transcription client.  On a closed
    connection a timeout that runs sends nothing and leaves the phrase
    counter as it is. *)
Theorem mock_answers_round_robin
    (API_KEY : option string) (es : list event) (st : State) :
  Connection.no_credential API_KEY ->
  run init es = Some st ->
  existsb is_close es = false ->
  let arr := arrivals es in
  Connection.on_connection API_KEY = Connection.Mocked init /\
  length (sent st) = mockIndex st /\
  timers st = delay <$> drop (mockIndex st) arr /\
  (forall n t,
     arr !! n = Some t -> (n < mockIndex st)%nat ->
     exists at_, sent st !! n = Some (at_, phrase (n mod 4)) /\ t + 1500 <= at_) /\
  (forall n, exists text, phrase (n mod 4) = MockTranscript (Some text)) /\
  (forall n, phrase (n mod 4) <> phrase (S n mod 4)) /\
  (forall now m,
     step st (Message now m) = Some (on_message now m st) /\
     timers (on_message now m st) = timers st ++ [now + 1500] /\
     sent (on_message now m st) = sent st) /\
  (forall now due rest,
     timers st = due :: rest -> due <= now ->
     step st (Timer now) = Some (on_timer now st) /\
     sent (on_timer now st) = sent st ++ [(now, phrase (mockIndex st mod 4))]) /\
  (forall closed now,
     isOpen closed = false ->
     sent (on_timer now closed) = sent closed /\
     mockIndex (on_timer now closed) = mockIndex closed).
Proof.
  intros Hkey Hrun Hclose arr.
  destruct (answered_run es [] init st answered_init Hrun Hclose)
    as [Hopen Hidx Htim Hlen Hsent].
  cbn [app] in *. fold arr in Hidx, Htim, Hsent.
  split.
  { unfold Connection.on_connection, Connection.mockMode.
    destruct Hkey as [->|(key & -> & [Hblank| ->])]; [reflexivity|..].
    - rewrite Hblank. cbn [String.eqb]. rewrite !orb_true_r. reflexivity.
    - rewrite String.eqb_refl, orb_true_r. reflexivity. }
  split; [exact Hlen|]. split; [exact Htim|].
  split; [|split; [|split; [|split; [|split]]]].
  - intros n t Harr Hn. destruct (Hsent n Hn) as (t' & at_ & Harr' & Hs & Hle).
    exists at_. split; [exact Hs|]. congruence.
  - intros n. apply phrase_defined. apply Nat.mod_upper_bound. lia.
  - exact successive_phrases_differ.
  - intros now m. cbn [step]. rewrite Hopen. auto.
  - intros now due rest Hhead Hdue. cbn [step]. rewrite Hhead.
    rewrite (proj2 (Z.leb_le _ _) Hdue). split; [reflexivity|].
    unfold on_timer. rewrite Hopen. reflexivity.
  - intros closed now Hclosed. unfold on_timer. rewrite Hclosed.
    split; reflexivity.
Qed.

Lemma mock_answers_round_robin_witness :
  exists st,
    run init mock_trace = Some st /\
    existsb is_close mock_trace = false /\
    sent st = [(2500, phrase 0); (2600, phrase 1); (4050, phrase 2)] /\
    exists at_, sent st !! 2%nat = Some (at_, phrase (2 mod 4)) /\ 2550 + 1500 <= at_.
Proof.
  eexists. split; [vm_compute; reflexivity|].
  split; [reflexivity|]. split; [reflexivity|].
  eapply (mock_answers_round_robin None mock_trace);
    [left; reflexivity | vm_compute; reflexivity | ..];
    reflexivity || (cbn; lia).
Defined.

End MockProofs.

(* ===================================================================== *)
(** * Further properties of the WAV validator *)
(* ===================================================================== *)

Module WavExtras.

Import Wav Samples WavProofs.

(** ** quickValidate against the parser *)

Lemma readUInt16LE_throws buf off e :
  readUInt16LE buf off = Throw e -> e = RangeError off (blen buf).
Proof. unfold readUInt16LE. destruct (_ && _); congruence. Qed.

Lemma readUInt32LE_throws buf off e :
  readUInt32LE buf off = Throw e -> e = RangeError off (blen buf).
Proof. unfold readUInt32LE. destruct (_ && _); congruence. Qed.

Lemma find_fmt_throws fuel buf off e :
  find_fmt fuel buf off = Some (Throw e) -> late_error e.
Proof.
  revert off. induction fuel as [|fuel IH]; intros off; cbn [find_fmt].
  - destruct (off <? blen buf - 8); discriminate.
  - destruct (off <? blen buf - 8); [|discriminate].
    destruct (readUInt32LE buf (off + 4)) as [chunkSize|e'] eqn:R.
    + destruct (bytes_eqb _ _); [discriminate|]. apply IH.
    + intros [= <-]. right. apply readUInt32LE_throws in R. eauto.
Qed.

(** Past the size and signature checks, the parser returns a header or
    throws one of the late errors, wrapped. *)
Lemma parse_after_signatures (buf : list byte) :
  (blen buf <? HEADER.MIN_HEADER_SIZE) = false ->
  bytes_eqb (subarray buf 0 4) HEADER.RIFF_SIGNATURE = true ->
  bytes_eqb (subarray buf 8 12) HEADER.WAVE_SIGNATURE = true ->
  (exists h, _parseWAVHeader buf = Ok h) \/
  (exists e, _parseWAVHeader buf = Throw (HeaderParsingFailed e) /\ late_error e).
Proof.
  intros E0 E1 E2.
  destruct (parse_fuel_total buf) as (r & Hfuel & ->).
  unfold parse_fuel, parse_body in Hfuel. rewrite E0, E1, E2 in Hfuel.
  cbn [negb] in Hfuel.
  destruct (find_fmt (length buf) buf 12) as [[[off size]|e]|] eqn:Hfind;
    cbn [option_map rbind rethrow] in Hfuel; [| |discriminate].
  - destruct (size =? 0).
    { injection Hfuel as <-. right. eexists. split; [reflexivity|]. left. reflexivity. }
    repeat match type of Hfuel with
           | context [rbind ?r _] =>
               let R := fresh "R" in
               destruct r eqn:R; cbn [rbind rethrow] in Hfuel;
               [| injection Hfuel as <-; right; eexists; split; [reflexivity|];
                  right;
                  first [ apply readUInt16LE_throws in R
                        | apply readUInt32LE_throws in R ];
                  eauto ]
           end.
    injection Hfuel as <-. left. eauto.
  - injection Hfuel as <-. right. eexists. split; [reflexivity|].
    exact (find_fmt_throws _ _ _ _ Hfind).
Qed.

(** X4.  [quickValidate] refuses exactly the buffers that
    [_parseWAVHeader] refuses for their size or for one of the two
    signatures: it returns [false] if and only if the parser throws
    "too small to contain valid header", "Invalid RIFF signature" or
    "Invalid WAVE signature".  So every buffer the parser accepts passes
    [quickValidate]. *)
Theorem quickValidate_agrees_with_parser (buf : list byte) :
  (quickValidate buf = false <->
   _parseWAVHeader buf = Throw HeaderTooSmall \/
   _parseWAVHeader buf = Throw (HeaderParsingFailed InvalidRIFF) \/
   _parseWAVHeader buf = Throw (HeaderParsingFailed InvalidWAVE)) /\
  (forall h, _parseWAVHeader buf = Ok h -> quickValidate buf = true).
Proof.
  assert (Hiff : quickValidate buf = false <->
            _parseWAVHeader buf = Throw HeaderTooSmall \/
            _parseWAVHeader buf = Throw (HeaderParsingFailed InvalidRIFF) \/
            _parseWAVHeader buf = Throw (HeaderParsingFailed InvalidWAVE)).
  { unfold quickValidate.
    destruct (blen buf <? HEADER.MIN_HEADER_SIZE) eqn:E0.
    { split; [intros _; left|reflexivity].
      unfold _parseWAVHeader, parse_fuel. rewrite E0. reflexivity. }
    destruct (bytes_eqb (subarray buf 0 4) HEADER.RIFF_SIGNATURE) eqn:E1.
    2:{ split; [intros _; right; left|reflexivity].
        unfold _parseWAVHeader, parse_fuel, parse_body. rewrite E0, E1.
        reflexivity. }
    destruct (bytes_eqb (subarray buf 8 12) HEADER.WAVE_SIGNATURE) eqn:E2.
    2:{ split; [intros _; right; right|reflexivity].
        unfold _parseWAVHeader, parse_fuel, parse_body. rewrite E0, E1, E2.
        reflexivity. }
    cbn [andb]. split; [discriminate|].
    destruct (parse_after_signatures buf E0 E1 E2)
      as [[h ->]|(e & -> & [->|(o & l & ->)])];
      intros [H|[H|H]]; discriminate. }
  split; [exact Hiff|].
  intros h Hok. destruct (quickValidate buf); [reflexivity|].
  destruct (proj1 Hiff eq_refl) as [H|[H|H]]; rewrite Hok in H; discriminate.
Qed.

(** ** The verdict, check by check *)

(** X5.  The verdict of [_validateWAVFormat] in closed form.  At the
    levels [BASIC] and [STANDARD] a header is valid exactly when its
    format code is 1 and its duration does not exceed 600 s, whatever its
    sample rate, channel count and bit depth; the two levels give the
    same result.  Under [STRICT] it must also have 16000 Hz, 1 channel
    and 16 bits.  Hence what is valid under [STRICT] is valid at every
    level. *)
Theorem verdict_in_closed_form (h : headerInfo) :
  (forall level,
     isValid (_validateWAVFormat level h)
     = negb (notPCM h) && negb (tooLong h)
       && (negb (is_strict level)
           || (negb (sampleRateDiffers h) && negb (channelsDiffer h)
               && negb (bitDepthDiffers h)))) /\
  _validateWAVFormat BASIC h = _validateWAVFormat STANDARD h /\
  (forall level,
     isValid (_validateWAVFormat STRICT h) = true ->
     isValid (_validateWAVFormat level h) = true).
Proof.
  assert (Hform : forall level,
     isValid (_validateWAVFormat level h)
     = negb (notPCM h) && negb (tooLong h)
       && (negb (is_strict level)
           || (negb (sampleRateDiffers h) && negb (channelsDiffer h)
               && negb (bitDepthDiffers h)))).
  { intros level.
    unfold _validateWAVFormat, push_mismatch, notPCM, tooLong,
      sampleRateDiffers, channelsDiffer, bitDepthDiffers.
    cbn [isValid].
    destruct (negb (audioFormat h =? 1)),
      (negb (sampleRate h =? SARVAM_PREFERRED.sampleRate)),
      (negb (numChannels h =? SARVAM_PREFERRED.channels)),
      (negb (bitsPerSample h =? SARVAM_PREFERRED.bitDepth)),
      (js_gt (duration h) (num LIMITS.MAX_DURATION)),
      (byteRateMismatch h), (is_strict level); reflexivity. }
  split; [exact Hform|]. split; [reflexivity|].
  intros level. rewrite !Hform. cbn [is_strict negb orb].
  destruct (notPCM h), (tooLong h), (sampleRateDiffers h), (channelsDiffer h),
    (bitDepthDiffers h), (is_strict level); cbn; congruence.
Qed.

(** X6.  Every check of [_validateWAVFormat] that fails is reported once,
    as an error or as a warning, and nothing else is reported: the two
    lists together have one entry per failed check.  The format-code and
    duration checks always report errors and the byte-rate check always a
    warning; the three profile checks report errors under [STRICT] and
    warnings otherwise. *)
Theorem every_failed_check_is_reported_once
    (level : VALIDATION_LEVELS) (h : headerInfo) :
  let profile :=
    (count (sampleRateDiffers h) + count (channelsDiffer h)
     + count (bitDepthDiffers h))%nat in
  let r := _validateWAVFormat level h in
  length (errors r)
  = (count (notPCM h) + count (tooLong h)
     + (if is_strict level then profile else 0))%nat /\
  length (warnings r)
  = (count (byteRateMismatch h)
     + (if is_strict level then 0 else profile))%nat.
Proof.
  unfold _validateWAVFormat, push_mismatch, notPCM, tooLong,
    sampleRateDiffers, channelsDiffer, bitDepthDiffers.
  cbn [errors warnings].
  destruct (negb (audioFormat h =? 1)),
    (negb (sampleRate h =? SARVAM_PREFERRED.sampleRate)),
    (negb (numChannels h =? SARVAM_PREFERRED.channels)),
    (negb (bitsPerSample h =? SARVAM_PREFERRED.bitDepth)),
    (js_gt (duration h) (num LIMITS.MAX_DURATION)),
    (byteRateMismatch h), (is_strict level); split; reflexivity.
Qed.

(** ** validateAndProcess and ffmpeg *)

(** X7.  [validateAndProcess] consults ffmpeg only in its auto-fix
    branch and only on the input buffer: when the branch is not reached
    (size out of limits, header not parsed, format valid, or [autoFix]
    off) the outcome is the same whatever ffmpeg would do, and two
    ffmpegs that agree on the input buffer give the same outcome. *)
Theorem ffmpeg_is_consulted_only_to_correct
    (ffmpeg1 ffmpeg2 : list byte -> result error (list byte))
    (elapsed : Z) (this : WAVValidator) (buf : list byte) :
  needsCorrection this buf = false \/ ffmpeg1 buf = ffmpeg2 buf ->
  validateAndProcess ffmpeg1 elapsed this buf
  = validateAndProcess ffmpeg2 elapsed this buf.
Proof.
  unfold needsCorrection, validateAndProcess.
  destruct (_validateFileSize buf) as [[]|e]; [|reflexivity].
  destruct (_parseWAVHeader buf) as [h|e]; [|reflexivity].
  cbn [rbind].
  destruct (negb (isValid (_validateWAVFormat (validationLevel this) h))
            && autoFix this) eqn:Hfix.
  - intros [H|H]; [discriminate|]. rewrite H. reflexivity.
  - intros _. reflexivity.
Qed.

Lemma ffmpeg_is_consulted_only_to_correct_witness :
  needsCorrection handler_validator clip_16k = false /\
  validateAndProcess no_ffmpeg 3 handler_validator clip_16k
  = validateAndProcess ffmpeg_to_16k 3 handler_validator clip_16k.
Proof.
  assert (H : needsCorrection handler_validator clip_16k = false)
    by (vm_compute; reflexivity).
  split; [exact H|].
  exact (ffmpeg_is_consulted_only_to_correct no_ffmpeg ffmpeg_to_16k 3
           handler_validator clip_16k (or_introl H)).
Defined.

(** X8.  A buffer that needs no correction and is accepted is handed on
    byte for byte: the result carries the input buffer itself, marked as
    not processed, with equal original and final sizes, and the header
    that was parsed from it. *)
Theorem accepted_buffer_is_handed_on_unchanged
    (ffmpeg : list byte -> result error (list byte))
    (elapsed : Z) (this : WAVValidator) (buf : list byte) (r : processResult) :
  needsCorrection this buf = false ->
  validateAndProcess ffmpeg elapsed this buf = Ok r ->
  processedBuffer r = buf /\
  wasProcessed (pr_metadata r) = false /\
  finalSize (pr_metadata r) = originalSize (pr_metadata r) /\
  _parseWAVHeader buf = Ok (header (pr_metadata r)).
Proof.
  unfold needsCorrection. intros Hno Hret.
  destruct (validateAndProcess_returns ffmpeg elapsed this buf r Hret)
    as (_ & Hsize & h & Hparse & Hheader & Hcases).
  rewrite Hsize, Hparse in Hno.
  destruct Hcases as [(Hvalid & Hbuf & Hwas)|(Hinvalid & Hauto & _)].
  - unfold validateAndProcess in Hret. rewrite Hsize, Hparse in Hret.
    cbn [rbind] in Hret. rewrite Hvalid in Hret. cbn in Hret.
    injection Hret as <-. cbn. auto.
  - rewrite Hinvalid, Hauto in Hno. discriminate.
Qed.

Lemma accepted_buffer_is_handed_on_unchanged_witness :
  exists r,
    validateAndProcess no_ffmpeg 3 handler_validator clip_16k = Ok r /\
    processedBuffer r = clip_16k.
Proof.
  eexists. split; [vm_compute; reflexivity|].
  eapply (accepted_buffer_is_handed_on_unchanged no_ffmpeg 3 handler_validator
            clip_16k); vm_compute; reflexivity.
Defined.

(** X9.  A correction is attempted once.  If ffmpeg fails, its error is
    thrown (wrapped); if its output does not parse, the parse error is
    thrown; if it parses but is still invalid, the error is "could not be
    corrected automatically".  Otherwise the output of ffmpeg is
    returned, whatever its size, marked as processed; [originalSize] and
    the header in the metadata are those of the input buffer, not of the
    buffer returned. *)
Theorem correction_is_attempted_once
    (ffmpeg : list byte -> result error (list byte))
    (elapsed : Z) (this : WAVValidator) (buf : list byte) :
  needsCorrection this buf = true ->
  exists h,
    _parseWAVHeader buf = Ok h /\
    isValid (_validateWAVFormat (validationLevel this) h) = false /\
    validateAndProcess ffmpeg elapsed this buf
    = match ffmpeg buf with
      | Throw e => Throw (ValidationFailed e)
      | Ok fixed =>
          match _parseWAVHeader fixed with
          | Throw e => Throw (ValidationFailed e)
          | Ok h' =>
              if isValid (_validateWAVFormat (validationLevel this) h')
              then Ok {| pr_isValid := true;
                         processedBuffer := fixed;
                         pr_metadata :=
                           {| header := h; wasProcessed := true;
                              processingTime := elapsed;
                              originalSize := blen buf;
                              finalSize := blen fixed |} |}
              else Throw (ValidationFailed NotCorrectable)
          end
      end.
Proof.
  unfold needsCorrection, validateAndProcess.
  destruct (_validateFileSize buf) as [[]|e]; [|discriminate].
  destruct (_parseWAVHeader buf) as [h|e]; [|discriminate].
  intros Hfix. exists h. split; [reflexivity|].
  apply andb_true_iff in Hfix as [Hinv Hauto].
  split; [apply negb_true_iff; exact Hinv|].
  cbn [rbind]. rewrite Hinv, Hauto. cbn [andb].
  destruct (ffmpeg buf) as [fixed|e]; [|reflexivity]. cbn [rbind].
  destruct (_parseWAVHeader fixed) as [h'|e]; [|reflexivity]. cbn [rbind].
  destruct (isValid (_validateWAVFormat (validationLevel this) h')); reflexivity.
Qed.

Lemma correction_is_attempted_once_witness :
  needsCorrection handler_validator clip_adpcm = true /\
  exists r,
    validateAndProcess ffmpeg_to_16k 3 handler_validator clip_adpcm = Ok r /\
    processedBuffer r = clip_16k /\
    audioFormat (header (pr_metadata r)) = 2.
Proof.
  assert (H : needsCorrection handler_validator clip_adpcm = true)
    by (vm_compute; reflexivity).
  split; [exact H|].
  destruct (correction_is_attempted_once ffmpeg_to_16k 3 handler_validator
              clip_adpcm H) as (h & Hparse & _ & Hres).
  vm_compute in Hparse. injection Hparse as <-.
  eexists. split; [rewrite Hres; vm_compute; reflexivity|].
  split; reflexivity.
Defined.

(** ** What an accepted header looks like *)

(** [_parseWAVHeader], read backwards. *)
Lemma parse_inversion (buf : list byte) (h : headerInfo) :
  _parseWAVHeader buf = Ok h ->
  HEADER.MIN_HEADER_SIZE <= blen buf /\
  bytes_eqb (subarray buf 0 4) HEADER.RIFF_SIGNATURE = true /\
  bytes_eqb (subarray buf 8 12) HEADER.WAVE_SIGNATURE = true /\
  exists fmtOffset,
    find_fmt (length buf) buf 12 = Some (Ok (fmtOffset, fmtSize h)) /\
    fmtSize h <> 0 /\
    readUInt16LE buf (fmtOffset + 8) = Ok (audioFormat h) /\
    readUInt16LE buf (fmtOffset + 8 + 2) = Ok (numChannels h) /\
    readUInt32LE buf (fmtOffset + 8 + 4) = Ok (sampleRate h) /\
    readUInt32LE buf (fmtOffset + 8 + 8) = Ok (byteRate h) /\
    readUInt16LE buf (fmtOffset + 8 + 12) = Ok (blockAlign h) /\
    readUInt16LE buf (fmtOffset + 8 + 14) = Ok (bitsPerSample h) /\
    readUInt32LE buf 4 = Ok (fileSize h - 8) /\
    duration h = _calculateDuration (blen buf) (sampleRate h) (numChannels h)
                   (bitsPerSample h).
Proof.
  destruct (parse_fuel_total buf) as (r & Hfuel & ->). intros ->.
  unfold parse_fuel in Hfuel.
  destruct (blen buf <? HEADER.MIN_HEADER_SIZE) eqn:Hlen; [discriminate|].
  apply Z.ltb_ge in Hlen. split; [exact Hlen|].
  unfold parse_body in Hfuel.
  destruct (bytes_eqb (subarray buf 0 4) _); [|discriminate].
  destruct (bytes_eqb (subarray buf 8 12) _); [|discriminate].
  cbn [negb] in Hfuel. split; [reflexivity|]. split; [reflexivity|].
  destruct (find_fmt _ _ _) as [[[fmtOffset size]|e]|]; try discriminate.
  cbn [rbind option_map] in Hfuel.
  destruct (size =? 0) eqn:Hsize; [discriminate|]. apply Z.eqb_neq in Hsize.
  destruct (readUInt16LE buf (fmtOffset + 8)) as [v1|] eqn:R1;
    cbn [rbind] in Hfuel; [|discriminate].
  destruct (readUInt16LE buf (fmtOffset + 8 + 2)) as [v2|] eqn:R2;
    cbn [rbind] in Hfuel; [|discriminate].
  destruct (readUInt32LE buf (fmtOffset + 8 + 4)) as [v3|] eqn:R3;
    cbn [rbind] in Hfuel; [|discriminate].
  destruct (readUInt32LE buf (fmtOffset + 8 + 8)) as [v4|] eqn:R4;
    cbn [rbind] in Hfuel; [|discriminate].
  destruct (readUInt16LE buf (fmtOffset + 8 + 12)) as [v5|] eqn:R5;
    cbn [rbind] in Hfuel; [|discriminate].
  destruct (readUInt16LE buf (fmtOffset + 8 + 14)) as [v6|] eqn:R6;
    cbn [rbind] in Hfuel; [|discriminate].
  destruct (readUInt32LE buf 4) as [v7|] eqn:R7;
    cbn [rbind] in Hfuel; [|discriminate].
  cbn [rethrow] in Hfuel. injection Hfuel as <-. cbn.
  exists fmtOffset. replace (v7 + 8 - 8) with v7 by lia.
  repeat split; auto.
Qed.

Lemma bytes_eqb_eq (a b : list byte) : bytes_eqb a b = true -> a = b.
Proof.
  revert b. induction a as [|x a IH]; intros [|y b]; cbn; try discriminate.
  - reflexivity.
  - intros H. apply andb_true_iff in H as [Hxy Hab].
    apply Byte.byte_dec_bl in Hxy. f_equal; auto.
Qed.

Lemma byteAt_range (buf : list byte) (off : Z) : 0 <= byteAt buf off < 256.
Proof.
  unfold byteAt, byteZ. destruct (buf !! Z.to_nat off) as [x|]; [|lia].
  pose proof (Byte.to_N_bounded x). lia.
Qed.

Lemma readUInt16LE_range buf off v :
  readUInt16LE buf off = Ok v -> 0 <= v < 65536 /\ 0 <= off /\ off + 2 <= blen buf.
Proof.
  unfold readUInt16LE. destruct (_ && _) eqn:E; [|discriminate].
  apply andb_true_iff in E as [E1 E2]. apply Z.leb_le in E1, E2.
  intros [= <-].
  pose proof (byteAt_range buf off). pose proof (byteAt_range buf (off + 1)).
  lia.
Qed.

Lemma readUInt32LE_range buf off v :
  readUInt32LE buf off = Ok v ->
  0 <= v < 4294967296 /\ 0 <= off /\ off + 4 <= blen buf.
Proof.
  unfold readUInt32LE. destruct (_ && _) eqn:E; [|discriminate].
  apply andb_true_iff in E as [E1 E2]. apply Z.leb_le in E1, E2.
  intros [= <-].
  pose proof (byteAt_range buf off). pose proof (byteAt_range buf (off + 1)).
  pose proof (byteAt_range buf (off + 2)). pose proof (byteAt_range buf (off + 3)).
  lia.
Qed.

(** Where the scan stops with a chunk in hand, the chunk is a [fmt ]
    chunk at or after the start of the scan. *)
Lemma find_fmt_found fuel buf start off size :
  find_fmt fuel buf start = Some (Ok (off, size)) -> size <> 0 ->
  start <= off /\
  bytes_eqb (subarray buf off (off + 4)) HEADER.FMT_SIGNATURE = true /\
  readUInt32LE buf (off + 4) = Ok size.
Proof.
  revert start. induction fuel as [|fuel IH]; intros start; cbn [find_fmt].
  - destruct (start <? blen buf - 8); [discriminate|].
    intros H Hs. inversion H; subst. congruence.
  - destruct (start <? blen buf - 8);
      [|intros H Hs; inversion H; subst; congruence].
    destruct (readUInt32LE buf (start + 4)) as [chunkSize|e] eqn:R; [|discriminate].
    destruct (bytes_eqb (subarray buf start (start + 4)) HEADER.FMT_SIGNATURE)
      eqn:Hid.
    + intros H _. inversion H; subst. split; [lia|]. auto.
    + intros Hrec Hsize. destruct (IH _ Hrec Hsize) as (Hle & Hrest).
      apply readUInt32LE_nonneg in R. split; [lia|exact Hrest].
Qed.

(** X10.  In a header that [_parseWAVHeader] accepts, every field is
    within the range of its width: the 16-bit fields below 65536, the
    32-bit fields below 2^32, [fileSize] between 8 and 2^32 + 7, and
    [fmtSize] positive.  The header comes from a chunk tagged [fmt ] that
    starts at offset 12 or later and whose first 16 bytes of body lie
    inside the buffer. *)
Theorem accepted_header_is_in_range (buf : list byte) (h : headerInfo) :
  _parseWAVHeader buf = Ok h ->
  0 <= audioFormat h < 65536 /\
  0 <= numChannels h < 65536 /\
  0 <= sampleRate h < 4294967296 /\
  0 <= byteRate h < 4294967296 /\
  0 <= blockAlign h < 65536 /\
  0 <= bitsPerSample h < 65536 /\
  8 <= fileSize h < 4294967296 + 8 /\
  0 < fmtSize h < 4294967296 /\
  exists fmtOffset,
    12 <= fmtOffset /\ fmtOffset + 24 <= blen buf /\
    subarray buf fmtOffset (fmtOffset + 4) = HEADER.FMT_SIGNATURE.
Proof.
  intros Hparse.
  destruct (parse_inversion buf h Hparse)
    as (_ & _ & _ & off & Hfind & Hsize & R1 & R2 & R3 & R4 & R5 & R6 & R7 & _).
  destruct (find_fmt_found _ _ _ _ _ Hfind Hsize) as (Hoff & Hid & Rsize).
  apply readUInt16LE_range in R1, R2, R5, R6.
  apply readUInt32LE_range in R3, R4, R7, Rsize.
  repeat (split; [lia|]).
  exists off. split; [lia|]. split; [lia|].
  apply bytes_eqb_eq. exact Hid.
Qed.

Lemma accepted_header_is_in_range_witness :
  exists h, _parseWAVHeader clip_16k = Ok h /\ 0 <= sampleRate h < 4294967296.
Proof.
  eexists. split; [vm_compute; reflexivity|].
  eapply (accepted_header_is_in_range clip_16k). vm_compute. reflexivity.
Defined.

(** ** Chunks before the [fmt ] chunk *)

(** [_parseWAVHeader], read forwards. *)
Lemma parse_intro (buf : list byte) fmtOffset size v1 v2 v3 v4 v5 v6 v7 :
  HEADER.MIN_HEADER_SIZE <= blen buf ->
  bytes_eqb (subarray buf 0 4) HEADER.RIFF_SIGNATURE = true ->
  bytes_eqb (subarray buf 8 12) HEADER.WAVE_SIGNATURE = true ->
  find_fmt (length buf) buf 12 = Some (Ok (fmtOffset, size)) ->
  size <> 0 ->
  readUInt16LE buf (fmtOffset + 8) = Ok v1 ->
  readUInt16LE buf (fmtOffset + 8 + 2) = Ok v2 ->
  readUInt32LE buf (fmtOffset + 8 + 4) = Ok v3 ->
  readUInt32LE buf (fmtOffset + 8 + 8) = Ok v4 ->
  readUInt16LE buf (fmtOffset + 8 + 12) = Ok v5 ->
  readUInt16LE buf (fmtOffset + 8 + 14) = Ok v6 ->
  readUInt32LE buf 4 = Ok v7 ->
  _parseWAVHeader buf
  = Ok {| fileSize := v7 + 8; audioFormat := v1; numChannels := v2;
          sampleRate := v3; byteRate := v4; blockAlign := v5;
          bitsPerSample := v6; fmtSize := size;
          duration := _calculateDuration (blen buf) v3 v2 v6 |}.
Proof.
  intros Hlen Hriff Hwave Hfind Hsize R1 R2 R3 R4 R5 R6 R7.
  unfold _parseWAVHeader, parse_fuel, parse_body.
  rewrite (proj2 (Z.ltb_ge _ _) Hlen), Hriff, Hwave, Hfind.
  cbn [negb option_map rbind].
  rewrite (proj2 (Z.eqb_neq _ _) Hsize), R1. cbn [rbind].
  rewrite R2. cbn [rbind]. rewrite R3. cbn [rbind]. rewrite R4. cbn [rbind].
  rewrite R5. cbn [rbind]. rewrite R6. cbn [rbind]. rewrite R7. reflexivity.
Qed.

(** More budget does not change what the scan finds. *)
Lemma find_fmt_more_fuel fuel fuel' buf off r :
  find_fmt fuel buf off = Some r -> (fuel <= fuel')%nat ->
  find_fmt fuel' buf off = Some r.
Proof.
  revert fuel' off. induction fuel as [|fuel IH]; intros fuel' off; cbn [find_fmt].
  - destruct (off <? blen buf - 8) eqn:E; [discriminate|].
    intros H _. destruct fuel'; cbn [find_fmt]; rewrite E; exact H.
  - destruct fuel' as [|fuel']; [lia|]. cbn [find_fmt].
    destruct (off <? blen buf - 8); [|auto].
    destruct (readUInt32LE buf (off + 4)); [|auto].
    destruct (bytes_eqb _ _); [auto|].
    intros H Hle. apply IH; [exact H|lia].
Qed.

Section Skip.

Variables pre chunk rest : list byte.

Lemma byteAt_skip off :
  blen pre <= off ->
  byteAt (pre ++ chunk ++ rest) (off + blen chunk) = byteAt (pre ++ rest) off.
Proof.
  unfold blen. intros Hoff. unfold byteAt.
  rewrite !lookup_app_r by lia.
  replace (Z.to_nat (off + Z.of_nat (length chunk)) - length pre - length chunk)%nat
    with (Z.to_nat off - length pre)%nat by lia.
  reflexivity.
Qed.

Lemma byteAt_in_pre (tail : list byte) off :
  0 <= off < blen pre -> byteAt (pre ++ tail) off = byteAt pre off.
Proof.
  unfold blen. intros Hoff. unfold byteAt. rewrite lookup_app_l by lia.
  reflexivity.
Qed.

Lemma byteAt_in_chunk off :
  0 <= off < blen chunk ->
  byteAt (pre ++ chunk ++ rest) (blen pre + off) = byteAt chunk off.
Proof.
  unfold blen. intros Hoff. unfold byteAt.
  rewrite lookup_app_r by lia. rewrite lookup_app_l by lia.
  replace (Z.to_nat (Z.of_nat (length pre) + off) - length pre)%nat
    with (Z.to_nat off) by lia.
  reflexivity.
Qed.

Lemma blen_skip : blen (pre ++ chunk ++ rest) = blen (pre ++ rest) + blen chunk.
Proof. unfold blen. rewrite !length_app. lia. Qed.

Lemma readUInt16LE_skip off v :
  blen pre <= off ->
  readUInt16LE (pre ++ rest) off = Ok v ->
  readUInt16LE (pre ++ chunk ++ rest) (off + blen chunk) = Ok v.
Proof.
  intros Hoff. unfold readUInt16LE. rewrite blen_skip.
  destruct (_ && _) eqn:E; [|discriminate].
  apply andb_true_iff in E as [E1 E2]. apply Z.leb_le in E1, E2.
  assert (Hk : 0 <= blen chunk) by (unfold blen; lia).
  rewrite (proj2 (andb_true_iff _ _)) by (split; apply Z.leb_le; lia).
  intros [= <-].
  replace (off + blen chunk + 1) with (off + 1 + blen chunk) by lia.
  rewrite !byteAt_skip by lia. reflexivity.
Qed.

Lemma readUInt32LE_skip off v :
  blen pre <= off ->
  readUInt32LE (pre ++ rest) off = Ok v ->
  readUInt32LE (pre ++ chunk ++ rest) (off + blen chunk) = Ok v.
Proof.
  intros Hoff. unfold readUInt32LE. rewrite blen_skip.
  destruct (_ && _) eqn:E; [|discriminate].
  apply andb_true_iff in E as [E1 E2]. apply Z.leb_le in E1, E2.
  assert (Hk : 0 <= blen chunk) by (unfold blen; lia).
  rewrite (proj2 (andb_true_iff _ _)) by (split; apply Z.leb_le; lia).
  intros [= <-].
  replace (off + blen chunk + 1) with (off + 1 + blen chunk) by lia.
  replace (off + blen chunk + 2) with (off + 2 + blen chunk) by lia.
  replace (off + blen chunk + 3) with (off + 3 + blen chunk) by lia.
  rewrite !byteAt_skip by lia. reflexivity.
Qed.

Lemma readUInt32LE_in_pre off v :
  0 <= off -> off + 4 <= blen pre ->
  readUInt32LE (pre ++ rest) off = Ok v ->
  readUInt32LE (pre ++ chunk ++ rest) off = Ok v.
Proof.
  intros H0 Hoff. unfold readUInt32LE. rewrite blen_skip.
  destruct (_ && _) eqn:E; [|discriminate].
  apply andb_true_iff in E as [E1 E2]. apply Z.leb_le in E1, E2.
  assert (Hk : 0 <= blen chunk) by (unfold blen; lia).
  rewrite (proj2 (andb_true_iff _ _)) by (split; apply Z.leb_le; lia).
  intros [= <-]. rewrite !byteAt_in_pre by lia. reflexivity.
Qed.

Lemma subarray_skip off :
  blen pre <= off ->
  subarray (pre ++ chunk ++ rest) (off + blen chunk) (off + blen chunk + 4)
  = subarray (pre ++ rest) off (off + 4).
Proof.
  unfold blen. intros Hoff. unfold subarray.
  replace (off + Z.of_nat (length chunk) + 4 - (off + Z.of_nat (length chunk)))
    with (off + 4 - off) by lia.
  f_equal. rewrite !drop_app_ge by lia.
  replace (Z.to_nat (off + Z.of_nat (length chunk)) - length pre - length chunk)%nat
    with (Z.to_nat off - length pre)%nat by lia.
  reflexivity.
Qed.

Lemma subarray_in_pre (tail : list byte) start stop :
  0 <= start -> start <= stop -> stop <= blen pre ->
  subarray (pre ++ tail) start stop = subarray pre start stop.
Proof.
  unfold blen. intros H0 H1 H2. unfold subarray.
  rewrite drop_app_le by lia. rewrite take_app_le; [reflexivity|].
  rewrite length_drop. lia.
Qed.

(** The scan of the longer buffer, started past the extra chunk, finds
    what the scan of the shorter one finds, moved by the chunk length. *)
Lemma find_fmt_skip fuel off found size :
  blen pre <= off ->
  find_fmt fuel (pre ++ rest) off = Some (Ok (found, size)) ->
  find_fmt fuel (pre ++ chunk ++ rest) (off + blen chunk)
  = Some (Ok (found + blen chunk, size)).
Proof.
  revert off. induction fuel as [|fuel IH]; intros off Hoff; cbn [find_fmt];
    rewrite blen_skip;
    replace (off + blen chunk <? blen (pre ++ rest) + blen chunk - 8)
      with (off <? blen (pre ++ rest) - 8)
      by (destruct (off <? blen (pre ++ rest) - 8) eqn:E; symmetry;
          [apply Z.ltb_lt; apply Z.ltb_lt in E | apply Z.ltb_ge; apply Z.ltb_ge in E];
          lia).
  - destruct (off <? blen (pre ++ rest) - 8); [discriminate|].
    intros H. inversion H; subst. reflexivity.
  - destruct (off <? blen (pre ++ rest) - 8);
      [|intros H; inversion H; subst; reflexivity].
    destruct (readUInt32LE (pre ++ rest) (off + 4)) as [chunkSize|e] eqn:R;
      [|discriminate].
    replace (off + blen chunk + 4) with (off + 4 + blen chunk) by lia.
    assert (Hpre : 0 <= blen pre) by (unfold blen; lia).
    rewrite (readUInt32LE_skip (off + 4) chunkSize ltac:(lia) R).
    replace (off + 4 + blen chunk) with (off + blen chunk + 4) by lia.
    rewrite subarray_skip by lia.
    destruct (bytes_eqb (subarray (pre ++ rest) off (off + 4)) HEADER.FMT_SIGNATURE).
    + intros H. inversion H; subst. reflexivity.
    + intros H.
      replace (off + blen chunk + (8 + chunkSize))
        with (off + (8 + chunkSize) + blen chunk) by lia.
      apply IH; [|exact H]. apply readUInt32LE_nonneg in R. lia.
Qed.

End Skip.

Lemma readUInt32LE_in_chunk (pre chunk rest : list byte) off v :
  readUInt32LE chunk off = Ok v ->
  readUInt32LE (pre ++ chunk ++ rest) (blen pre + off) = Ok v.
Proof.
  unfold readUInt32LE.
  destruct (_ && _) eqn:E; [|discriminate].
  apply andb_true_iff in E as [E1 E2]. apply Z.leb_le in E1, E2.
  assert (Hlen : blen (pre ++ chunk ++ rest) = blen pre + blen chunk + blen rest)
    by (unfold blen; rewrite !length_app; lia).
  assert (Hp : 0 <= blen pre) by (unfold blen; lia).
  assert (Hr : 0 <= blen rest) by (unfold blen; lia).
  rewrite (proj2 (andb_true_iff _ _)) by (split; apply Z.leb_le; lia).
  intros [= <-].
  replace (blen pre + off + 1) with (blen pre + (off + 1)) by lia.
  replace (blen pre + off + 2) with (blen pre + (off + 2)) by lia.
  replace (blen pre + off + 3) with (blen pre + (off + 3)) by lia.
  rewrite !byteAt_in_chunk by lia. reflexivity.
Qed.

Lemma subarray_in_chunk (pre chunk rest : list byte) :
  4 <= blen chunk ->
  subarray (pre ++ chunk ++ rest) (blen pre) (blen pre + 4) = subarray chunk 0 4.
Proof.
  unfold blen, subarray. intros H.
  replace (Z.of_nat (length pre) + 4 - Z.of_nat (length pre)) with (4 - 0) by lia.
  rewrite Nat2Z.id, drop_app_length. cbn [Z.to_nat drop].
  rewrite take_app_le by lia. reflexivity.
Qed.

(** X11.  A chunk with another tag standing between the [WAVE] signature
    and the rest of the file is stepped over.  If a file parses, then the
    file with such a chunk ([8 + n] bytes: tag, length [n], [n] bytes of
    body) inserted at offset 12 parses to the same format fields.  Only
    the duration differs: it is computed from the new buffer length with
    the fixed header size of 44, so the inserted bytes count as audio. *)
Theorem chunk_before_fmt_is_stepped_over
    (pre chunk rest : list byte) (n : Z) (h : headerInfo) :
  blen pre = 12 ->
  blen chunk = 8 + n ->
  readUInt32LE chunk 4 = Ok n ->
  bytes_eqb (subarray chunk 0 4) HEADER.FMT_SIGNATURE = false ->
  _parseWAVHeader (pre ++ rest) = Ok h ->
  _parseWAVHeader (pre ++ chunk ++ rest)
  = Ok (with_duration
          (_calculateDuration (blen (pre ++ chunk ++ rest))
             (sampleRate h) (numChannels h) (bitsPerSample h))
          h).
Proof.
  intros Hpre Hchunk Hn Hid Hparse.
  destruct (parse_inversion _ h Hparse)
    as (Hlen & Hriff & Hwave & off & Hfind & Hsize
        & R1 & R2 & R3 & R4 & R5 & R6 & R7 & _).
  destruct (find_fmt_found _ _ _ _ _ Hfind Hsize) as (Hoff & _ & _).
  unfold HEADER.MIN_HEADER_SIZE in Hlen.
  pose proof (readUInt32LE_nonneg _ _ _ Hn) as Hn0.
  pose proof (blen_skip pre chunk rest) as Hlong.
  set (long := pre ++ chunk ++ rest) in *.
  assert (Hfind' : find_fmt (length long) long 12
                   = Some (Ok (off + blen chunk, fmtSize h))).
  { assert (Hfuel : exists f, length long = S f /\ (length (pre ++ rest) <= f)%nat).
    { exists (Nat.pred (length long)). unfold blen in *. lia. }
    assert (Hread : readUInt32LE long (12 + 4) = Ok n).
    { rewrite <- Hpre. apply readUInt32LE_in_chunk. exact Hn. }
    assert (Hsub : subarray long 12 (12 + 4) = subarray chunk 0 4).
    { rewrite <- Hpre. apply subarray_in_chunk. lia. }
    destruct Hfuel as (f & -> & Hf). cbn [find_fmt].
    rewrite (proj2 (Z.ltb_lt 12 (blen long - 8))) by lia.
    rewrite Hread, Hsub, Hid.
    replace (12 + (8 + n)) with (12 + blen chunk) by lia.
    apply (find_fmt_more_fuel (length (pre ++ rest))); [|exact Hf].
    apply find_fmt_skip; [lia|exact Hfind]. }
  assert (Hshift : forall c, off + blen chunk + 8 + c = off + 8 + c + blen chunk)
    by (intros; lia).
  rewrite (parse_intro long (off + blen chunk) (fmtSize h)
             (audioFormat h) (numChannels h) (sampleRate h) (byteRate h)
             (blockAlign h) (bitsPerSample h) (fileSize h - 8)).
  - destruct h; unfold with_duration; cbn [fileSize audioFormat numChannels
      sampleRate byteRate blockAlign bitsPerSample fmtSize duration].
    do 2 f_equal. lia.
  - unfold HEADER.MIN_HEADER_SIZE. lia.
  - subst long. rewrite subarray_in_pre by lia.
    rewrite <- (subarray_in_pre pre rest) by lia. exact Hriff.
  - subst long. rewrite subarray_in_pre by lia.
    rewrite <- (subarray_in_pre pre rest) by lia. exact Hwave.
  - exact Hfind'.
  - exact Hsize.
  - replace (off + blen chunk + 8) with (off + 8 + blen chunk) by lia.
    apply readUInt16LE_skip; [lia|exact R1].
  - rewrite Hshift. apply readUInt16LE_skip; [lia|exact R2].
  - rewrite Hshift. apply readUInt32LE_skip; [lia|exact R3].
  - rewrite Hshift. apply readUInt32LE_skip; [lia|exact R4].
  - rewrite Hshift. apply readUInt16LE_skip; [lia|exact R5].
  - rewrite Hshift. apply readUInt16LE_skip; [lia|exact R6].
  - apply readUInt32LE_in_pre; [lia|lia|exact R7].
Qed.

Lemma chunk_before_fmt_is_stepped_over_witness :
  exists h,
    _parseWAVHeader (take 12 clip_16k ++ drop 12 clip_16k) = Ok h /\
    _parseWAVHeader (take 12 clip_16k ++ list_chunk ++ drop 12 clip_16k)
    = Ok (with_duration
            (_calculateDuration 1012 (sampleRate h) (numChannels h)
               (bitsPerSample h)) h).
Proof.
  eexists. split; [vm_compute; reflexivity|].
  apply (chunk_before_fmt_is_stepped_over (take 12 clip_16k) list_chunk
           (drop 12 clip_16k) 4); vm_compute; reflexivity.
Defined.

End WavExtras.

(* ===================================================================== *)
(** * Properties of the client's encoder, and of what the server makes of
      its files *)
(* ===================================================================== *)

Module EncoderProofs.

Import Wav Encoder LiveMeeting Samples WavProofs WavExtras.

(** ** Bytes *)

Lemma byteZ_byte_of (value : Z) : byteZ (byte_of value) = value mod 256.
Proof.
  unfold byteZ, byte_of.
  pose proof (Z.mod_pos_bound value 256 ltac:(lia)) as Hb.
  destruct (Byte.of_N (Z.to_N (value mod 256))) as [b|] eqn:E.
  - apply Byte.to_of_N in E. simpl. rewrite E. lia.
  - apply Byte.of_N_None_iff in E. lia.
Qed.

Lemma le16 (value : Z) :
  byteZ (byte_of value) + 256 * byteZ (byte_of (value / 256))
  = value mod 65536.
Proof.
  rewrite !byteZ_byte_of.
  pose proof (Z.div_mod value 256 ltac:(lia)).
  pose proof (Z.div_mod (value / 256) 256 ltac:(lia)).
  pose proof (Z.mod_pos_bound value 256 ltac:(lia)).
  pose proof (Z.mod_pos_bound (value / 256) 256 ltac:(lia)).
  apply (Z.mod_unique_pos _ _ (value / 256 / 256)); lia.
Qed.

Lemma le32 (value : Z) :
  byteZ (byte_of value) + 256 * byteZ (byte_of (value / 256))
  + 65536 * byteZ (byte_of (value / 65536))
  + 16777216 * byteZ (byte_of (value / 16777216))
  = value mod 4294967296.
Proof.
  rewrite !byteZ_byte_of.
  replace (value / 65536) with (value / 256 / 256)
    by (rewrite Z.div_div by lia; reflexivity).
  replace (value / 16777216) with (value / 256 / 256 / 256)
    by (rewrite !Z.div_div by lia; reflexivity).
  pose proof (Z.div_mod value 256 ltac:(lia)).
  pose proof (Z.div_mod (value / 256) 256 ltac:(lia)).
  pose proof (Z.div_mod (value / 256 / 256) 256 ltac:(lia)).
  pose proof (Z.div_mod (value / 256 / 256 / 256) 256 ltac:(lia)).
  pose proof (Z.mod_pos_bound value 256 ltac:(lia)).
  pose proof (Z.mod_pos_bound (value / 256) 256 ltac:(lia)).
  pose proof (Z.mod_pos_bound (value / 256 / 256) 256 ltac:(lia)).
  pose proof (Z.mod_pos_bound (value / 256 / 256 / 256) 256 ltac:(lia)).
  apply (Z.mod_unique_pos _ _ (value / 256 / 256 / 256 / 256)); lia.
Qed.

(** ** Collecting the samples *)

Lemma totalSamples_from (audioBuffers : list (list number)) (sum : Z) :
  foldl (fun sum buffer => sum + Z.of_nat (length buffer)) sum audioBuffers
  = sum + Z.of_nat (length (concat audioBuffers)).
Proof.
  revert sum. induction audioBuffers as [|b bs IH]; intros sum; cbn [foldl concat].
  - cbn. lia.
  - rewrite IH, length_app. lia.
Qed.

Lemma totalSamples_length (audioBuffers : list (list number)) :
  totalSamples audioBuffers = Z.of_nat (length (concat audioBuffers)).
Proof. unfold totalSamples. rewrite totalSamples_from. lia. Qed.

Lemma convert_buffer_fills (buffer : list number) :
  forall (i offset : nat) (pre mid post : list Z),
    length pre = (offset + i)%nat -> length mid = length buffer ->
    convert_buffer buffer i offset (pre ++ mid ++ post)
    = pre ++ (convert_sample <$> buffer) ++ post.
Proof.
  induction buffer as [|x rest IH]; intros i offset pre mid post Hpre Hmid.
  - destruct mid; [reflexivity|discriminate].
  - destruct mid as [|m mid]; [discriminate|]. cbn [convert_buffer fmap list_fmap].
    rewrite <- Hpre. rewrite insert_app_r_alt by lia.
    rewrite Nat.sub_diag. cbn [app].
    change (<[0%nat:=convert_sample x]> (m :: mid ++ post))
      with (convert_sample x :: mid ++ post).
    replace (pre ++ convert_sample x :: mid ++ post)
      with ((pre ++ [convert_sample x]) ++ mid ++ post)
      by (rewrite <- app_assoc; reflexivity).
    rewrite (IH (S i) offset (pre ++ [convert_sample x]) mid post).
    + rewrite <- app_assoc. reflexivity.
    + rewrite length_app. cbn. lia.
    + cbn in Hmid. lia.
Qed.

Lemma convert_from (audioBuffers : list (list number)) :
  forall (done : list Z) (k : nat),
    (foldl (fun '(int16Data, offset) buffer =>
              (convert_buffer buffer 0 offset int16Data,
               (offset + length buffer)%nat))
           (done ++ replicate (length (concat audioBuffers) + k) 0, length done)
           audioBuffers).1
    = done ++ converted audioBuffers ++ replicate k 0.
Proof.
  unfold converted.
  induction audioBuffers as [|b bs IH]; intros done k; cbn [foldl concat].
  - reflexivity.
  - rewrite length_app, <- Nat.add_assoc, replicate_add.
    rewrite (convert_buffer_fills b 0 (length done) done
               (replicate (length b) 0)
               (replicate (length (concat bs) + k) 0))
      by (rewrite ?length_replicate; lia).
    rewrite app_assoc.
    replace (length done + length b)%nat
      with (length (done ++ (convert_sample <$> b)))
      by (rewrite length_app, length_fmap; reflexivity).
    rewrite IH, fmap_app, <- !app_assoc. reflexivity.
Qed.

(** With the total of [encodeWAV] as length, [_convertFloat32ToInt16]
    returns every sample converted, in order. *)
Lemma convert_all (audioBuffers : list (list number)) :
  _convertFloat32ToInt16 audioBuffers (totalSamples audioBuffers)
  = converted audioBuffers.
Proof.
  unfold _convertFloat32ToInt16. rewrite totalSamples_length, Nat2Z.id.
  pose proof (convert_from audioBuffers [] 0) as H.
  rewrite Nat.add_0_r in H. cbn [app length] in H.
  rewrite H. cbn [replicate]. rewrite app_nil_r. reflexivity.
Qed.

Lemma converted_length (audioBuffers : list (list number)) :
  Z.of_nat (length (converted audioBuffers)) = totalSamples audioBuffers.
Proof. unfold converted. rewrite length_fmap, totalSamples_length. reflexivity. Qed.

(** ** Writing into the view *)

Lemma set_bytes_at (pre rest : list byte) (byteOffset : Z) (bytes : list byte)
    (n : nat) :
  byteOffset = Z.of_nat n -> (n + length bytes <= length pre)%nat ->
  set_bytes (pre ++ rest) byteOffset bytes
  = Ok ((take n pre ++ bytes ++ drop (n + length bytes) pre) ++ rest).
Proof.
  intros -> Hfit. unfold set_bytes, blen.
  rewrite (proj2 (Z.leb_le 0 (Z.of_nat n))) by lia.
  rewrite (proj2 (Z.leb_le _ _)) by (rewrite length_app; lia).
  cbn [andb]. rewrite Nat2Z.id.
  rewrite take_app_le by lia. rewrite drop_app_le by lia.
  rewrite <- !app_assoc. reflexivity.
Qed.

Ltac write_step :=
  lazymatch goal with
  | |- context [set_bytes (?pre ++ ?rest) ?o ?bytes] =>
      let n := eval vm_compute in (Z.to_nat o) in
      rewrite (set_bytes_at pre rest o bytes n)
        by first [reflexivity | cbn [length]; lia];
      lazymatch goal with
      | |- context [Ok ((take n pre ++ bytes ++ drop ?m pre) ++ rest)] =>
          let p := eval lazy beta iota zeta delta
                     [take drop app length Nat.add Init.Nat.add]
                   in (take n pre ++ bytes ++ drop m pre) in
          change (take n pre ++ bytes ++ drop m pre) with p
      end;
      cbn [rbind]
  end.

(** [_writeWAVHeader] fills the first 44 bytes of a fresh view and leaves
    the others alone. *)
Lemma header_written (this : WAVEncoder) (rest : list byte)
    (fileSize dataSize : Z) :
  _writeWAVHeader this (replicate 44 x00 ++ rest) fileSize dataSize
  = Ok (header_bytes this fileSize dataSize ++ rest).
Proof.
  unfold _writeWAVHeader, setUint32, setUint16, setUint8.
  cbn [_writeString replicate]. unfold setUint8.
  do 25 write_step.
  reflexivity.
Qed.

Lemma setInt16_at_end (pre zeros : list byte) (sample : Z) :
  setInt16 (pre ++ zeros) (blen pre) sample
  = if (2 <=? length zeros)%nat
    then Ok ((pre ++ [byte_of sample; byte_of (sample / 256)]) ++ drop 2 zeros)
    else Throw OffsetOutOfBounds.
Proof.
  unfold setInt16, set_bytes, blen.
  rewrite (proj2 (Z.leb_le 0 _)) by lia. cbn [andb length].
  rewrite length_app.
  destruct (2 <=? length zeros)%nat eqn:E.
  - apply Nat.leb_le in E. rewrite (proj2 (Z.leb_le _ _)) by lia.
    rewrite Nat2Z.id, take_app_length, drop_app_add.
    rewrite <- app_assoc. reflexivity.
  - apply Nat.leb_gt in E. rewrite (proj2 (Z.leb_gt _ _)) by lia. reflexivity.
Qed.

Lemma sample_bytes_cons (sample : Z) (rest : list Z) :
  sample_bytes (sample :: rest)
  = [byte_of sample; byte_of (sample / 256)] ++ sample_bytes rest.
Proof. reflexivity. Qed.

Lemma sample_bytes_length (int16Data : list Z) :
  length (sample_bytes int16Data) = (2 * length int16Data)%nat.
Proof.
  induction int16Data as [|s rest IH]; [reflexivity|].
  rewrite sample_bytes_cons, length_app, IH. cbn [length]. lia.
Qed.

(** The samples fit: they are written one after the other from the given
    offset on, and the rest of the view is left as it was. *)
Lemma write_samples_fit (int16Data : list Z) :
  forall pre zeros : list byte,
    (2 * length int16Data <= length zeros)%nat ->
    write_samples (pre ++ zeros) (blen pre) int16Data
    = Ok (pre ++ sample_bytes int16Data
          ++ drop (2 * length int16Data) zeros).
Proof.
  induction int16Data as [|s rest IH]; intros pre zeros Hfit.
  - reflexivity.
  - cbn [write_samples length] in *. rewrite setInt16_at_end.
    rewrite (proj2 (Nat.leb_le _ _)) by lia. cbn [rbind].
    replace (blen pre + 2)
      with (blen (pre ++ [byte_of s; byte_of (s / 256)]))
      by (unfold blen; rewrite length_app; cbn [length]; lia).
    rewrite IH by (rewrite length_drop; lia).
    rewrite drop_drop, sample_bytes_cons, <- !app_assoc.
    replace (2 + 2 * length rest)%nat with (2 * S (length rest))%nat by lia.
    reflexivity.
Qed.

(** The samples do not fit: a [setInt16] falls outside the view. *)
Lemma write_samples_overflow (int16Data : list Z) :
  forall pre zeros : list byte,
    (length zeros < 2 * length int16Data)%nat ->
    write_samples (pre ++ zeros) (blen pre) int16Data = Throw OffsetOutOfBounds.
Proof.
  induction int16Data as [|s rest IH]; intros pre zeros Hfit.
  - cbn in Hfit. lia.
  - cbn [write_samples length] in *. rewrite setInt16_at_end.
    destruct (2 <=? length zeros)%nat eqn:E; [|reflexivity].
    apply Nat.leb_le in E. cbn [rbind].
    replace (blen pre + 2)
      with (blen (pre ++ [byte_of s; byte_of (s / 256)]))
      by (unfold blen; rewrite length_app; cbn [length]; lia).
    apply IH. rewrite length_drop. lia.
Qed.

(** ** Encoders that exist *)

Lemma new_inversion (options : Options) (this : WAVEncoder) :
  new options = Ok this ->
  0 < Encoder.sampleRate this <= 192000 /\
  1 <= Encoder.numChannels this <= 2 /\
  bitDepth this ∈ [8; 16; 24; 32] /\
  8 * bytesPerSample this = bitDepth this /\
  Encoder.blockAlign this = Encoder.numChannels this * bytesPerSample this /\
  Encoder.byteRate this = Encoder.sampleRate this * Encoder.blockAlign this.
Proof.
  unfold new, _validateConfiguration.
  cbn [Encoder.sampleRate Encoder.numChannels bitDepth].
  set (sr := or_default (o_sampleRate options) _).
  set (ch := or_default (o_numChannels options) _).
  set (bd := or_default (o_bitDepth options) _).
  destruct (_ || _) eqn:E1; [discriminate|].
  destruct ((ch <? 1) || _) eqn:E2; [discriminate|].
  destruct (negb _) eqn:E3; [discriminate|].
  cbn [rbind]. intros [= <-].
  cbn [Encoder.sampleRate Encoder.numChannels bitDepth bytesPerSample
       Encoder.blockAlign Encoder.byteRate].
  apply orb_false_iff in E1 as [E1a E1b], E2 as [E2a E2b].
  apply negb_false_iff, bool_decide_eq_true in E3.
  repeat split; try lia; [exact E3|].
  set_unfold in E3.
  destruct E3 as [->|[->|[->|[->|[]]]]]; reflexivity.
Qed.

Lemma header_bytes_length this fileSize dataSize :
  blen (header_bytes this fileSize dataSize) = 44.
Proof. reflexivity. Qed.

Lemma fresh_view (dataSize : Z) :
  0 <= dataSize ->
  replicate (Z.to_nat (AUDIO_CONFIG.WAV_HEADER_SIZE + dataSize)) x00
  = replicate 44 x00 ++ replicate (Z.to_nat dataSize) x00.
Proof.
  intros H. unfold AUDIO_CONFIG.WAV_HEADER_SIZE.
  rewrite Z2Nat.inj_add by lia. rewrite replicate_add. reflexivity.
Qed.

(** [encodeWAV] after its two input checks, for any number of bytes per
    sample. *)
Lemma encodeWAV_body (this : WAVEncoder) (audioBuffers : list (list number)) :
  totalSamples audioBuffers <> 0 -> 0 <= bytesPerSample this ->
  let n := totalSamples audioBuffers in
  let dataSize := n * bytesPerSample this in
  encodeWAV this audioBuffers
  = if 2 <=? bytesPerSample this
    then Ok (header_bytes this (36 + dataSize) dataSize
             ++ sample_bytes (converted audioBuffers)
             ++ replicate (Z.to_nat (dataSize - 2 * n)) x00)
    else Throw (EncodingFailed OffsetOutOfBounds).
Proof.
  intros Hn Hbps. cbv zeta.
  assert (Hpos : 0 < totalSamples audioBuffers).
  { rewrite totalSamples_length in *. lia. }
  unfold encodeWAV.
  destruct audioBuffers as [|b bs]; [exfalso; apply Hn; reflexivity|].
  cbn [length Nat.eqb]. cbv zeta.
  rewrite (proj2 (Z.eqb_neq _ 0) Hn).
  rewrite convert_all, converted_length.
  assert (Hlen : length (converted (b :: bs))
                 = Z.to_nat (totalSamples (b :: bs))).
  { rewrite <- (converted_length (b :: bs)), Nat2Z.id. reflexivity. }
  set (n := totalSamples (b :: bs)) in *.
  set (dataSize := n * bytesPerSample this).
  rewrite fresh_view by nia.
  replace (AUDIO_CONFIG.WAV_HEADER_SIZE - 8 + dataSize) with (36 + dataSize)
    by (unfold AUDIO_CONFIG.WAV_HEADER_SIZE; lia).
  rewrite header_written. cbn [rbind]. unfold _writeAudioData.
  change AUDIO_CONFIG.WAV_HEADER_SIZE
    with (blen (header_bytes this (36 + dataSize) dataSize)).
  destruct (2 <=? bytesPerSample this) eqn:E.
  - apply Z.leb_le in E.
    rewrite write_samples_fit by (rewrite length_replicate, Hlen; nia).
    cbn [rbind rethrow]. rewrite drop_replicate, Hlen.
    replace (Z.to_nat dataSize - 2 * Z.to_nat n)%nat
      with (Z.to_nat (dataSize - 2 * n)) by lia.
    reflexivity.
  - apply Z.leb_gt in E.
    rewrite write_samples_overflow by (rewrite length_replicate, Hlen; nia).
    reflexivity.
Qed.

(** ** Reading the header back *)

Lemma read16_in_header this fileSize dataSize tail off a b :
  0 <= off -> off + 2 <= 44 ->
  header_bytes this fileSize dataSize !! Z.to_nat off = Some (byte_of a) ->
  header_bytes this fileSize dataSize !! Z.to_nat (off + 1)
  = Some (byte_of (a / 256)) ->
  b = a mod 65536 ->
  readUInt16LE (header_bytes this fileSize dataSize ++ tail) off = Ok b.
Proof.
  intros H0 H1 Ha Hb ->. unfold readUInt16LE.
  assert (Hlen : blen (header_bytes this fileSize dataSize ++ tail)
                 = 44 + blen tail)
    by (unfold blen; rewrite length_app; cbn [header_bytes length]; lia).
  rewrite Hlen.
  rewrite (proj2 (andb_true_iff _ _))
    by (unfold blen; split; apply Z.leb_le; lia).
  rewrite !byteAt_in_pre by (rewrite header_bytes_length; lia).
  unfold byteAt. rewrite Ha, Hb. rewrite le16. reflexivity.
Qed.

Lemma read32_in_header this fileSize dataSize tail off a b :
  0 <= off -> off + 4 <= 44 ->
  header_bytes this fileSize dataSize !! Z.to_nat off = Some (byte_of a) ->
  header_bytes this fileSize dataSize !! Z.to_nat (off + 1)
  = Some (byte_of (a / 256)) ->
  header_bytes this fileSize dataSize !! Z.to_nat (off + 2)
  = Some (byte_of (a / 65536)) ->
  header_bytes this fileSize dataSize !! Z.to_nat (off + 3)
  = Some (byte_of (a / 16777216)) ->
  b = a mod 4294967296 ->
  readUInt32LE (header_bytes this fileSize dataSize ++ tail) off = Ok b.
Proof.
  intros H0 H1 Ha Hb Hc Hd ->. unfold readUInt32LE.
  assert (Hlen : blen (header_bytes this fileSize dataSize ++ tail)
                 = 44 + blen tail)
    by (unfold blen; rewrite length_app; cbn [header_bytes length]; lia).
  rewrite Hlen.
  rewrite (proj2 (andb_true_iff _ _))
    by (unfold blen; split; apply Z.leb_le; lia).
  rewrite !byteAt_in_pre by (rewrite header_bytes_length; lia).
  unfold byteAt. rewrite Ha, Hb, Hc, Hd. rewrite le32. reflexivity.
Qed.

(** The header as [_parseWAVHeader] reads it, with every field reduced to
    its width. *)
Lemma parse_header_bytes this fileSize dataSize (tail : list byte) :
  _parseWAVHeader (header_bytes this fileSize dataSize ++ tail)
  = Ok {| Wav.fileSize := fileSize mod 4294967296 + 8;
          Wav.audioFormat := 1;
          Wav.numChannels := Encoder.numChannels this mod 65536;
          Wav.sampleRate := Encoder.sampleRate this mod 4294967296;
          Wav.byteRate := Encoder.byteRate this mod 4294967296;
          Wav.blockAlign := Encoder.blockAlign this mod 65536;
          Wav.bitsPerSample := bitDepth this mod 65536;
          Wav.fmtSize := 16;
          Wav.duration :=
            _calculateDuration
              (blen (header_bytes this fileSize dataSize ++ tail))
              (Encoder.sampleRate this mod 4294967296)
              (Encoder.numChannels this mod 65536)
              (bitDepth this mod 65536) |}.
Proof.
  assert (Hlen : blen (header_bytes this fileSize dataSize ++ tail)
                 = 44 + blen tail)
    by (unfold blen; rewrite length_app; cbn [header_bytes length]; lia).
  assert (Htail : 0 <= blen tail) by (unfold blen; lia).
  apply (parse_intro _ 12 16).
  - rewrite Hlen. unfold HEADER.MIN_HEADER_SIZE. lia.
  - reflexivity.
  - reflexivity.
  - assert (Hfuel : exists f, length (header_bytes this fileSize dataSize ++ tail)
                              = S f)
      by (rewrite length_app; cbn [header_bytes length Nat.add]; eauto).
    destruct Hfuel as [f ->]. cbn [find_fmt].
    rewrite (proj2 (Z.ltb_lt _ _)) by lia.
    rewrite (read32_in_header this fileSize dataSize tail (12 + 4) 16 16)
      by first [reflexivity | lia].
    reflexivity.
  - lia.
  - apply (read16_in_header _ _ _ _ _ 1); first [reflexivity | lia].
  - apply (read16_in_header _ _ _ _ _ (Encoder.numChannels this));
      first [reflexivity | lia].
  - apply (read32_in_header _ _ _ _ _ (Encoder.sampleRate this));
      first [reflexivity | lia].
  - apply (read32_in_header _ _ _ _ _ (Encoder.byteRate this));
      first [reflexivity | lia].
  - apply (read16_in_header _ _ _ _ _ (Encoder.blockAlign this));
      first [reflexivity | lia].
  - apply (read16_in_header _ _ _ _ _ (bitDepth this));
      first [reflexivity | lia].
  - apply (read32_in_header _ _ _ _ _ fileSize); first [reflexivity | lia].
Qed.

(** ** Sample conversion *)

Lemma Qtrunc_floor (q : Q) : 0 <= Qnum q -> Qtrunc q = Qfloor q.
Proof.
  destruct q as [n d]. cbn. intros H. apply Z.quot_div_nonneg; lia.
Qed.

Lemma Qtrunc_ceiling (q : Q) : Qnum q <= 0 -> Qtrunc q = Qceiling q.
Proof.
  destruct q as [n d]. unfold Qtrunc, Qceiling, Qfloor. cbn. intros H.
  rewrite <- (Z.opp_involutive n) at 1.
  rewrite Z.quot_opp_l by lia. rewrite Z.quot_div_nonneg by lia. reflexivity.
Qed.

Lemma Qtrunc_mono (a b : Q) : (a <= b)%Q -> Qtrunc a <= Qtrunc b.
Proof.
  intros Hab.
  destruct (Z_lt_le_dec (Qnum a) 0) as [Ha|Ha],
           (Z_lt_le_dec (Qnum b) 0) as [Hb|Hb].
  - rewrite !Qtrunc_ceiling by lia. apply Qceiling_resp_le. exact Hab.
  - rewrite Qtrunc_ceiling by lia. rewrite Qtrunc_floor by lia.
    transitivity 0.
    + change 0 with (Qceiling 0). apply Qceiling_resp_le.
      unfold Qle. cbn. lia.
    + change 0 with (Qfloor 0). apply Qfloor_resp_le.
      unfold Qle. cbn. lia.
  - exfalso. unfold Qle in Hab. nia.
  - rewrite !Qtrunc_floor by lia. apply Qfloor_resp_le. exact Hab.
Qed.

Lemma Qtrunc_inject_Z (z : Z) : Qtrunc (inject_Z z) = z.
Proof. unfold Qtrunc. cbn. apply Z.quot_1_r. Qed.

Lemma ToInt16_in_range (q : Q) :
  (inject_Z (-32768) <= q)%Q -> (q <= inject_Z 32767)%Q ->
  ToInt16 (Num q) = Qtrunc q.
Proof.
  intros Hlo Hhi. apply Qtrunc_mono in Hlo, Hhi.
  rewrite Qtrunc_inject_Z in Hlo, Hhi. unfold ToInt16.
  rewrite Z.mod_small by lia. lia.
Qed.

Lemma Qle_bool_false (a b : Q) : Qle_bool a b = false -> (b < a)%Q.
Proof.
  intros H. apply Qnot_le_lt. intros Hle.
  apply Qle_bool_iff in Hle. congruence.
Qed.

(** What is stored for a finite sample: the clamped value, scaled and
    truncated; the reduction modulo 2^16 of the store never applies. *)
Lemma convert_sample_finite (q : Q) :
  ((1 <= q)%Q /\ convert_sample (Num q) = 32767) \/
  ((0 <= q)%Q /\ (q < 1)%Q /\
   convert_sample (Num q) = Qtrunc (q * inject_Z 32767)) \/
  ((-1 <= q)%Q /\ (q < 0)%Q /\
   convert_sample (Num q) = Qtrunc (q * inject_Z 32768)) \/
  ((q < -1)%Q /\ convert_sample (Num q) = -32768).
Proof.
  unfold convert_sample, Math_min, Math_max, js_lt, js_gt, js_scale, num, Qltb.
  change (inject_Z 1) with 1%Q. change (inject_Z 0) with 0%Q.
  change (inject_Z (-1)) with (-1)%Q.
  destruct (Qle_bool 1 q) eqn:E1.
  - apply Qle_bool_iff in E1. left. split; [exact E1|]. reflexivity.
  - apply Qle_bool_false in E1. right.
    destruct (Qle_bool (-1) q) eqn:E2.
    + apply Qle_bool_iff in E2.
      destruct (Qle_bool 0 q) eqn:E3; cbn [negb].
      * apply Qle_bool_iff in E3. left. split; [exact E3|]. split; [exact E1|].
        apply ToInt16_in_range;
          change (inject_Z 32767) with (32767 # 1);
          change (inject_Z (-32768)) with (-32768 # 1); lra.
      * apply Qle_bool_false in E3. right. left.
        split; [exact E2|]. split; [exact E3|].
        apply ToInt16_in_range;
          change (inject_Z 32768) with (32768 # 1);
          change (inject_Z 32767) with (32767 # 1);
          change (inject_Z (-32768)) with (-32768 # 1); lra.
    + apply Qle_bool_false in E2. right. right. split; [exact E2|]. reflexivity.
Qed.

Lemma convert_sample_bounds (x : number) :
  -32768 <= convert_sample x <= 32767.
Proof.
  destruct x as [q| | |]; [|vm_compute; split; discriminate..].
  unfold convert_sample.
  destruct (if js_lt _ _ then _ else _) as [r| | |]; cbn [ToInt16]; try lia.
  pose proof (Z.mod_pos_bound (Qtrunc r + 32768) 65536 ltac:(lia)). lia.
Qed.

Lemma convert_sample_mono (x y : Q) :
  (x <= y)%Q -> convert_sample (Num x) <= convert_sample (Num y).
Proof.
  intros Hxy.
  pose proof (convert_sample_bounds (Num x)) as Bx.
  pose proof (convert_sample_bounds (Num y)) as By.
  destruct (convert_sample_finite x)
    as [[X1 ->]|[(X1 & X2 & Ex)|[(X1 & X2 & Ex)|[X1 Ex]]]];
  destruct (convert_sample_finite y)
    as [[Y1 Ey]|[(Y1 & Y2 & Ey)|[(Y1 & Y2 & Ey)|[Y1 Ey]]]];
    try (exfalso; lra); try lia;
    rewrite ?Ex, ?Ey in *.
  - apply Qtrunc_mono. change (inject_Z 32767) with (32767 # 1). lra.
  - apply Qtrunc_mono. change (inject_Z 32767) with (32767 # 1).
    change (inject_Z 32768) with (32768 # 1). lra.
  - apply Qtrunc_mono. change (inject_Z 32768) with (32768 # 1). lra.
Qed.

(** ** What [encodeWAV] returns *)

Lemma encodeWAV_returns options this audioBuffers wav :
  new options = Ok this -> encodeWAV this audioBuffers = Ok wav ->
  let n := totalSamples audioBuffers in
  let dataSize := n * bytesPerSample this in
  0 < n /\ 2 <= bytesPerSample this /\
  wav = header_bytes this (36 + dataSize) dataSize
        ++ sample_bytes (converted audioBuffers)
        ++ replicate (Z.to_nat (dataSize - 2 * n)) x00 /\
  blen wav = 44 + dataSize.
Proof.
  intros Hnew Henc. cbv zeta.
  destruct (new_inversion _ _ Hnew) as (_ & _ & Hin & Hbps & _).
  assert (Hrange : 1 <= bytesPerSample this <= 4).
  { set_unfold in Hin. lia. }
  assert (Hn : totalSamples audioBuffers <> 0).
  { intros H0. unfold encodeWAV in Henc.
    destruct (length audioBuffers =? 0)%nat; [discriminate|].
    cbv zeta in Henc. rewrite H0 in Henc. discriminate. }
  assert (Hpos : 0 < totalSamples audioBuffers)
    by (rewrite totalSamples_length in *; lia).
  rewrite (encodeWAV_body this audioBuffers Hn) in Henc by lia.
  destruct (2 <=? bytesPerSample this) eqn:E; [|discriminate].
  apply Z.leb_le in E.
  match type of Henc with Ok ?file = _ =>
    assert (Hwav : wav = file) by congruence
  end.
  clear Henc. subst wav.
  split; [exact Hpos|]. split; [exact E|]. split; [reflexivity|].
  unfold blen. rewrite !length_app, sample_bytes_length, length_replicate.
  pose proof (converted_length audioBuffers) as Hc. cbn [header_bytes length].
  assert (Hge : 0 <= totalSamples audioBuffers * bytesPerSample this
                     - 2 * totalSamples audioBuffers) by nia.
  set (d := totalSamples audioBuffers * bytesPerSample this) in *.
  lia.
Qed.

Lemma no_byteRate_mismatch (h : headerInfo) (bytesPerSample : Z) :
  bitsPerSample h = 8 * bytesPerSample ->
  Wav.byteRate h = Wav.sampleRate h * (Wav.numChannels h * bytesPerSample) ->
  byteRateMismatch h = false.
Proof.
  intros Hbits Hrate. unfold byteRateMismatch, expectedByteRate.
  destruct (Qltb _ _) eqn:E; [|reflexivity].
  apply Qltb_lt in E. exfalso. revert E. rewrite Hbits, Hrate.
  rewrite !inject_Z_mult. change (inject_Z 8) with 8%Q.
  set (s := inject_Z (Wav.sampleRate h)). set (c := inject_Z (Wav.numChannels h)).
  set (b := inject_Z bytesPerSample).
  assert (H0 : (s * (c * b) - s * c * (8 * b / 8) == 0)%Q) by field.
  rewrite H0. intros E. discriminate E.
Qed.

(** The header [_parseWAVHeader] reads from an encoded file. *)
Lemma parse_encoded options this audioBuffers wav :
  new options = Ok this -> encodeWAV this audioBuffers = Ok wav ->
  blen wav < 4294967296 ->
  _parseWAVHeader wav
  = Ok {| Wav.fileSize := blen wav;
          Wav.audioFormat := 1;
          Wav.numChannels := Encoder.numChannels this;
          Wav.sampleRate := Encoder.sampleRate this;
          Wav.byteRate := Encoder.byteRate this;
          Wav.blockAlign := Encoder.blockAlign this;
          Wav.bitsPerSample := bitDepth this;
          Wav.fmtSize := 16;
          Wav.duration :=
            _calculateDuration (blen wav) (Encoder.sampleRate this)
              (Encoder.numChannels this) (bitDepth this) |}.
Proof.
  intros Hnew Henc Hsmall.
  destruct (encodeWAV_returns _ _ _ _ Hnew Henc) as (Hn & Hbps & Hwav & Hlen).
  destruct (new_inversion _ _ Hnew) as (Hsr & Hch & Hin & Hbits & Hblock & Hrate).
  assert (Hrange : 1 <= bytesPerSample this <= 4)
    by (set_unfold in Hin; lia).
  set (dataSize := totalSamples audioBuffers * bytesPerSample this) in *.
  rewrite Hwav at 1. rewrite parse_header_bytes. rewrite <- Hwav.
  rewrite (Z.mod_small (36 + dataSize)) by lia.
  rewrite (Z.mod_small (Encoder.numChannels this)) by lia.
  rewrite (Z.mod_small (Encoder.sampleRate this)) by lia.
  rewrite (Z.mod_small (Encoder.byteRate this)) by nia.
  rewrite (Z.mod_small (Encoder.blockAlign this)) by nia.
  rewrite (Z.mod_small (bitDepth this)) by lia.
  replace (36 + dataSize + 8) with (blen wav) by lia.
  reflexivity.
Qed.

(** Below [STRICT] only the format code and the duration decide. *)
Lemma standard_verdict (h : headerInfo) :
  isValid (_validateWAVFormat STANDARD h) = negb (notPCM h) && negb (tooLong h).
Proof.
  unfold _validateWAVFormat, push_mismatch, notPCM, tooLong. cbn [isValid].
  destruct (negb (Wav.audioFormat h =? 1)),
    (negb (Wav.sampleRate h =? SARVAM_PREFERRED.sampleRate)),
    (negb (Wav.numChannels h =? SARVAM_PREFERRED.channels)),
    (negb (bitsPerSample h =? SARVAM_PREFERRED.bitDepth)),
    (js_gt (duration h) (num LIMITS.MAX_DURATION)),
    (byteRateMismatch h); reflexivity.
Qed.

(** What [stopRecording] sends comes from the encoder of [createWAV]:
    mono, 16 bit, at the rate of the recorder, and within the size limits
    of the client. *)
Lemma stopRecording_sent recorder wsOpen wavBlob :
  stopRecording (Some recorder) wsOpen = Sent wavBlob ->
  r_sampleRate recorder <> 0 ->
  1000 <= blen wavBlob <= 50 * 1024 * 1024 /\
  exists options this,
    new options = Ok this /\
    encodeWAV this (audioBuffers recorder) = Ok wavBlob /\
    Encoder.sampleRate this = r_sampleRate recorder /\
    Encoder.numChannels this = 1 /\ bitDepth this = 16 /\
    bytesPerSample this = 2.
Proof.
  unfold stopRecording, stop. intros Hsent Hsr.
  destruct (negb (isRecording recorder)); [discriminate|].
  cbn [audioBuffers r_sampleRate] in Hsent.
  destruct (length (audioBuffers recorder) =? 0)%nat; [discriminate|].
  cbn [fst] in Hsent. cbv [createWAV default from_option id] in Hsent.
  set (options := {| o_sampleRate := Some (r_sampleRate recorder);
                     o_numChannels := None; o_bitDepth := None |}) in *.
  destruct (new options) as [this|e] eqn:Hnew; [|discriminate].
  cbn [rbind rethrow] in Hsent.
  destruct (encodeWAV this (audioBuffers recorder)) as [wav|e] eqn:Henc;
    [|discriminate].
  cbn [rethrow] in Hsent.
  destruct (blen wav <? 1000) eqn:E1; [discriminate|].
  destruct (50 * 1024 * 1024 <? blen wav) eqn:E2; [discriminate|].
  destruct wsOpen; [|discriminate].
  injection Hsent as <-. apply Z.ltb_ge in E1, E2.
  split; [lia|]. exists options, this.
  split; [exact Hnew|]. split; [exact Henc|].
  unfold new in Hnew. destruct (_validateConfiguration _); [|discriminate].
  cbn [rbind] in Hnew. injection Hnew as <-.
  cbn [Encoder.sampleRate Encoder.numChannels bitDepth bytesPerSample
       options o_sampleRate o_numChannels o_bitDepth or_default].
  rewrite (proj2 (Z.eqb_neq _ _) Hsr). repeat split; reflexivity.
Qed.

(** ** The encoder *)

(** X12.  The conversion of samples to 16 bit keeps their order.  For
    samples [x <= y], neither of them [NaN], the stored values are in the
    same order and lie between -32768 and 32767: the clamp to [-1, 1]
    keeps the reduction modulo 2^16 of the [Int16Array] store from ever
    applying, also for the infinities. *)
Theorem sample_conversion_is_monotone (x y : number) :
  js_ge y x = true ->
  -32768 <= convert_sample x /\
  convert_sample x <= convert_sample y /\
  convert_sample y <= 32767.
Proof.
  intros Hge.
  pose proof (convert_sample_bounds x) as Bx.
  pose proof (convert_sample_bounds y) as By.
  split; [lia|]. split; [|lia].
  destruct x as [p| | |], y as [q| | |]; try discriminate Hge.
  - apply convert_sample_mono. apply Qle_bool_iff. exact Hge.
  - change (convert_sample PosInf) with 32767. lia.
  - change (convert_sample PosInf) with 32767. lia.
  - change (convert_sample NegInf) with (-32768). lia.
  - change (convert_sample NegInf) with (-32768). lia.
  - lia.
Qed.

Lemma sample_conversion_is_monotone_witness :
  js_ge (Num (3 # 1)) (Num (- (1 # 2))) = true /\
  convert_sample (Num (- (1 # 2))) <= convert_sample (Num (3 # 1)).
Proof.
  split; [reflexivity|].
  apply (sample_conversion_is_monotone (Num (- (1 # 2))) (Num (3 # 1))).
  reflexivity.
Defined.

(** X13.  The file [encodeWAV] builds.  For an encoder that the
    constructor returned with a bit depth other than 8, and buffers with
    at least one sample, the result is the 44-byte header, then two bytes
    per sample (the converted samples, little-endian, in the order of the
    buffers), then zero bytes up to [bitDepth / 8] bytes per sample.  So
    at 24 and 32 bit the data are 16-bit samples followed by padding, not
    samples of the declared width. *)
Theorem encoded_file_layout
    (options : Options) (this : WAVEncoder) (audioBuffers : list (list number)) :
  new options = Ok this ->
  totalSamples audioBuffers <> 0 ->
  bitDepth this <> 8 ->
  let n := totalSamples audioBuffers in
  let dataSize := n * bytesPerSample this in
  encodeWAV this audioBuffers
  = Ok (header_bytes this (36 + dataSize) dataSize
        ++ sample_bytes (converted audioBuffers)
        ++ replicate (Z.to_nat (dataSize - 2 * n)) x00).
Proof.
  intros Hnew Hn Hdepth. cbv zeta.
  destruct (new_inversion _ _ Hnew) as (_ & _ & Hin & Hbits & _).
  assert (Hrange : 2 <= bytesPerSample this <= 4)
    by (set_unfold in Hin; lia).
  rewrite (encodeWAV_body this audioBuffers Hn) by lia.
  rewrite (proj2 (Z.leb_le _ _)) by lia. reflexivity.
Qed.

Lemma encoded_file_layout_witness :
  exists this wav,
    new options_24bit = Ok this /\
    encodeWAV this loud_buffers = Ok wav /\
    blen wav = 62 /\
    drop 44 wav = [xff; x3f; x00; xc0; x00; x00; xff; x7f; xff; x7f; x00; x80;
                   x00; x00; x00; x00; x00; x00].
Proof.
  eexists. eexists. split; [reflexivity|].
  split.
  - apply (encoded_file_layout options_24bit);
      [reflexivity | vm_compute; discriminate | vm_compute; discriminate].
  - vm_compute. split; reflexivity.
Defined.

(** X14.  An 8-bit encoder never produces a file.  The constructor
    accepts a bit depth of 8, but [encodeWAV] then sizes the view at one
    byte per sample and writes two: for every input with at least one
    sample a [setInt16] falls outside the view, and the call throws
    "WAV encoding failed". *)
Theorem eight_bit_encoder_never_encodes
    (options : Options) (this : WAVEncoder) (audioBuffers : list (list number)) :
  new options = Ok this ->
  bitDepth this = 8 ->
  encodeWAV this audioBuffers
  = Throw (if (length audioBuffers =? 0)%nat then NoAudioBuffers
           else if totalSamples audioBuffers =? 0 then NoAudioData
           else EncodingFailed OffsetOutOfBounds).
Proof.
  intros Hnew Hdepth.
  destruct (new_inversion _ _ Hnew) as (_ & _ & _ & Hbits & _).
  destruct (length audioBuffers =? 0)%nat eqn:E0.
  { unfold encodeWAV. rewrite E0. reflexivity. }
  destruct (totalSamples audioBuffers =? 0) eqn:E1.
  { unfold encodeWAV. rewrite E0. cbv zeta. rewrite E1. reflexivity. }
  apply Z.eqb_neq in E1.
  rewrite (encodeWAV_body this audioBuffers E1) by lia.
  rewrite (proj2 (Z.leb_gt _ _)) by lia. reflexivity.
Qed.

Lemma eight_bit_encoder_never_encodes_witness :
  exists this,
    new options_8bit = Ok this /\
    encodeWAV this loud_buffers = Throw (EncodingFailed OffsetOutOfBounds).
Proof.
  eexists. split; [reflexivity|].
  apply (eight_bit_encoder_never_encodes options_8bit); reflexivity.
Defined.

(** ** From the encoder to the validator *)

(** X15.  What the client encodes, the server reads back.  For a file
    returned by [encodeWAV] (shorter than 2^32 bytes), [_parseWAVHeader]
    succeeds and returns the format code 1, the channel count, sample
    rate, bit depth, byte rate and block alignment of the encoder, a
    [fmt] size of 16 and a [fileSize] equal to the length of the file;
    the byte-rate check of [_validateWAVFormat] finds no mismatch. *)
Theorem encoded_header_reads_back
    (options : Options) (this : WAVEncoder) (audioBuffers : list (list number))
    (wav : list byte) :
  new options = Ok this ->
  encodeWAV this audioBuffers = Ok wav ->
  blen wav < 4294967296 ->
  exists h,
    _parseWAVHeader wav = Ok h /\
    Wav.audioFormat h = 1 /\
    Wav.numChannels h = Encoder.numChannels this /\
    Wav.sampleRate h = Encoder.sampleRate this /\
    bitsPerSample h = bitDepth this /\
    Wav.byteRate h = Encoder.byteRate this /\
    Wav.blockAlign h = Encoder.blockAlign this /\
    fmtSize h = 16 /\
    Wav.fileSize h = blen wav /\
    byteRateMismatch h = false.
Proof.
  intros Hnew Henc Hsmall.
  destruct (new_inversion _ _ Hnew) as (_ & _ & _ & Hbits & Hblock & Hrate).
  eexists. split; [exact (parse_encoded _ _ _ _ Hnew Henc Hsmall)|].
  repeat (split; [reflexivity|]).
  apply (no_byteRate_mismatch _ (bytesPerSample this)); cbn; lia.
Qed.

Lemma encoded_header_reads_back_witness :
  exists wav,
    encodeWAV encoder_16k loud_buffers = Ok wav /\
    exists h,
      _parseWAVHeader wav = Ok h /\
      Wav.sampleRate h = 16000 /\ Wav.fileSize h = 56.
Proof.
  eexists. split; [vm_compute; reflexivity|].
  match goal with
  | |- exists h, _parseWAVHeader ?wav = _ /\ _ =>
      destruct (encoded_header_reads_back
                  {| o_sampleRate := None; o_numChannels := None;
                     o_bitDepth := None |}
                  encoder_16k loud_buffers wav)
        as (h & Hparse & _ & _ & Hsr & _ & _ & _ & _ & Hsize & _);
        [reflexivity | vm_compute; reflexivity | vm_compute; reflexivity |]
  end.
  exists h. split; [exact Hparse|]. split; [exact Hsr|].
  rewrite Hsize. reflexivity.
Defined.

(** The duration the validator computes for a mono 16-bit file of [n]
    samples, and its test against the limit. *)
Lemma duration_of_recording (len sr n : Z) :
  len = 44 + n * 2 -> 0 < n -> 0 < sr ->
  exists q,
    _calculateDuration len sr 1 16 = Num q /\
    (q == inject_Z n / inject_Z sr)%Q /\
    js_gt (Num q) (num LIMITS.MAX_DURATION) = (600 * sr <? n).
Proof.
  intros -> Hn Hsr.
  destruct (duration_of_positive_rate (44 + n * 2) sr 1 16)
    as [Hd _]; try (unfold HEADER.MIN_HEADER_SIZE; lia).
  cbv zeta in Hd. eexists. split; [exact Hd|].
  unfold HEADER.MIN_HEADER_SIZE.
  replace (44 + n * 2 - 44) with (n * 2) by lia.
  assert (Hs : (0 < inject_Z sr)%Q)
    by (change 0%Q with (inject_Z 0); rewrite <- Zlt_Qlt; exact Hsr).
  assert (Hq : (inject_Z (n * 2) / (inject_Z sr * inject_Z 1 * (inject_Z 16 / 8))
                == inject_Z n / inject_Z sr)%Q).
  { rewrite inject_Z_mult. change (inject_Z 2) with 2%Q.
    change (inject_Z 1) with 1%Q. change (inject_Z 16) with 16%Q.
    field. intros H0. rewrite H0 in Hs. discriminate Hs. }
  split; [exact Hq|].
  unfold js_gt, num, LIMITS.MAX_DURATION.
  destruct (600 * sr <? n) eqn:E.
  - apply Z.ltb_lt in E. apply Qltb_lt. rewrite Hq.
    apply Qlt_shift_div_l; [exact Hs|].
    rewrite <- inject_Z_mult, <- Zlt_Qlt. exact E.
  - apply Z.ltb_ge in E. unfold Qltb. apply negb_false_iff.
    apply Qle_bool_iff. rewrite Hq.
    apply Qle_shift_div_r; [exact Hs|].
    rewrite <- inject_Z_mult, <- Zle_Qle. exact E.
Qed.

(** X16.  The validator returns the blob of a recording as it is,
    unless the recording is longer than 600 s.  For the blob
    [stopRecording] sends, [validateAndProcess] of the validator of the
    connection handler, applied to the bytes of the blob, reaches its
    ffmpeg branch exactly when the recorder holds more than 600 s of
    samples; otherwise it returns the very bytes of the blob, marked as
    not processed, with a header that reads PCM, mono, 16 bit at the
    rate of the recorder, and the size check of [transcribeWAVFile]
    passes on them.  The statement is about the validator and that size
    check on the decoded audio; the guards the message handler applies
    to the message itself before it decodes it (rate, length of the
    base64 text, a cycle under way) are not part of it.  The rate of a
    recorder is not 0: its constructor, like that of the encoder, puts
    16000 in the place of a 0. *)
Theorem validator_returns_sent_blob_as_it_is
    (recorder : WebAudioRecorder) (wsOpen : bool) (wavBlob : list byte)
    (ffmpeg : list byte -> result Wav.error (list byte)) (elapsed : Z) :
  stopRecording (Some recorder) wsOpen = Sent wavBlob ->
  r_sampleRate recorder <> 0 ->
  let n := totalSamples (audioBuffers recorder) in
  needsCorrection handler_validator wavBlob = (600 * r_sampleRate recorder <? n) /\
  (n <= 600 * r_sampleRate recorder ->
   exists h,
     validateAndProcess ffmpeg elapsed handler_validator wavBlob
     = Ok {| pr_isValid := true;
             processedBuffer := wavBlob;
             pr_metadata :=
               {| header := h; wasProcessed := false;
                  processingTime := elapsed;
                  originalSize := blen wavBlob;
                  finalSize := blen wavBlob |} |} /\
     Wav.audioFormat h = 1 /\ Wav.numChannels h = 1 /\
     Wav.sampleRate h = r_sampleRate recorder /\ bitsPerSample h = 16 /\
     Stt.precheck wavBlob = None).
Proof.
  intros Hsent Hsr0. cbv zeta.
  destruct (stopRecording_sent _ _ _ Hsent Hsr0)
    as (Hsize & options & this & Hnew & Henc & Hsr & Hch & Hbd & Hbps).
  destruct (encodeWAV_returns _ _ _ _ Hnew Henc) as (Hn & _ & _ & Hlen).
  destruct (new_inversion _ _ Hnew) as (Hrate & _).
  pose proof (parse_encoded _ _ _ _ Hnew Henc ltac:(lia)) as Hparse.
  rewrite Hsr, Hch, Hbd in Hparse. rewrite Hbps in Hlen. rewrite Hsr in Hrate.
  destruct (duration_of_recording (blen wavBlob) (r_sampleRate recorder)
              (totalSamples (audioBuffers recorder)) Hlen Hn ltac:(lia))
    as (q & Hd & _ & Hlong).
  rewrite Hd in Hparse.
  assert (Hfile : _validateFileSize wavBlob = Ok tt).
  { unfold _validateFileSize, LIMITS.MIN_FILE_SIZE, LIMITS.MAX_FILE_SIZE.
    rewrite (proj2 (Z.ltb_ge _ _)) by lia.
    rewrite (proj2 (Z.ltb_ge _ _)) by lia. reflexivity. }
  match type of Hparse with _ = Ok ?header => set (h := header) in * end.
  assert (Hvalid : isValid (_validateWAVFormat STANDARD h)
                   = negb (600 * r_sampleRate recorder
                           <? totalSamples (audioBuffers recorder))).
  { rewrite standard_verdict. unfold notPCM, tooLong.
    cbn [h Wav.audioFormat duration]. rewrite Hlong. reflexivity. }
  split.
  - unfold needsCorrection. rewrite Hfile, Hparse.
    cbn [handler_validator validationLevel autoFix].
    rewrite Hvalid, negb_involutive, andb_true_r. reflexivity.
  - intros Hshort. exists h.
    split; [|repeat (split; [reflexivity|])].
    + unfold validateAndProcess. rewrite Hfile, Hparse. cbn [rbind].
      cbn [handler_validator validationLevel autoFix].
      rewrite Hvalid. rewrite (proj2 (Z.ltb_ge _ _)) by lia. reflexivity.
    + unfold Stt.precheck, CONFIG.PROCESSING.MIN_FILE_SIZE,
        CONFIG.PROCESSING.MAX_FILE_SIZE.
      rewrite (proj2 (Z.ltb_ge _ _)) by lia.
      rewrite (proj2 (Z.ltb_ge _ _)) by lia. reflexivity.
Qed.

Lemma validator_returns_sent_blob_as_it_is_witness :
  exists wavBlob,
    stopRecording (Some short_recording) true = Sent wavBlob /\
    needsCorrection handler_validator wavBlob = false /\
    blen wavBlob = 1068.
Proof.
  eexists. split; [vm_compute; reflexivity|].
  split; [|vm_compute; reflexivity].
  match goal with
  | |- needsCorrection _ ?wavBlob = _ =>
      rewrite (proj1 (validator_returns_sent_blob_as_it_is short_recording true
                        wavBlob no_ffmpeg 0
                        ltac:(vm_compute; reflexivity)
                        ltac:(vm_compute; discriminate)))
  end.
  vm_compute. reflexivity.
Defined.

(** X17.  The server and the recorder agree on the duration.  For the
    blob [stopRecording] sends, the duration in the header the server
    parses is the value of [getDuration] of the recorder: the number of
    samples divided by the sample rate. *)
Theorem server_and_recorder_agree_on_duration
    (recorder : WebAudioRecorder) (wsOpen : bool) (wavBlob : list byte) :
  stopRecording (Some recorder) wsOpen = Sent wavBlob ->
  r_sampleRate recorder <> 0 ->
  exists h q q',
    _parseWAVHeader wavBlob = Ok h /\
    duration h = Num q /\
    getDuration recorder = Num q' /\
    (q == q')%Q.
Proof.
  intros Hsent Hsr0.
  destruct (stopRecording_sent _ _ _ Hsent Hsr0)
    as (Hsize & options & this & Hnew & Henc & Hsr & Hch & Hbd & Hbps).
  destruct (encodeWAV_returns _ _ _ _ Hnew Henc) as (Hn & _ & _ & Hlen).
  destruct (new_inversion _ _ Hnew) as (Hrate & _).
  pose proof (parse_encoded _ _ _ _ Hnew Henc ltac:(lia)) as Hparse.
  rewrite Hsr, Hch, Hbd in Hparse. rewrite Hbps in Hlen. rewrite Hsr in Hrate.
  destruct (duration_of_recording (blen wavBlob) (r_sampleRate recorder)
              (totalSamples (audioBuffers recorder)) Hlen Hn ltac:(lia))
    as (q & Hd & Hq & _).
  eexists. exists q. eexists.
  split; [exact Hparse|]. split; [exact Hd|].
  split; [|exact Hq].
  unfold getDuration, js_div.
  destruct (Qeq_bool (inject_Z (r_sampleRate recorder)) 0) eqn:E;
    [|reflexivity].
  apply Qeq_bool_iff in E. exfalso. apply Hsr0.
  unfold Qeq in E. cbn in E. lia.
Qed.

Lemma server_and_recorder_agree_on_duration_witness :
  exists wavBlob,
    stopRecording (Some short_recording) true = Sent wavBlob /\
    exists h q,
      _parseWAVHeader wavBlob = Ok h /\
      duration h = Num q /\ (q == 512 # 16000)%Q.
Proof.
  eexists. split; [vm_compute; reflexivity|].
  match goal with
  | |- exists h q, _parseWAVHeader ?wavBlob = _ /\ _ =>
      destruct (server_and_recorder_agree_on_duration short_recording true
                  wavBlob ltac:(vm_compute; reflexivity)
                  ltac:(vm_compute; discriminate))
        as (h & q & q' & Hparse & Hd & Hget & Hq)
  end.
  exists h, q. split; [exact Hparse|]. split; [exact Hd|].
  rewrite Hq. vm_compute in Hget. injection Hget as <-. reflexivity.
Defined.

End EncoderProofs.

(* ===================================================================== *)
(** * Further properties of the connection handler *)
(* ===================================================================== *)

Module SessionExtras.

Import Wav Session Samples.

(** ** Timer handles *)

Lemma handles_known_on_message now m st :
  handles_known st -> handles_known (on_message now m st).
Proof.
  intros H task t0 h. unfold on_message.
  repeat match goal with
  | |- context [if ?c then _ else _] => destruct c
  end; cbn; try apply H.
  - intros Hl. apply H in Hl. lia.
  - intros Hl. apply lookup_insert_Some in Hl as [[_ [=]]|[_ Hl]].
    exact (H _ _ _ Hl).
Qed.

Lemma handles_known_finish now st :
  handles_known st -> handles_known (finish now st).
Proof.
  intros H task t0 h. unfold finish.
  destruct (last _); cbn; intros Hl; apply H in Hl; lia.
Qed.

Lemma handles_known_on_catch message st :
  handles_known st -> handles_known (on_catch message st).
Proof. intros H task t0 h. cbn. apply H. Qed.

Lemma handles_known_resume task st :
  handles_known st -> handles_known (resume task st).
Proof.
  intros H task' t0 h. cbn. intros Hl.
  apply lookup_delete_Some in Hl as [_ Hl]. exact (H _ _ _ Hl).
Qed.

Lemma handles_known_step st e st' :
  handles_known st -> step st e = Some st' -> handles_known st'.
Proof.
  intros H. destruct e as [now m|now task r|now task x|now handle| |];
    cbn [step].
  - destruct (isOpen st); [|discriminate]. intros [= <-].
    apply handles_known_on_message, H.
  - unfold on_validated.
    destruct (awaiting st !! task) as [[t0|t0 h]|] eqn:Ha; try discriminate.
    destruct r as [validationResult|message].
    + destruct (Stt.precheck _).
      * intros [= <-]. apply handles_known_finish, handles_known_on_catch.
        intros task' t1 h'. cbn. intros Hl.
        apply lookup_delete_Some in Hl as [_ Hl]. apply H in Hl. lia.
      * intros [= <-]. intros task' t1 h'. cbn. intros Hl.
        apply lookup_insert_Some in Hl as [[_ [= _ <-]]|[_ Hl]]; [lia|].
        apply lookup_delete_Some in Hl as [_ Hl]. apply H in Hl. lia.
    + intros [= <-]. apply handles_known_finish, handles_known_on_catch,
        handles_known_resume, H.
  - unfold on_transcribed.
    destruct (awaiting st !! task) as [[t0|t0 h]|] eqn:Ha; try discriminate.
    destruct (Stt.settle x) as [transcript|message]; intros [= <-].
    + apply handles_known_finish. unfold on_transcript.
      destruct (_ && _); intros task' t1 h'; cbn; intros Hl;
        apply lookup_delete_Some in Hl as [_ Hl]; exact (H _ _ _ Hl).
    + apply handles_known_finish, handles_known_on_catch,
        handles_known_resume, H.
  - unfold on_timer. destruct (timers st !! handle) as [[due cb]|]; [|discriminate].
    destruct (due <=? now)%Z; [|discriminate]. intros [= <-].
    destruct cb as [| |queued]; try exact H.
    destruct (isOpen _); [|exact H].
    apply handles_known_on_message. exact H.
  - destruct (isOpen st); [|discriminate]. intros [= <-]. exact H.
  - intros [= <-]. exact H.
Qed.

Lemma handles_known_reachable st : reachable st -> handles_known st.
Proof.
  induction 1 as [|st e st' _ IH Hstep].
  - intros task t0 h. cbn. rewrite lookup_empty. discriminate.
  - exact (handles_known_step _ _ _ IH Hstep).
Qed.

Lemma timers_finish now st h :
  h <> nextTimer st -> timers (finish now st) !! h = timers st !! h.
Proof.
  intros Hne. unfold finish. destruct (last _); cbn; [|reflexivity].
  rewrite lookup_insert_ne by congruence. reflexivity.
Qed.

Lemma reachable_run st es : forall st',
  reachable st -> run st es = Some st' -> reachable st'.
Proof.
  revert st. induction es as [|e es IH]; intros st st' Hreach; cbn [run].
  - intros [= <-]. exact Hreach.
  - destruct (step st e) as [st1|] eqn:Hstep; [|discriminate].
    apply IH. exact (reachable_step _ _ _ Hreach Hstep).
Qed.

(** ** From the validator to the speech service *)

(** X18.  A buffer the validator accepted as it is always reaches the
    speech service.  When [validateAndProcess] returns a result that is
    not marked as processed, the size check at the head of
    [transcribeWAVFile] passes (it repeats the limits of
    [_validateFileSize] on the same bytes), so the handler resumed with
    this result sets the 3-minute timeout and is suspended at the
    request; it does not enter its [catch]. *)
Theorem validated_buffer_reaches_the_transcriber
    (ffmpeg : list byte -> result Wav.error (list byte)) (elapsed : Z)
    (this : WAVValidator) (buf : list byte) (r : processResult)
    (now currentTime : Z) (task : nat) (st : State) :
  validateAndProcess ffmpeg elapsed this buf = Ok r ->
  wasProcessed (pr_metadata r) = false ->
  awaiting st !! task = Some (AwaitValidation currentTime) ->
  Stt.precheck (processedBuffer r) = None /\
  on_validated now task (Ok r) st
  = Some (suspend (AwaitTranscript currentTime (nextTimer st))
            (setTimeout ProcessingTimeout 180000 now (resume task st))).
Proof.
  intros Hret Hwas Hawait.
  destruct (WavProofs.validateAndProcess_returns ffmpeg elapsed this buf r Hret)
    as (_ & Hsize & h & Hparse & Hheader & Hcases).
  assert (Hbuf : processedBuffer r = buf).
  { destruct Hcases as [(_ & Hbuf & _)|(_ & _ & _ & Hwas' & _)];
      [exact Hbuf|congruence]. }
  assert (Hpre : Stt.precheck (processedBuffer r) = None).
  { rewrite Hbuf. unfold _validateFileSize in Hsize. unfold Stt.precheck.
    change CONFIG.PROCESSING.MIN_FILE_SIZE with LIMITS.MIN_FILE_SIZE.
    change CONFIG.PROCESSING.MAX_FILE_SIZE with LIMITS.MAX_FILE_SIZE.
    destruct (blen buf <? LIMITS.MIN_FILE_SIZE); [discriminate|].
    destruct (LIMITS.MAX_FILE_SIZE <? blen buf); [discriminate|]. reflexivity. }
  split; [exact Hpre|].
  unfold on_validated. rewrite Hawait, Hpre. reflexivity.
Qed.


Lemma validated_buffer_reaches_the_transcriber_witness :
  Stt.precheck clip_16k = None /\
  exists st',
    on_validated 10050 0 (Ok validated_clip) (on_message 10000 message_A init)
    = Some st' /\
    awaiting st' !! 1%nat = Some (AwaitTranscript 10000 0).
Proof.
  destruct (validated_buffer_reaches_the_transcriber no_ffmpeg 3
              handler_validator clip_16k validated_clip 10050 10000 0
              (on_message 10000 message_A init))
    as [Hpre Hstep]; [vm_compute; reflexivity..|].
  split; [exact Hpre|]. eexists. split; [exact Hstep|].
  vm_compute. reflexivity.
Defined.

(** ** The 3-minute timeout *)

(** X19.  The 3-minute timeout is cleared on success only.  When the
    handler is resumed from [transcribeWAVFile], its timeout is gone
    from the pending timers if the promise resolved; if it rejected,
    [clearTimeout] is skipped and the timeout is as it was before: still
    pending if it has not run, and then due to set [isProcessing] to
    false at a later time, whatever the handler is doing by then. *)
Theorem timeout_is_cleared_on_success_only
    (st : State) (now : Z) (task : nat) (x : Stt.exchange)
    (currentTime : Z) (processingTimeout : nat) :
  reachable st ->
  awaiting st !! task = Some (AwaitTranscript currentTime processingTimeout) ->
  exists st',
    on_transcribed now task x st = Some st' /\
    timers st' !! processingTimeout
    = match Stt.settle x with
      | Stt.Resolve _ => None
      | Stt.Reject _ => timers st !! processingTimeout
      end.
Proof.
  intros Hreach Hawait.
  pose proof (handles_known_reachable st Hreach _ _ _ Hawait) as Hknown.
  unfold on_transcribed. rewrite Hawait.
  destruct (Stt.settle x) as [transcript|message]; eexists;
    (split; [reflexivity|]).
  - rewrite timers_finish.
    + unfold on_transcript. destruct (_ && _); cbn; apply lookup_delete_eq.
    + unfold on_transcript. destruct (_ && _); cbn; lia.
  - rewrite timers_finish by (cbn; lia). reflexivity.
Qed.

Lemma timeout_is_cleared_on_success_only_witness :
  exists st',
    on_transcribed 10900 1 (Stt.End_ service_unavailable) awaiting_transcript
    = Some st' /\
    timers st' !! 0%nat = Some (190050, ProcessingTimeout).
Proof.
  destruct (timeout_is_cleared_on_success_only awaiting_transcript 10900 1
              (Stt.End_ service_unavailable) 10000 0)
    as (st' & Hstep & Htimer).
  - apply (reachable_run init [Message 10000 message_A;
                               Validated 10050 0 (Ok validated_clip)]);
      [apply reachable_init|vm_compute; reflexivity].
  - vm_compute. reflexivity.
  - exists st'. split; [exact Hstep|]. rewrite Htimer. vm_compute. reflexivity.
Defined.

(** ** After the close *)

Lemma finish_keeps now st :
  isOpen (finish now st) = isOpen st /\
  lastProcessTime (vars (finish now st)) = lastProcessTime (vars st) /\
  awaiting (finish now st) = awaiting st.
Proof. unfold finish. destruct (last _); cbn; auto. Qed.

Lemma on_transcript_keeps now t0 h transcript st :
  isOpen (on_transcript now t0 h transcript st) = isOpen st /\
  lastProcessTime (vars (on_transcript now t0 h transcript st))
  = lastProcessTime (vars st) /\
  awaiting (on_transcript now t0 h transcript st) = awaiting st.
Proof. unfold on_transcript. destruct (_ && _); cbn; auto. Qed.

Lemma closed_step st e st' :
  isOpen st = false -> step st e = Some st' ->
  isOpen st' = false /\
  lastProcessTime (vars st') = lastProcessTime (vars st) /\
  no_new_validation st st'.
Proof.
  intros Hclosed.
  destruct e as [now m|now task r|now task x|now handle| |]; cbn [step].
  - rewrite Hclosed. discriminate.
  - unfold on_validated.
    destruct (awaiting st !! task) as [[t0|t0 h]|] eqn:Ha; try discriminate.
    destruct r as [validationResult|message];
      [destruct (Stt.precheck _)|]; intros [= <-].
    + destruct (finish_keeps now
                  (on_catch s (setTimeout ProcessingTimeout 180000 now
                                 (resume task st)))) as (-> & -> & Hw).
      cbn. repeat split; try assumption.
      intros task' t1. rewrite Hw. cbn. intros Hl.
      apply lookup_delete_Some in Hl as [_ Hl]. exact Hl.
    + cbn. repeat split; try assumption.
      intros task' t1. cbn. intros Hl.
      apply lookup_insert_Some in Hl as [[_ [=]]|[_ Hl]].
      apply lookup_delete_Some in Hl as [_ Hl]. exact Hl.
    + destruct (finish_keeps now (on_catch message (resume task st)))
        as (-> & -> & Hw).
      cbn. repeat split; try assumption.
      intros task' t1. rewrite Hw. cbn. intros Hl.
      apply lookup_delete_Some in Hl as [_ Hl]. exact Hl.
  - unfold on_transcribed.
    destruct (awaiting st !! task) as [[t0|t0 h]|] eqn:Ha; try discriminate.
    destruct (Stt.settle x) as [transcript|message]; intros [= <-].
    + destruct (finish_keeps now
                  (on_transcript now t0 h transcript (resume task st)))
        as (-> & -> & Hw).
      destruct (on_transcript_keeps now t0 h transcript (resume task st))
        as (-> & -> & Hw').
      cbn. repeat split; try assumption.
      intros task' t1. rewrite Hw, Hw'. cbn. intros Hl.
      apply lookup_delete_Some in Hl as [_ Hl]. exact Hl.
    + destruct (finish_keeps now (on_catch message (resume task st)))
        as (-> & -> & Hw).
      cbn. repeat split; try assumption.
      intros task' t1. rewrite Hw. cbn. intros Hl.
      apply lookup_delete_Some in Hl as [_ Hl]. exact Hl.
  - unfold on_timer.
    destruct (timers st !! handle) as [[due cb]|]; [|discriminate].
    destruct (due <=? now)%Z; [|discriminate]. intros [= <-].
    destruct cb as [| |queued]; cbn; rewrite ?Hclosed;
      repeat split; try assumption; intros task' t1 Hl; exact Hl.
  - rewrite Hclosed. discriminate.
  - intros [= <-]. cbn. repeat split; try assumption.
    intros task' t1 Hl. exact Hl.
Qed.

(** X20.  A closed connection starts no processing.  Once the socket is
    closed, whatever happens next (handlers that were suspended resume,
    timeouts run, errors are signalled), the socket stays closed,
    [lastProcessTime] keeps its value and no handler is newly suspended
    at the validator: queued messages handed to a timeout are dropped
    when it runs. *)
Theorem closed_connection_starts_no_processing
    (st : State) (es : list event) (st' : State) :
  isOpen st = false ->
  run st es = Some st' ->
  isOpen st' = false /\
  lastProcessTime (vars st') = lastProcessTime (vars st) /\
  no_new_validation st st'.
Proof.
  revert st. induction es as [|e es IH]; intros st Hclosed; cbn [run].
  - intros [= <-]. repeat split; try assumption. intros task t0 Hl. exact Hl.
  - destruct (step st e) as [st1|] eqn:Hstep; [|discriminate].
    destruct (closed_step _ _ _ Hclosed Hstep) as (Hc1 & Hl1 & Hn1).
    intros Hrun. destruct (IH st1 Hc1 Hrun) as (Hc & Hl & Hn).
    split; [exact Hc|]. split; [congruence|].
    intros task t0 Hw. apply Hn1, Hn, Hw.
Qed.

Lemma closed_connection_starts_no_processing_witness :
  exists st',
    run closed_session
      [Validated 10050 0 (Ok validated_clip);
       Transcribed 10900 1 (Stt.End_ spoken_response); SocketError] = Some st' /\
    lastProcessTime (vars st') = 10000%Z.
Proof.
  eexists. split; [vm_compute; reflexivity|].
  match goal with
  | |- lastProcessTime (vars ?st') = _ =>
      rewrite (proj1 (proj2 (closed_connection_starts_no_processing
                               closed_session
                               [Validated 10050 0 (Ok validated_clip);
                                Transcribed 10900 1 (Stt.End_ spoken_response);
                                SocketError] st'
                               ltac:(vm_compute; reflexivity)
                               ltac:(vm_compute; reflexivity))))
  end.
  vm_compute. reflexivity.
Defined.

(** ** What the user is told *)

(** X21.  From the status code to the text the user sees.  When the
    service answers with one of the status codes of the [errorMessages]
    table, the handler sends the table entry as [technical] and, as
    [error], "Audio format not supported, please try again" for 400,
    "Service authentication error" for 401, "Audio file too large" for
    413, and the default "Transcription failed" for 403, 429, 500 and
    503: the entry for 429 reads "Rate limit ..", which the
    case-sensitive test for "rate limit" does not match, so a
    rate-limited client is not told that the service is busy. *)
Theorem user_text_by_status
    (r : Stt.response) (st : State) (now : Z) (task : nat)
    (currentTime : Z) (processingTimeout : nat) :
  awaiting st !! task = Some (AwaitTranscript currentTime processingTimeout) ->
  In (Stt.statusCode r) Spec.listed ->
  exists st' technical,
    on_transcribed now task (Stt.End_ r) st = Some st' /\
    Stt.errorMessages !! Stt.statusCode r = Some technical /\
    sent st'
    = (sent st
       ++ [ErrorDetail
             (if (Stt.statusCode r =? 400)%Z
              then "Audio format not supported, please try again"
              else if (Stt.statusCode r =? 401)%Z
              then "Service authentication error"
              else if (Stt.statusCode r =? 413)%Z
              then "Audio file too large"
              else "Transcription failed")
             technical])%list.
Proof.
  intros Hawait Hin. unfold on_transcribed. rewrite Hawait.
  cbn [Stt.settle]. unfold Stt.on_end.
  assert (Hsent : forall message,
            sent (finish now (on_catch message (resume task st)))
            = (sent st ++ [ErrorDetail (userMessage message)
                             (String.substring 0 200 message)])%list).
  { intros message. unfold finish. destruct (last _); reflexivity. }
  repeat (destruct Hin as [<-|Hin]); try contradiction;
    eexists; eexists; (split; [reflexivity|]);
    (split; [vm_compute; reflexivity|]); rewrite Hsent; reflexivity.
Qed.

Lemma user_text_by_status_witness :
  exists st',
    on_transcribed 10900 1 (Stt.End_ too_many_requests) awaiting_transcript
    = Some st' /\
    sent st'
    = [ErrorDetail "Transcription failed"
         "Rate limit exceeded - please try again in a moment"].
Proof.
  destruct (user_text_by_status too_many_requests awaiting_transcript 10900 1
              10000 0)
    as (st' & technical & Hstep & Htech & Hsent).
  - vm_compute. reflexivity.
  - vm_compute. tauto.
  - exists st'. split; [exact Hstep|]. rewrite Hsent.
    vm_compute in Htech. injection Htech as <-. reflexivity.
Defined.

Lemma serialized_idle (st : State) :
  awaiting st = ∅ -> serialized st.
Proof.
  intros H. split.
  - intros t1 t2 k1 k2. rewrite H, lookup_empty. discriminate.
  - intros t k. rewrite H, lookup_empty. discriminate.
Qed.

Lemma serialized_same (st st' : State) :
  serialized st -> awaiting st' = awaiting st ->
  (isOpen st' = true -> isOpen st = true /\
                        isProcessing (vars st') = isProcessing (vars st)) ->
  serialized st'.
Proof.
  intros [H1 H2] Hw Hp. split.
  - rewrite Hw. exact H1.
  - rewrite Hw. intros t k Hl Ho. destruct (Hp Ho) as [Ho' ->]. eauto.
Qed.

Lemma resume_idle (st : State) task k :
  serialized st -> awaiting st !! task = Some k ->
  awaiting (resume task st) = ∅.
Proof.
  intros [H1 _] Hl. cbn. apply map_eq. intros t. rewrite lookup_empty.
  apply lookup_delete_None. destruct (decide (task = t)) as [->|Hne]; [auto|].
  right. destruct (awaiting st !! t) as [k'|] eqn:E; [|reflexivity].
  exfalso. apply Hne. exact (H1 _ _ _ _ Hl E).
Qed.

Lemma serialized_on_message now m st :
  isOpen st = true -> serialized st -> serialized (on_message now m st).
Proof.
  intros Hopen Hser. unfold on_message.
  repeat match goal with
  | |- context [if ?c then _ else _] => destruct c eqn:?
  end; try (apply (serialized_same st); [exact Hser|reflexivity|cbn; auto]).
  destruct Hser as [H1 H2]. split.
  - intros t1 t2 k1 k2. cbn. intros L1 L2.
    apply lookup_insert_Some in L1 as [[<- _]|[_ L1]];
      apply lookup_insert_Some in L2 as [[<- _]|[_ L2]]; try reflexivity;
      exfalso; [pose proof (H2 _ _ L2 Hopen)|pose proof (H2 _ _ L1 Hopen)|
                pose proof (H2 _ _ L1 Hopen)]; congruence.
  - intros. reflexivity.
Qed.

Lemma awaiting_finish now st : awaiting (finish now st) = awaiting st.
Proof. apply finish_keeps. Qed.

Lemma serialized_step st e st' :
  serialized st -> releases st e = false -> step st e = Some st' ->
  serialized st'.
Proof.
  intros Hser Hquiet.
  destruct e as [now m|now task r|now task x|now handle| |]; cbn [step].
  - destruct (isOpen st) eqn:Hopen; [|discriminate]. intros [= <-].
    apply serialized_on_message; assumption.
  - unfold on_validated.
    destruct (awaiting st !! task) as [[t0|t0 h]|] eqn:Ha; try discriminate.
    pose proof (resume_idle st task _ Hser Ha) as Hidle.
    destruct r as [validationResult|message];
      [destruct (Stt.precheck _)|]; intros [= <-].
    + apply serialized_idle. rewrite awaiting_finish. exact Hidle.
    + split.
      * intros t1 t2 k1 k2. cbn. cbn in Hidle. rewrite Hidle.
        intros L1 L2.
        apply lookup_insert_Some in L1 as [[<- _]|[_ L1]];
          [|rewrite lookup_empty in L1; discriminate].
        apply lookup_insert_Some in L2 as [[<- _]|[_ L2]];
          [reflexivity|rewrite lookup_empty in L2; discriminate].
      * intros t k _. cbn. intros Hopen. exact (proj2 Hser _ _ Ha Hopen).
    + apply serialized_idle. rewrite awaiting_finish. exact Hidle.
  - unfold on_transcribed.
    destruct (awaiting st !! task) as [[t0|t0 h]|] eqn:Ha; try discriminate.
    pose proof (resume_idle st task _ Hser Ha) as Hidle.
    destruct (Stt.settle x) as [transcript|message]; intros [= <-];
      apply serialized_idle; rewrite awaiting_finish; [|exact Hidle].
    destruct (on_transcript_keeps now t0 h transcript (resume task st))
      as (_ & _ & ->). exact Hidle.
  - unfold on_timer. cbn [releases] in Hquiet.
    destruct (timers st !! handle) as [[due cb]|]; [|discriminate].
    destruct (due <=? now)%Z; [|discriminate]. intros [= <-].
    destruct cb as [| |queued]; [|discriminate|].
    + apply (serialized_same st); [exact Hser|reflexivity|cbn; auto].
    + assert (Hc : serialized (clearTimeout handle st))
        by (apply (serialized_same st); [exact Hser|reflexivity|cbn; auto]).
      destruct (isOpen st) eqn:Hopen; [|exact Hc].
      apply serialized_on_message; [exact Hopen|exact Hc].
  - destruct (isOpen st); [|discriminate]. intros [= <-].
    apply (serialized_same st); [exact Hser|reflexivity|].
    cbn. discriminate.
  - discriminate Hquiet.
Qed.

(** X22.  One transcription at a time.  As long as neither the 3-minute
    timeout runs nor the socket signals an error, a connection has at
    most one message handler under way (suspended at the validator or
    at the speech service), and while the socket is open [isProcessing]
    is set as long as one is. *)
Theorem one_transcription_at_a_time (es : list event) (st : State) :
  run_unreleased init es = Some st ->
  (size (awaiting st) <= 1)%nat /\ serialized st.
Proof.
  assert (Hgen : forall es st0 st, serialized st0 ->
            run_unreleased st0 es = Some st -> serialized st).
  { clear. induction es as [|e es' IH]; intros st0 st Hser; cbn [run_unreleased].
    - intros [= <-]. exact Hser.
    - destruct (releases st0 e) eqn:Hq; [discriminate|].
      destruct (step st0 e) as [st1|] eqn:Hstep; [|discriminate].
      apply IH. exact (serialized_step _ _ _ Hser Hq Hstep). }
  intros Hrun.
  assert (Hser : serialized st).
  { apply (Hgen es init st); [|exact Hrun].
    apply serialized_idle. reflexivity. }
  split; [|exact Hser].
  destruct Hser as [H1 _].
  rewrite <- length_map_to_list.
  destruct (map_to_list (awaiting st)) as [|[t1 k1] [|[t2 k2] rest]] eqn:E;
    [cbn; lia..|].
  exfalso.
  pose proof (NoDup_fst_map_to_list (awaiting st)) as Hnd.
  rewrite E in Hnd. cbn in Hnd.
  assert (L1 : awaiting st !! t1 = Some k1)
    by (apply elem_of_map_to_list; rewrite E; left).
  assert (L2 : awaiting st !! t2 = Some k2)
    by (apply elem_of_map_to_list; rewrite E; right; left).
  pose proof (H1 _ _ _ _ L1 L2) as ->.
  apply NoDup_cons in Hnd as [Hnot _]. apply Hnot. left.
Qed.

Lemma one_transcription_at_a_time_witness :
  exists st,
    run_unreleased init (third_cycle spoken_response) = Some st /\
    (size (awaiting st) <= 1)%nat.
Proof.
  eexists. split; [vm_compute; reflexivity|].
  apply (one_transcription_at_a_time (third_cycle spoken_response)).
  vm_compute. reflexivity.
Defined.

(** Without the proviso the property fails: a timeout left pending by a
    rejected transcription runs during a later cycle, and the next
    message starts a second handler beside the first. *)
Example stale_timeout_admits_a_second_handler :
  (fun st => size (awaiting st)) <$> run init stale_timeout_trace
  = Some 2%nat /\
  run_unreleased init stale_timeout_trace = None.
Proof. split; vm_compute; reflexivity. Qed.

(** ** Trimming *)

Lemma skip_spaces_clean (backwards : bool) (l : list ascii) :
  starts_with_space backwards l = false -> skip_spaces backwards l = l.
Proof.
  destruct l as [|c1 [|c2 [|c3 l3]]]; cbn [starts_with_space skip_spaces];
    try reflexivity.
  - intros H. apply orb_false_iff in H as [-> _]. reflexivity.
  - intros H. apply orb_false_iff in H as [-> H].
    apply orb_false_iff in H as [-> _]. reflexivity.
  - intros H. apply orb_false_iff in H as [-> H].
    apply orb_false_iff in H as [-> ->]. reflexivity.
Qed.

(** What [skip_spaces] returns starts with no white space, and is the
    end of its argument. *)
Lemma skip_spaces_spec (backwards : bool) (n : nat) :
  forall l, (length l <= n)%nat ->
    starts_with_space backwards (skip_spaces backwards l) = false /\
    exists skipped, l = skipped ++ skip_spaces backwards l.
Proof.
  induction n as [|n IH]; intros l Hlen.
  - destruct l; [|cbn in Hlen; lia]. split; [reflexivity|]. exists []. reflexivity.
  - destruct l as [|c1 l1]; [split; [reflexivity|exists []; reflexivity]|].
    cbn [length] in Hlen. cbn [skip_spaces].
    destruct (is_space c1) eqn:E1.
    { destruct (IH l1 ltac:(lia)) as [Hc [sk Hsk]]. split; [exact Hc|].
      exists (c1 :: sk). cbn [app]. congruence. }
    destruct l1 as [|c2 l2].
    { split; [cbn; rewrite E1; reflexivity|exists []; reflexivity]. }
    cbn [length] in Hlen.
    destruct (if backwards then is_space2 c2 c1 else is_space2 c1 c2) eqn:E2.
    { destruct (IH l2 ltac:(lia)) as [Hc [sk Hsk]]. split; [exact Hc|].
      exists (c1 :: c2 :: sk). cbn [app]. congruence. }
    destruct l2 as [|c3 l3].
    { split; [cbn [starts_with_space]; rewrite E1, E2; reflexivity
             |exists []; reflexivity]. }
    cbn [length] in Hlen.
    destruct (if backwards then is_space3 c3 c2 c1 else is_space3 c1 c2 c3)
      eqn:E3.
    { destruct (IH l3 ltac:(lia)) as [Hc [sk Hsk]]. split; [exact Hc|].
      exists (c1 :: c2 :: c3 :: sk). cbn [app]. congruence. }
    split; [cbn [starts_with_space]; rewrite E1, E2, E3; reflexivity
           |exists []; reflexivity].
Qed.

Lemma skip_spaces_idempotent (backwards : bool) (l : list ascii) :
  skip_spaces backwards (skip_spaces backwards l) = skip_spaces backwards l.
Proof.
  apply skip_spaces_clean.
  exact (proj1 (skip_spaces_spec backwards (length l) l (le_n _))).
Qed.

(** A beginning of bytes that start with no white space starts with
    none. *)
Lemma clean_beginning (l rest : list ascii) :
  starts_with_space false (l ++ rest) = false ->
  starts_with_space false l = false.
Proof.
  destruct l as [|c1 [|c2 [|c3 l3]]]; cbn [starts_with_space app];
    try reflexivity.
  - intros H. destruct (is_space c1); [|reflexivity].
    destruct rest; discriminate H.
  - intros H. destruct (is_space c1); [destruct rest; discriminate H|].
    destruct (is_space2 c1 c2); [destruct rest; discriminate H|]. reflexivity.
  - intros H. exact H.
Qed.

(** [s.trim().trim()] is [s.trim()]. *)
Lemma trim_idempotent (s : string) : trim (trim s) = trim s.
Proof.
  unfold trim, trim_end, trim_start.
  rewrite !list_ascii_of_string_of_list_ascii.
  set (u := skip_spaces false (list_ascii_of_string s)).
  destruct (skip_spaces_spec false (length (list_ascii_of_string s)) _ (le_n _))
    as [Hu _]. fold u in Hu.
  destruct (skip_spaces_spec true (length (rev u)) (rev u) (le_n _))
    as [_ [sk Hsk]].
  set (w := skip_spaces true (rev u)) in *.
  assert (Hv : u = rev w ++ rev sk).
  { rewrite <- rev_app_distr, <- Hsk, rev_involutive. reflexivity. }
  rewrite (skip_spaces_clean false (rev w))
    by (apply (clean_beginning _ (rev sk)); rewrite <- Hv; exact Hu).
  rewrite rev_involutive. unfold w. rewrite skip_spaces_idempotent.
  reflexivity.
Qed.

(** X23.  What the service transcribed is sent trimmed, and blank
    transcripts count as silence.  When the service answers 200 with a
    transcript [t], the client is sent [t] trimmed, with the time of the
    answer and the time taken since the message arrived, and the error
    counter is reset; when nothing is left of [t] after trimming, or the
    answer has no transcript, the client is sent the no-speech message
    and the error counter keeps its value.  White space is that of
    [String.prototype.trim], the no-break space and the other Unicode
    spaces included.  Trimming again in the handler changes nothing. *)
Theorem transcript_is_sent_trimmed
    (r : Stt.response) (st : State) (now : Z) (task : nat)
    (currentTime : Z) (processingTimeout : nat) (t : option string) :
  awaiting st !! task = Some (AwaitTranscript currentTime processingTimeout) ->
  Stt.statusCode r = 200%Z ->
  Stt.JSON_parse r = Stt.Value t ->
  let text := trim (default EmptyString t) in
  exists st',
    on_transcribed now task (Stt.End_ r) st = Some st' /\
    sent st'
    = (sent st ++ [if truthy text then Transcript text now (now - currentTime)
                   else NoSpeech])%list /\
    consecutiveErrors (vars st')
    = (if truthy text then 0%Z else consecutiveErrors (vars st)).
Proof.
  intros Hawait Hstatus Hparse text.
  unfold on_transcribed. rewrite Hawait. cbn [Stt.settle]. unfold Stt.on_end.
  rewrite Hstatus, Hparse. cbn [Z.eqb Pos.eqb].
  assert (Hres : (match t with
                  | Some transcript => Stt.Resolve (trim transcript)
                  | None => Stt.Resolve EmptyString
                  end) = Stt.Resolve text).
  { subst text. destruct t; reflexivity. }
  rewrite Hres. eexists. split; [reflexivity|].
  assert (Hidem : trim text = text) by apply trim_idempotent.
  unfold on_transcript. rewrite Hidem.
  destruct (truthy text) eqn:Et.
  - cbn [andb]. unfold finish.
    destruct (last _); cbn; auto.
  - cbn [andb]. unfold finish. destruct (last _); cbn; auto.
Qed.

Lemma transcript_is_sent_trimmed_witness :
  exists st',
    on_transcribed 10900 1 (Stt.End_ blank_response) awaiting_transcript
    = Some st' /\
    sent st' = [NoSpeech] /\
    consecutiveErrors (vars st') = 0%Z.
Proof.
  destruct (transcript_is_sent_trimmed blank_response awaiting_transcript
              10900 1 10000 0 (Some blank_transcript)
              ltac:(vm_compute; reflexivity) eq_refl eq_refl)
    as (st' & Hstep & Hsent & Herr).
  exists st'. split; [exact Hstep|].
  split; [rewrite Hsent|rewrite Herr]; vm_compute; reflexivity.
Defined.

(** ** Failures that are not HTTP answers *)

Lemma sent_finish now st : sent (finish now st) = sent st.
Proof. unfold finish. destruct (last _); reflexivity. Qed.

(** X24.  From the cause of a failed request to the text the user sees.
    Every timeout (of the response, of the socket, of the request as a
    whole, and the network error [ETIMEDOUT]) is reported as "Processing
    took too long, please try again"; [ENOTFOUND] as "Network error,
    please check your connection"; a response of more than 10 MiB as
    "Audio file too large", although the audio was not; and
    [ECONNRESET], [ECONNREFUSED] and [CERT_HAS_EXPIRED] as the default
    "Transcription failed": the texts of the first two start with a
    capital "Connection", which the test for "connection" does not
    match, and the text of the third matches no test. *)
Theorem user_text_by_failure
    (x : Stt.exchange) (detail : string) (st : State) (now : Z) (task : nat)
    (currentTime : Z) (processingTimeout : nat) :
  awaiting st !! task = Some (AwaitTranscript currentTime processingTimeout) ->
  In x [Stt.ResponseTooLarge; Stt.ResponseTimeout; Stt.SocketTimeout;
        Stt.RequestTimeout;
        Stt.RequestError (Some "ECONNRESET"%string) detail;
        Stt.RequestError (Some "ENOTFOUND"%string) detail;
        Stt.RequestError (Some "ETIMEDOUT"%string) detail;
        Stt.RequestError (Some "ECONNREFUSED"%string) detail;
        Stt.RequestError (Some "CERT_HAS_EXPIRED"%string) detail] ->
  exists st' technical,
    on_transcribed now task x st = Some st' /\
    Stt.settle x = Stt.Reject technical /\
    sent st'
    = sent st
      ++ [ErrorDetail
            match x with
            | Stt.ResponseTooLarge => "Audio file too large"
            | Stt.ResponseTimeout | Stt.SocketTimeout | Stt.RequestTimeout
            | Stt.RequestError (Some "ETIMEDOUT"%string) _ =>
                "Processing took too long, please try again"
            | Stt.RequestError (Some "ENOTFOUND"%string) _ =>
                "Network error, please check your connection"
            | _ => "Transcription failed"
            end
            technical].
Proof.
  intros Hawait Hin. unfold on_transcribed. rewrite Hawait.
  repeat (destruct Hin as [<-|Hin]); try contradiction;
    eexists; eexists; (split; [reflexivity|]); (split; [reflexivity|]);
    rewrite sent_finish; reflexivity.
Qed.

Lemma user_text_by_failure_witness :
  exists st',
    on_transcribed 10900 1 Stt.ResponseTooLarge awaiting_transcript = Some st' /\
    sent st'
    = [ErrorDetail "Audio file too large"
         "Response too large - possible API error"].
Proof.
  destruct (user_text_by_failure Stt.ResponseTooLarge EmptyString
              awaiting_transcript 10900 1 10000 0)
    as (st' & technical & Hstep & Htech & Hsent).
  - vm_compute. reflexivity.
  - left. reflexivity.
  - exists st'. split; [exact Hstep|]. rewrite Hsent.
    injection Htech as <-. reflexivity.
Defined.

End SessionExtras.

(* ===================================================================== *)
(** * The replies of a session, as the client reads them *)
(* ===================================================================== *)

Module ClientProofs.

Import Wav Session LiveMeeting Samples SessionExtras.

Lemma userMessage_has_text (message : string) :
  truthy (userMessage message) = true.
Proof.
  unfold userMessage.
  repeat match goal with
  | |- context [if ?c then _ else _] => destruct c
  end; reflexivity.
Qed.

Lemma replies_on_message now m st :
  Forall well_formed_reply (sent st) ->
  Forall well_formed_reply (sent (on_message now m st)).
Proof.
  intros H. unfold on_message.
  repeat match goal with
  | |- context [if ?c then _ else _] => destruct c
  end; cbn; try exact H; apply Forall_app; (split; [exact H|]);
    repeat constructor.
Qed.

Lemma replies_on_catch message st :
  Forall well_formed_reply (sent st) ->
  Forall well_formed_reply (sent (on_catch message st)).
Proof.
  intros H. cbn. apply Forall_app. split; [exact H|].
  repeat constructor. apply userMessage_has_text.
Qed.

Lemma replies_on_transcript now t0 h transcript st :
  Forall well_formed_reply (sent st) ->
  Forall well_formed_reply (sent (on_transcript now t0 h transcript st)).
Proof.
  intros H. unfold on_transcript.
  destruct (truthy transcript && truthy (trim transcript)) eqn:E; cbn;
    apply Forall_app; (split; [exact H|]); repeat constructor.
  - apply andb_true_iff in E as [_ E]. exact E.
  - apply trim_idempotent.
Qed.

Lemma replies_step st e st' :
  Forall well_formed_reply (sent st) -> step st e = Some st' ->
  Forall well_formed_reply (sent st').
Proof.
  intros H.
  destruct e as [now m|now task r|now task x|now handle| |]; cbn [step].
  - destruct (isOpen st); [|discriminate]. intros [= <-].
    apply replies_on_message, H.
  - unfold on_validated.
    destruct (awaiting st !! task) as [[t0|t0 h]|]; try discriminate.
    destruct r as [validationResult|message];
      [destruct (Stt.precheck _)|]; intros [= <-];
      rewrite ?sent_finish; try apply replies_on_catch; exact H.
  - unfold on_transcribed.
    destruct (awaiting st !! task) as [[t0|t0 h]|]; try discriminate.
    destruct (Stt.settle x) as [transcript|message]; intros [= <-];
      rewrite sent_finish;
      [apply replies_on_transcript|apply replies_on_catch]; exact H.
  - unfold on_timer.
    destruct (timers st !! handle) as [[due cb]|]; [|discriminate].
    destruct (due <=? now)%Z; [|discriminate]. intros [= <-].
    destruct cb as [| |queued]; try exact H.
    destruct (isOpen _); [|exact H]. apply replies_on_message. exact H.
  - destruct (isOpen st); [|discriminate]. intros [= <-]. exact H.
  - intros [= <-]. exact H.
Qed.

Lemma replies_reachable st :
  reachable st -> Forall well_formed_reply (sent st).
Proof.
  induction 1 as [|st e st' _ IH Hstep]; [constructor|].
  exact (replies_step _ _ _ IH Hstep).
Qed.

(** X25.  The client understands every reply of a session.  Whatever the
    session has sent is a transcript that is trimmed and not empty, the
    no-speech message, or an error with a text.  So
    [handleWebSocketMessage] adds every transcript it receives to the
    history exactly as sent (its own [trim] and its test for an empty
    text never bite) and cleans up; it shows the no-speech message as
    status and keeps the recording page; and it reports every error. *)
Theorem replies_are_understood_by_the_client
    (st : State) (data : outbound) (page : Page) :
  reachable st ->
  In data (sent st) ->
  well_formed_reply data /\
  handleWebSocketMessage data page
  = match data with
    | Transcript text _ _ =>
        {| error := error page; status := Some TranscriptionCompleted;
           transcript := text; added := added page ++ [text];
           cleanedUp := true |}
    | NoSpeech =>
        {| error := error page;
           status := Some (StatusMessage "No speech detected in audio");
           transcript := transcript page; added := added page;
           cleanedUp := cleanedUp page |}
    | ErrorOnly text | ErrorDetail text _ =>
        {| error := Some text; status := Some (StatusError text);
           transcript := transcript page; added := added page;
           cleanedUp := cleanedUp page |}
    | MockTranscript _ => page
    end.
Proof.
  intros Hreach Hin.
  pose proof (replies_reachable st Hreach) as Hall.
  rewrite Forall_forall in Hall.
  assert (Hwf : well_formed_reply data)
    by (apply Hall, list_elem_of_In, Hin).
  split; [exact Hwf|].
  destruct data as [t|text ts pt| |text|text technical]; cbn in Hwf.
  - contradiction.
  - destruct Hwf as [Htruthy Htrim]. unfold handleWebSocketMessage.
    cbn [data_error data_transcript data_message present].
    change (default EmptyString (Some text)) with text. cbv zeta.
    rewrite Htrim, Htruthy. reflexivity.
  - reflexivity.
  - unfold handleWebSocketMessage. cbn [data_error present].
    rewrite Hwf. reflexivity.
  - unfold handleWebSocketMessage. cbn [data_error present].
    rewrite Hwf. reflexivity.
Qed.

Lemma replies_are_understood_by_the_client_witness :
  exists st,
    run init (third_cycle spoken_response) = Some st /\
    In (Transcript "Namaste" 14900 900) (sent st) /\
    added (handleWebSocketMessage (Transcript "Namaste" 14900 900)
             {| error := None; status := None; transcript := EmptyString;
                added := []; cleanedUp := false |})
    = ["Namaste"%string].
Proof.
  eexists. split; [vm_compute; reflexivity|].
  split; [vm_compute; tauto|].
  match goal with
  | |- added (handleWebSocketMessage ?data ?page) = _ =>
      rewrite (proj2 (replies_are_understood_by_the_client
                        (default init (run init (third_cycle spoken_response)))
                        data page
                        (reachable_run init (third_cycle spoken_response) _
                           reachable_init ltac:(vm_compute; reflexivity))
                        ltac:(vm_compute; tauto)))
  end.
  reflexivity.
Defined.

End ClientProofs.

(* ===================================================================== *)
(** * Saving a transcript *)
(* ===================================================================== *)

Module ContextProofs.

Import Session TranscriptContext Samples.

Lemma revert_restores (prev : list Transcript) (tempId : Z) (t : Transcript) :
  Forall (fun t => id t <> tempId) prev -> id t = tempId ->
  filter (fun t => id t <> tempId) (prev ++ [t]) = prev.
Proof.
  intros Hfresh Hid. rewrite filter_app.
  rewrite filter_cons_False, filter_nil by (intros H; exact (H Hid)).
  rewrite app_nil_r.
  induction Hfresh as [|u prev Hu _ IH]; [reflexivity|].
  rewrite filter_cons_True by exact Hu. rewrite IH. reflexivity.
Qed.

Lemma replace_keeps_others (prev : list Transcript) (tempId : Z)
    (data t : Transcript) :
  Forall (fun t => id t <> tempId) prev -> id t = tempId ->
  (fun t => if id t =? tempId then data else t) <$> (prev ++ [t])
  = prev ++ [data].
Proof.
  intros Hfresh Hid. rewrite fmap_app. cbn [fmap list_fmap].
  rewrite (proj2 (Z.eqb_eq _ _) Hid). f_equal.
  induction Hfresh as [|u prev Hu _ IH]; [reflexivity|].
  cbn [fmap list_fmap] in *. rewrite (proj2 (Z.eqb_neq _ _) Hu), IH.
  reflexivity.
Qed.

(** X26.  The optimistic update of [addTranscript] is undone or made
    good.  For a transcript with a text, when no transcript of the list
    has the temporary id and no other update comes in between: if the
    request fails the list is again what it was, an error message is set
    and the call returns [null]; if it succeeds the list is the one
    before with the record of the server at its end, and the call
    returns that record. *)
Theorem optimistic_update_round_trip
    (newTranscript : NewTranscript) (today : string) (tempId : Z)
    (response : result saveError Transcript) (st : State) :
  Forall (fun t => id t <> tempId) (transcripts st) ->
  truthy (trim (default EmptyString (new_content newTranscript))) = true ->
  match response with
  | Ok data =>
      addTranscript newTranscript today tempId response st
      = (Some data,
         {| transcripts := transcripts st ++ [data]; error := error st |})
  | Throw _ =>
      exists message,
        addTranscript newTranscript today tempId response st
        = (None, {| transcripts := transcripts st; error := Some message |})
  end.
Proof.
  intros Hfresh Htext. unfold addTranscript. rewrite Htext. cbn [negb].
  destruct response as [data|e]; cbv zeta.
  - unfold setTranscripts. cbn [transcripts error].
    rewrite replace_keeps_others by (exact Hfresh || reflexivity).
    reflexivity.
  - eexists. unfold setTranscripts, setError. cbn [transcripts error].
    rewrite revert_restores by (exact Hfresh || reflexivity).
    reflexivity.
Qed.

Lemma optimistic_update_round_trip_witness :
  addTranscript
    (from_meeting "Hindi Meeting - 9/27/2025" "2025-09-27" "Namaste")
    "2025-09-27" 1758931200000 (Ok saved_meeting)
    {| transcripts := []; error := None |}
  = (Some saved_meeting,
     {| transcripts := [saved_meeting]; error := None |}).
Proof.
  exact (optimistic_update_round_trip
           (from_meeting "Hindi Meeting - 9/27/2025" "2025-09-27" "Namaste")
           "2025-09-27" 1758931200000 (Ok saved_meeting)
           {| transcripts := []; error := None |}
           (List.Forall_nil _) eq_refl).
Defined.

(** A content of white space only, Unicode spaces included, is refused
    before anything is added. *)
Example blank_content_is_refused :
  addTranscript
    (from_meeting "Hindi Meeting - 9/27/2025" "2025-09-27" blank_transcript)
    "2025-09-27" 1758931200000 (Ok saved_meeting)
    {| transcripts := []; error := None |}
  = (None,
     {| transcripts := []; error := Some "Cannot save empty transcript" |}).
Proof. vm_compute. reflexivity. Qed.

End ContextProofs.
